(** * spectronaut-webui: the orchestration layer of [helpers.py] and [main.py]

    A shallow embedding of the helper functions of
    [src/spectronaut_webui/helpers.py] and of the DirectDIA workflow of
    [src/spectronaut_webui/main.py], with the properties the specification
    states about them.

    The code runs in a state and exception monad over a [world]: the file
    system, the shared file table, the process registry, the progress queue
    and the trace of events, together with the choices of the environment
    (how each spawned process and each archive behaves, when a cancellation
    arrives).  A cancellation can arrive while the output of a process is
    read, while a process is awaited, and between two extractions. *)

From Stdlib Require Import ZArith List String Ascii Bool Lia.
From stdpp Require Import base option list gmap sets strings pretty.

Open Scope string_scope.
Open Scope list_scope.

(** ** Data model *)

(** One row of the file table: the dictionary built by [add_to_datafiles]
    in [main.py].  The metadata fields are free text, [reference] is a
    checkbox. *)
Record datafile := Datafile {
  name : string;
  type : string;
  path : string;
  replicate : string;
  condition : string;
  fraction : string;
  reference : bool
}.

Global Instance datafile_eq_dec : EqDecision datafile.
Proof. solve_decision. Defined.

(** Python exceptions that occur in the modelled code.  [CancelledError]
    derives from [BaseException]; every other class derives from
    [Exception], so [except Exception] catches all but the first. *)
Inductive exn :=
  | CancelledError (msg : string)
  | TimeoutError
  | KeyError (key : string)
  | TypeError (msg : string)
  | FileNotFoundError (msg : string)
  | OSError (msg : string)
  | ValueError (msg : string)
  | BadZipFile (msg : string)
  | Exception (msg : string).

Definition is_Exception (e : exn) : bool :=
  match e with CancelledError _ => false | _ => true end.

Definition is_CancelledError (e : exn) : bool :=
  match e with CancelledError _ => true | _ => false end.

Definition is_TimeoutError (e : exn) : bool :=
  match e with TimeoutError => true | _ => false end.

(** [str(e)] *)
Definition exn_str (e : exn) : string :=
  match e with
  | CancelledError m | TypeError m | FileNotFoundError m | OSError m
  | ValueError m | BadZipFile m | Exception m => m
  | TimeoutError => ""
  | KeyError k => "'" +:+ k +:+ "'"
  end.

Inductive result (A : Type) :=
  | Ok (a : A)
  | Raise (e : exn).
Arguments Ok {A} a.
Arguments Raise {A} e.

Inductive level := DEBUG | INFO | WARNING | ERROR.

(** Messages of the progress channel: [('progress', text)] and
    [('done', idx, ok, real_path, error)]. *)
Inductive progress_event :=
  | QProgress (message : string)
  | QDone (idx : nat) (success : bool) (real_path : string) (error : string).

(** What the code does to the outside world, in order.  [Exec n args] is
    the n-th call of [create_subprocess_exec], whether or not the process
    could be started. *)
Inductive event :=
  | Log (lvl : level) (msg : string)
  | Notify (msg : string)
  | OutputClear
  | Exec (proc : nat) (args : list string)
  | Terminate (proc : nat)
  | Kill (proc : nat)
  | Wait (proc : nat)
  | ProgressVisible (v : bool)
  | ProgressValue (done total : nat).

Global Instance level_eq_dec : EqDecision level.
Proof. solve_decision. Defined.
Global Instance progress_event_eq_dec : EqDecision progress_event.
Proof. solve_decision. Defined.
Global Instance event_eq_dec : EqDecision event.
Proof. solve_decision. Defined.

(** *** The environment: external processes and archives *)

(** How the output stream of a child process ends while [run_cmd] reads
    it: end of file, cancellation of the reading task, or an error of the
    stream reader (a line over the buffer limit raises [ValueError]). *)
Inductive stream_end :=
  | StreamEOF
  | StreamCancelled
  | StreamError (e : string).

(** How [await process.wait()] ends. *)
Inductive wait_end :=
  | Exits (rc : Z)
  | WaitCancelled.

(** The behaviour of one external process, chosen by the environment:
    whether [create_subprocess_exec] fails, the pid, the lines read from
    its output, when and how the output ends, how waiting for it ends
    (before and after a kill), whether [kill] raises, and whether it exits
    on [terminate]. *)
Record proc_behaviour := ProcBehaviour {
  pb_spawn_error : option string;
  pb_pid : Z;
  pb_output : list string;
  pb_stream_time : Z;
  pb_stream : stream_end;
  pb_wait : wait_end;
  pb_kill_error : option string;
  pb_wait_killed : wait_end;
  pb_exits_on_terminate : bool
}.

(** What [zipfile.ZipFile(p).extractall(dest)] does for an archive: the
    members it writes under [dest], and the error it raises, if any, after
    writing them. *)
Record zip_behaviour := ZipBehaviour {
  zb_members : list string;
  zb_error : option exn
}.

Inductive node := Dir | File (content : string).

Global Instance node_eq_dec : EqDecision node.
Proof. solve_decision. Defined.

(** The state the code runs in: the file system (a flat map from path
    strings to nodes), the shared file table (one list object, referenced by
    the UI and by [args['datafiles']]), the registry [_active_processes]
    (processes are named by the order they were spawned in), the exit codes
    known so far, the progress queue, the events emitted so far, and the
    environment's choices: the behaviour of the n-th spawned process, of each
    archive, and after how many finished extractions a cancellation is seen. *)
Record world := World {
  fs : gmap string node;
  datafiles : list datafile;
  active_processes : gmap nat (list nat);
  returncode : gmap nat Z;
  progress_q : list progress_event;
  current_task : nat;
  spawned : nat;
  trace : list event;
  procs : nat → proc_behaviour;
  archives : string → zip_behaviour;
  cancel_extraction : option nat
}.

Definition set_fs (f : gmap string node → gmap string node) (w : world) : world :=
  World (f (fs w)) (datafiles w) (active_processes w) (returncode w) (progress_q w) (current_task w) (spawned w) (trace w) (procs w) (archives w) (cancel_extraction w).
Definition set_datafiles (f : list datafile → list datafile) (w : world) : world :=
  World (fs w) (f (datafiles w)) (active_processes w) (returncode w) (progress_q w) (current_task w) (spawned w) (trace w) (procs w) (archives w) (cancel_extraction w).
Definition set_active_processes (f : gmap nat (list nat) → gmap nat (list nat)) (w : world) : world :=
  World (fs w) (datafiles w) (f (active_processes w)) (returncode w) (progress_q w) (current_task w) (spawned w) (trace w) (procs w) (archives w) (cancel_extraction w).
Definition set_returncode (f : gmap nat Z → gmap nat Z) (w : world) : world :=
  World (fs w) (datafiles w) (active_processes w) (f (returncode w)) (progress_q w) (current_task w) (spawned w) (trace w) (procs w) (archives w) (cancel_extraction w).
Definition set_progress_q (f : list progress_event → list progress_event) (w : world) : world :=
  World (fs w) (datafiles w) (active_processes w) (returncode w) (f (progress_q w)) (current_task w) (spawned w) (trace w) (procs w) (archives w) (cancel_extraction w).
Definition set_spawned (f : nat → nat) (w : world) : world :=
  World (fs w) (datafiles w) (active_processes w) (returncode w) (progress_q w) (current_task w) (f (spawned w)) (trace w) (procs w) (archives w) (cancel_extraction w).
Definition set_trace (f : list event → list event) (w : world) : world :=
  World (fs w) (datafiles w) (active_processes w) (returncode w) (progress_q w) (current_task w) (spawned w) (f (trace w)) (procs w) (archives w) (cancel_extraction w).

(** *** A state and exception monad *)

Definition M (A : Type) : Type := world → result A * world.

Global Instance M_ret : MRet M := λ A a w, (Ok a, w).
Global Instance M_bind : MBind M := λ A B f m w,
  match m w with
  | (Ok a, w') => f a w'
  | (Raise e, w') => (Raise e, w')
  end.

Definition raise {A} (e : exn) : M A := λ w, (Raise e, w).
Definition get_world : M world := λ w, (Ok w, w).
Definition modify (f : world → world) : M unit := λ w, (Ok tt, f w).
Definition emit (e : event) : M unit := modify (set_trace (λ t, t ++ [e])).
Definition log (lvl : level) (msg : string) : M unit := emit (Log lvl msg).

(** [try: body except ...: handler]: the handler is chosen by the class of
    the exception; [None] lets it propagate. *)
Definition try_except {A} (body : M A) (handler : exn → option (M A)) : M A :=
  λ w, match body w with
       | (Ok a, w') => (Ok a, w')
       | (Raise e, w') =>
           match handler e with
           | Some h => h w'
           | None => (Raise e, w')
           end
       end.

(** [try: body finally: fin] *)
Definition try_finally {A} (body : M A) (fin : M unit) : M A :=
  λ w, let '(r, w') := body w in
       match fin w' with
       | (Ok _, w'') => (r, w'')
       | (Raise e, w'') => (Raise e, w'')
       end.

(** [try: body except Exception: pass] *)
Definition suppress (body : M unit) : M unit :=
  try_except body (λ e, if is_Exception e then Some (mret tt) else None).

(** ** Python strings *)

(** A character is a code point below 256 (the type [ascii] read as
    Latin-1); text with a code point from 256 on has no counterpart here.

    [str.isspace], which decides what [str.strip] removes: tab, line feed,
    vertical tab, form feed, carriage return, the four separators 28-31, the
    space, the next-line control U+0085 and the no-break space U+00A0. *)
Definition py_isspace (a : ascii) : bool :=
  let n := nat_of_ascii a in
  (((9 <=? n) && (n <=? 13)) || ((28 <=? n) && (n <=? 32))
   || (n =? 133) || (n =? 160))%nat.

Fixpoint lstrip (s : string) : string :=
  match s with
  | String a s' => if py_isspace a then lstrip s' else s
  | EmptyString => EmptyString
  end.

Fixpoint rstrip (s : string) : string :=
  match s with
  | String a s' =>
      match rstrip s' with
      | EmptyString => if py_isspace a then EmptyString else String a EmptyString
      | r => String a r
      end
  | EmptyString => EmptyString
  end.

Definition strip (s : string) : string := rstrip (lstrip s).

(** [str.lower] on one character: the capital letters A-Z and, above 127,
    the capital letters U+00C0-U+00DE (but not the multiplication sign
    U+00D7) have their small letter 32 code points further on. *)
Definition lower_ascii (a : ascii) : ascii :=
  let n := nat_of_ascii a in
  if (((65 <=? n) && (n <=? 90))
      || ((192 <=? n) && (n <=? 222) && negb (n =? 215)))%nat
  then ascii_of_nat (n + 32) else a.

Fixpoint lower (s : string) : string :=
  match s with
  | String a s' => String (lower_ascii a) (lower s')
  | EmptyString => EmptyString
  end.

(** [sep.join(parts)] *)
Fixpoint join (sep : string) (parts : list string) : string :=
  match parts with
  | [] => ""
  | [x] => x
  | x :: rest => x +:+ sep +:+ join sep rest
  end.

Definition TAB : string := String (ascii_of_nat 9) EmptyString.
Definition LF : string := String (ascii_of_nat 10) EmptyString.

(** ** Library functions the code calls

    [pathlib] and the field quoting of the [csv] writer are not part of the
    repository.  A path object is represented by its [str()].  Whether a
    directory can be created is decided by the disk (a parent that is a
    regular file, a directory without write permission, a read-only disk):
    the last field gives the message of the [OSError] that is raised, if
    any. *)
Class PythonLib := {
  (** [str(Path(s))] *)
  Path : string → string;
  (** [str(Path(p).joinpath(q))] *)
  joinpath : string → string → string;
  (** [Path(p).stem] *)
  stem : string → string;
  (** [Path(p).name] *)
  basename : string → string;
  (** [str(Path(p).parent)] *)
  parent : string → string;
  (** the text the csv writer emits for one field *)
  csv_field : string → string;
  (** the error of [Path(p).mkdir(parents=True)] on a disk that has no
      entry [p] *)
  mkdir_error : gmap string node → string → option string
}.

(** The configuration loaded by [load_config]: [SPECTRONAUT] and
    [SPECTRONAUT_KEY] of main.py. *)
Class Config := {
  SPECTRONAUT : list string;
  SPECTRONAUT_KEY : string
}.

(** *** A POSIX instance, for evaluating the definitions *)

Fixpoint split_go (sep : ascii) (cur : string) (s : string) : list string :=
  match s with
  | EmptyString => [String.rev cur]
  | String a s' =>
      if decide (a = sep) then String.rev cur :: split_go sep EmptyString s'
      else split_go sep (String a cur) s'
  end.

(** [s.split(sep)] for a one-character separator *)
Definition split (sep : ascii) (s : string) : list string :=
  split_go sep EmptyString s.

Definition is_absolute (s : string) : bool :=
  match s with String "/" _ => true | _ => false end.

Definition components (s : string) : list string :=
  filter (λ c, c ≠ "" ∧ c ≠ ".") (split "/" s).

Definition posix_of (absolute : bool) (parts : list string) : string :=
  if absolute then "/" +:+ join "/" parts
  else match parts with [] => "." | _ => join "/" parts end.

Definition posix_Path (s : string) : string :=
  posix_of (is_absolute s) (components s).

Definition posix_joinpath (p q : string) : string :=
  if is_absolute q then posix_Path q else posix_Path (p +:+ "/" +:+ q).

Definition posix_name (p : string) : string :=
  default "" (last (components p)).

Definition posix_parent (p : string) : string :=
  posix_of (is_absolute p) (removelast (components p)).

(** The stem drops the last suffix: the part from the last dot on, when
    that dot is neither the first nor the last character of the name. *)
Definition posix_stem (p : string) : string :=
  let nm := posix_name p in
  match reverse (split "." nm) with
  | suffix :: (_ :: _) as rest =>
      let base := join "." (reverse rest) in
      if decide (suffix = "" ∨ base = "") then nm else base
  | _ => nm
  end.

Definition needs_quote (a : ascii) : bool :=
  let n := nat_of_ascii a in
  ((n =? 9) || (n =? 10) || (n =? 13) || (n =? 34))%nat.

Fixpoint any_char (f : ascii → bool) (s : string) : bool :=
  match s with
  | EmptyString => false
  | String a s' => f a || any_char f s'
  end.

Definition DQUOTE : string := String (ascii_of_nat 34) EmptyString.

Fixpoint double_quotes (s : string) : string :=
  match s with
  | EmptyString => EmptyString
  | String a s' =>
      if (nat_of_ascii a =? 34)%nat then DQUOTE +:+ DQUOTE +:+ double_quotes s'
      else String a (double_quotes s')
  end.

Definition minimal_quote (s : string) : string :=
  if any_char needs_quote s then DQUOTE +:+ double_quotes s +:+ DQUOTE else s.

(** The directories above [p], nearest first. *)
Fixpoint ancestors (fuel : nat) (p : string) : list string :=
  match fuel with
  | 0 => []
  | S n => posix_parent p :: ancestors n (posix_parent p)
  end.

(** On the disk of the instance every directory can be written: creating a
    directory fails only below a regular file. *)
Definition below_file (files : gmap string node) (p : string) : bool :=
  existsb (λ a, match files !! a with Some (File _) => true | _ => false end)
          (ancestors (String.length p) p).

Definition posix_mkdir_error (files : gmap string node) (p : string) : option string :=
  if below_file files p then Some ("[Errno 20] Not a directory: '" +:+ p +:+ "'")
  else None.

Definition posix : PythonLib := {|
  Path := posix_Path;
  joinpath := posix_joinpath;
  stem := posix_stem;
  basename := posix_name;
  parent := posix_parent;
  csv_field := minimal_quote;
  mkdir_error := posix_mkdir_error
|}.

Definition default_config : Config := {|
  SPECTRONAUT := ["dotnet"; "/usr/lib/spectronaut/SpectronautCMD.dll"];
  SPECTRONAUT_KEY := "KEY"
|}.

(** ** [_extract_zip_worker] (helpers.py, lines 96-125) *)

(** [p.exists()] *)
Definition path_exists (p : string) (w : world) : bool :=
  bool_decide (is_Some (fs w !! p)).

Section Worker.
Context `{!PythonLib}.

(** [with zipfile.ZipFile(zip_path, 'r') as zip_ref:
      zip_ref.extractall(extract_path)] *)
Definition extractall (zip_path extract_path : string) : M unit :=
  w ← get_world;
  let zb := archives w zip_path in
  modify (set_fs (λ f,
    foldl (λ f m, <[joinpath extract_path m := File ""]> f) f (zb_members zb)));;
  match zb_error zb with
  | Some e => raise e
  | None => mret tt
  end.

Definition _try_put (progress_queue : bool) (item : progress_event) : M unit :=
  if progress_queue
  then suppress (modify (set_progress_q (λ q, q ++ [item])))
  else mret tt.

Definition _extract_zip_worker (idx : nat) (zip_path extract_path : string)
    (progress_queue : bool) : M (nat * bool * string * string) :=
  try_except
    (_try_put progress_queue (QProgress ("Extracting " +:+ zip_path));;
     extractall zip_path extract_path;;
     let real_path := joinpath extract_path "analysis.tdf" in
     w ← get_world;
     if negb (path_exists real_path w) then
       _try_put progress_queue
         (QDone idx false "" ("Missing analysis.tdf after extraction for " +:+ zip_path));;
       mret (idx, false, "", "Missing analysis.tdf after extraction for " +:+ zip_path)
     else
       _try_put progress_queue (QDone idx true (parent real_path) "");;
       mret (idx, true, parent real_path, ""))
    (λ e, if is_Exception e then Some (
       _try_put progress_queue (QDone idx false "" (exn_str e));;
       mret (idx, false, "", exn_str e))
     else None).
End Worker.

(** ** [validate_filetable] (helpers.py, lines 127-137) *)

Definition validate_filetable (filetable : list datafile) : bool :=
  let types : gset string := list_to_set (type <$> filetable) in
  if bool_decide (size types = 1) && bool_decide ("Thermo Raw" ∈ types) then true
  else if bool_decide (size types = 1)
          && (bool_decide ("Bruker D" ∈ types) || bool_decide ("Bruker D Zip" ∈ types))
  then true
  else if bool_decide (size types = 2)
          && bool_decide ("Bruker D" ∈ types) && bool_decide ("Bruker D Zip" ∈ types)
  then true
  else false.

(** ** [write_conditon_file] (helpers.py, lines 139-162) *)

(** A value of the [replicate] column of the data frame: the text of the
    file table, an integer written by the auto-assignment, or a missing
    value. *)
Inductive cell :=
  | CStr (s : string)
  | CInt (n : nat)
  | CNaN.

Global Instance cell_eq_dec : EqDecision cell.
Proof. solve_decision. Defined.

(** [.astype(str)] *)
Definition astype_str (c : cell) : string :=
  match c with
  | CStr s => s
  | CInt n => pretty n
  | CNaN => "nan"
  end.

(** [lambda s: s.strip().lower() in ['', 'none', 'nan']] *)
Definition unfilled (s : string) : bool :=
  bool_decide (lower (strip s) ∈ [""; "none"; "nan"]).

(** The rows of the data frame [df]: the columns of the file table, then
    ['#'] and ['File Name'] (0 and the empty string until they are
    assigned). *)
Record frame_row := FrameRow {
  c_name : string;
  c_type : string;
  c_path : string;
  c_replicate : cell;
  c_condition : string;
  c_fraction : string;
  c_reference : bool;
  c_num : nat;
  c_file_name : string
}.

Definition DataFrame (filetable : list datafile) : list frame_row :=
  (λ f, FrameRow (name f) (type f) (path f) (CStr (replicate f)) (condition f)
                 (fraction f) (reference f) 0 "") <$> filetable.

Definition set_num (r : frame_row) (n : nat) : frame_row :=
  FrameRow (c_name r) (c_type r) (c_path r) (c_replicate r) (c_condition r)
           (c_fraction r) (c_reference r) n (c_file_name r).
Definition set_file_name (r : frame_row) (s : string) : frame_row :=
  FrameRow (c_name r) (c_type r) (c_path r) (c_replicate r) (c_condition r)
           (c_fraction r) (c_reference r) (c_num r) s.
Definition set_fraction (r : frame_row) (s : string) : frame_row :=
  FrameRow (c_name r) (c_type r) (c_path r) (c_replicate r) (c_condition r)
           s (c_reference r) (c_num r) (c_file_name r).
Definition set_condition (r : frame_row) (s : string) : frame_row :=
  FrameRow (c_name r) (c_type r) (c_path r) (c_replicate r) s
           (c_fraction r) (c_reference r) (c_num r) (c_file_name r).
Definition set_replicate (r : frame_row) (c : cell) : frame_row :=
  FrameRow (c_name r) (c_type r) (c_path r) c (c_condition r)
           (c_fraction r) (c_reference r) (c_num r) (c_file_name r).

(** *** [groupby(...).transform(...)]: split, apply, combine *)

Section GroupBy.
Context {K : Type} `{EqDecision K}.

(** The row positions that carry the key [k], in row order. *)
Fixpoint positions_from (i : nat) (k : K) (keys : list K) : list nat :=
  match keys with
  | [] => []
  | k' :: rest =>
      if decide (k' = k) then i :: positions_from (S i) k rest
      else positions_from (S i) k rest
  end.

(** One group per distinct key, with the positions of its rows. *)
Definition groupby (keys : list K) : list (K * list nat) :=
  (λ k, (k, positions_from 0 k keys)) <$> remove_dups keys.

Definition gather {A} (ps : list nat) (col : list A) : list A :=
  omap (λ p, col !! p) ps.

Definition scatter {A} (ps : list nat) (vs : list A) (out : list A) : list A :=
  foldl (λ o pv, <[pv.1 := pv.2]> o) out (zip ps vs).

(** [f] is applied to the values of each group, and its results are
    written back to the rows of the group; a row of no group keeps the
    missing value. *)
Definition transform {A B} (groups : list (K * list nat)) (f : list A → list B)
    (col : list A) (nan : B) : list B :=
  foldl (λ out g, scatter g.2 (f (gather g.2 col)) out) (const nan <$> col) groups.
End GroupBy.

Section ConditionFile.
Context `{!PythonLib}.

Definition group_key (r : frame_row) : string * string :=
  (c_fraction r, c_condition r).

(** The data frame after the column assignments, and whether the warning
    is logged. *)
Definition condition_frame (filetable : list datafile) : list frame_row * bool :=
  let df := DataFrame filetable in
  let df := zip_with set_num df (seq 1 (length df)) in
  let df := (λ r, set_file_name r (stem (c_name r))) <$> df in
  let df := (λ r, set_fraction r
               (if decide (c_fraction r = "") then "NA" else c_fraction r)) <$> df in
  let df := (λ r, set_condition r
               (if decide (c_condition r = "") then "NA" else c_condition r)) <$> df in
  let df :=
    if forallb (λ c, unfilled (astype_str c)) (c_replicate <$> df) then
      zip_with set_replicate df
        (transform (groupby (group_key <$> df))
                   (λ f, CInt <$> seq 1 (length f)) (c_replicate <$> df) CNaN)
    else df in
  (df, existsb (λ c, unfilled (astype_str c)) (c_replicate <$> df)).

(** A row of the table that is written: the eight selected columns. *)
Record condition_row := ConditionRow {
  Num : nat;
  Reference : bool;
  Run_Label : string;
  Condition : string;
  Fraction : string;
  Replicate : cell;
  Label : string;
  File_Name : string
}.

(** The renaming, [df['Label'] = df['Condition']] and the selection
    [df.loc[:, [...]]]. *)
Definition select (r : frame_row) : condition_row :=
  ConditionRow (c_num r) (c_reference r) (c_name r) (c_condition r) (c_fraction r)
               (c_replicate r) (c_condition r) (c_file_name r).

Definition condition_table (filetable : list datafile) : list condition_row :=
  select <$> (condition_frame filetable).1.

Definition header : list string :=
  ["#"; "Reference"; "Run Label"; "Condition"; "Fraction"; "Replicate"; "Label";
   "File Name"].

Definition py_bool (b : bool) : string := if b then "True" else "False".

Definition cell_text (c : cell) : string :=
  match c with
  | CStr s => s
  | CInt n => pretty n
  | CNaN => ""
  end.

Definition fields (r : condition_row) : list string :=
  [pretty (Num r); py_bool (Reference r); Run_Label r; Condition r; Fraction r;
   cell_text (Replicate r); Label r; File_Name r].

(** [to_csv(output_path, sep='\t', index=False)]: the header line, then
    one line per row. *)
Definition to_csv (table : list condition_row) : string :=
  String.concat ""
    ((λ line, join TAB (csv_field <$> line) +:+ LF) <$> (header :: (fields <$> table))).

Definition write_conditon_file (filetable : list datafile) (output_path : string)
    : M unit :=
  match filetable with
  | [] => raise (KeyError "name")
  | _ =>
      (if (condition_frame filetable).2
       then log WARNING "Only some replicates were assigned, check your input"
       else mret tt);;
      modify (set_fs <[output_path := File (to_csv (condition_table filetable))]>)
  end.
End ConditionFile.

(** ** Argument assembly (helpers.py, lines 315-358) *)

(** The values found in the options dictionary [args]: [None], a checkbox
    value, the text of an input field, a [Path] object (given by its
    [str()]), the file table, or an object of another class, given by its
    [str()]: the DirectDIA page passes the checkbox widget itself under
    ['segmented'] (main.py, line 864), not its value. *)
Inductive pyval :=
  | VNone
  | VBool (b : bool)
  | VStr (s : string)
  | VPath (p : string)
  | VFiles (files : list datafile)
  | VObject (shown : string).

Global Instance pyval_eq_dec : EqDecision pyval.
Proof. solve_decision. Defined.

(** Truth value of an object: [None], [False], the empty string and the
    empty list are false; a [Path] is always true, and so is an object whose
    class defines neither [__bool__] nor [__len__], such as a widget. *)
Definition truthy (v : pyval) : bool :=
  match v with
  | VNone => false
  | VBool b => b
  | VStr s => negb (bool_decide (s = ""))
  | VPath _ => true
  | VFiles l => negb (bool_decide (l = []))
  | VObject _ => true
  end.

(** [repr] of a string and of a list of strings, without escapes. *)
Definition repr_str (s : string) : string := "'" +:+ s +:+ "'".
Definition repr_list (l : list string) : string :=
  "[" +:+ join ", " (repr_str <$> l) +:+ "]".

Definition repr_datafile (f : datafile) : string :=
  "{'name': " +:+ repr_str (name f) +:+ ", 'type': " +:+ repr_str (type f)
  +:+ ", 'path': " +:+ repr_str (path f)
  +:+ ", 'replicate': " +:+ repr_str (replicate f)
  +:+ ", 'condition': " +:+ repr_str (condition f)
  +:+ ", 'fraction': " +:+ repr_str (fraction f)
  +:+ ", 'reference': " +:+ (if reference f then "True" else "False") +:+ "}".

(** [f'{v}'].  The string of a path is never empty: [str(Path(''))] is
    ['.']. *)
Definition py_str (v : pyval) : string :=
  match v with
  | VNone => "None"
  | VBool b => if b then "True" else "False"
  | VStr s => s
  | VPath p => if decide (p = "") then "." else p
  | VFiles l => "[" +:+ join ", " (repr_datafile <$> l) +:+ "]"
  | VObject shown => shown
  end.

(** [args.get(key)]: a missing key gives [None]. *)
Definition dict_get (args : gmap string pyval) (key : string) : pyval :=
  default VNone (args !! key).

(** [if args.get(key): result.append(flags + [f'{args[key]}'])] *)
Definition with_value (args : gmap string pyval) (key : string) (flags : list string)
    (result : list (list string)) : list (list string) :=
  if truthy (dict_get args key)
  then result ++ [flags ++ [py_str (dict_get args key)]]
  else result.

(** [if args.get(key): result.append([flag])] *)
Definition with_flag (args : gmap string pyval) (key : string) (flag : string)
    (result : list (list string)) : list (list string) :=
  if truthy (dict_get args key) then result ++ [[flag]] else result.

Definition _parse_args (args : gmap string pyval) : list (list string) :=
  let result := [] in
  let result := with_value args "temp_directory" ["-setTemp"] result in
  let result := with_value args "mod_repository" ["--importModRepository"] result in
  let result := with_value args "enzyme_database" ["--importEnzymeDB"] result in
  let result := with_value args "protocol" [] result in
  let result := with_value args "experiment_name" ["-n"] result in
  let result := with_value args "condition_file" ["-con"] result in
  let result := with_value args "properties_file" ["-s"] result in
  let result := with_value args "report_file" ["-rs"] result in
  let result := with_value args "fasta_file" ["-fasta"] result in
  let result := with_value args "go_file" ["-go"] result in
  let result := with_value args "output_directory" ["-o"] result in
  let result := with_flag args "verbose" "--verbose" result in
  let result := with_flag args "parquet" "--writeParquet" result in
  let result := with_flag args "error_term" "--terminateAfterError" result in
  let result := with_flag args "segmented" "-segmented" result in
  result.

(** [functools.reduce(lambda i, j: i + j, _parse_args(args), [])] *)
Definition get_args (args : gmap string pyval) : list string :=
  foldl (λ i j, i ++ j) [] (_parse_args args).

(** Iterating over [args.get('datafiles')] raises [TypeError] when the key
    is missing or holds no list of files (an object of another class is
    taken not to be iterable). *)
Definition get_full_args (args : gmap string pyval) : result (list string) :=
  let args_list := foldl (λ i j, i ++ j) [] (_parse_args args) in
  match dict_get args "datafiles" with
  | VFiles files => Ok (foldl (λ l file, l ++ ["-r"; path file]) args_list files)
  | VNone => Raise (TypeError "'NoneType' object is not iterable")
  | VBool _ => Raise (TypeError "'bool' object is not iterable")
  | VStr "" => Ok args_list
  | VStr _ => Raise (TypeError "string indices must be integers")
  | VPath _ => Raise (TypeError "'PosixPath' object is not iterable")
  | VObject _ => Raise (TypeError "object is not iterable")
  end.

(** ** Process registry (helpers.py, lines 13-94) *)

Fixpoint for_each {A} (l : list A) (body : A → M unit) : M unit :=
  match l with
  | [] => mret tt
  | x :: rest => body x;; for_each rest body
  end.

Fixpoint foldM {A B} (f : B → A → M B) (acc : B) (l : list A) : M B :=
  match l with
  | [] => mret acc
  | x :: rest => acc' ← f acc x; foldM f acc' rest
  end.

(** [asyncio.create_subprocess_exec] with the output piped: the environment
    decides how the next process behaves.  A new process has no exit code. *)
Definition create_subprocess_exec (args : list string) : M nat :=
  w ← get_world;
  let proc := spawned w in
  modify (set_spawned S);;
  modify (set_returncode (delete proc));;
  emit (Exec proc args);;
  match pb_spawn_error (procs w proc) with
  | Some msg => raise (OSError msg)
  | None => mret proc
  end.

Definition terminate (proc : nat) : M unit :=
  emit (Terminate proc);;
  w ← get_world;
  if pb_exits_on_terminate (procs w proc)
  then modify (set_returncode (λ m, match m !! proc with
                                    | Some _ => m
                                    | None => <[proc := (-15)%Z]> m
                                    end))
  else mret tt.

Definition kill (proc : nat) : M unit :=
  emit (Kill proc);;
  w ← get_world;
  match pb_kill_error (procs w proc) with
  | Some msg => raise (OSError msg)
  | None => mret tt
  end.

(** [await process.wait()]: a known exit code is returned at once. *)
Definition process_wait (proc : nat) (killed : bool) : M Z :=
  emit (Wait proc);;
  w ← get_world;
  match returncode w !! proc with
  | Some rc => mret rc
  | None =>
      match (if killed then pb_wait_killed (procs w proc) else pb_wait (procs w proc)) with
      | Exits rc => modify (set_returncode <[proc := rc]>);; mret rc
      | WaitCancelled => raise (CancelledError "")
      end
  end.

Definition register_subprocess (process : nat) : M unit :=
  w ← get_world;
  let task_id := current_task w in
  if bool_decide (is_Some (active_processes w !! task_id))
  then modify (set_active_processes (alter (λ l, l ++ [process]) task_id))
  else mret tt.

Definition _cleanup_processes (task_id : nat) : M unit :=
  w ← get_world;
  let processes := default [] (active_processes w !! task_id) in
  match processes with
  | [] => mret tt
  | _ =>
      log WARNING ("Cleaning up " +:+ pretty (length processes) +:+ " subprocess(es)");;
      for_each processes (λ proc,
        w ← get_world;
        if bool_decide (returncode w !! proc = None)
        then suppress (terminate proc) else mret tt);;
      for_each processes (λ proc,
        w ← get_world;
        if bool_decide (returncode w !! proc = None)
        then suppress (kill proc) else mret tt);;
      for_each processes (λ proc, suppress (process_wait proc true;; mret tt))
  end.

(** The decorator [@track_subprocess_cleanup]. *)
Definition track_subprocess_cleanup {A} (coro_func : M A) : M A :=
  w ← get_world;
  let task_id := current_task w in
  modify (set_active_processes <[task_id := []]>);;
  try_finally
    (try_except coro_func
       (λ e, if is_CancelledError e
             then Some (_cleanup_processes task_id;; raise e) else None))
    (modify (set_active_processes (delete task_id))).

(** ** [run_cmd] (helpers.py, lines 360-422) *)

Definition repr_timeout (timeout : option Z) : string :=
  match timeout with
  | None => "None"
  | Some t => pretty t
  end.

(** [_stream_stdout], run under [asyncio.wait_for] when a timeout is given:
    the lines read are logged; the timeout fires when the stream would end
    later than it. *)
Definition _stream_stdout (process : nat) (timeout : option Z) : M unit :=
  w ← get_world;
  let pb := procs w process in
  for_each (pb_output pb) (λ raw_line, log INFO (rstrip raw_line));;
  let fired := match timeout with
               | Some t => bool_decide (t < pb_stream_time pb)%Z
               | None => false
               end in
  if fired then raise TimeoutError
  else match pb_stream pb with
       | StreamEOF => mret tt
       | StreamCancelled => raise (CancelledError "")
       | StreamError e => raise (ValueError e)
       end.

Definition run_cmd (args : list string) (timeout : option Z) : M bool :=
  log DEBUG ("run_cmd " +:+ repr_list args +:+ " (timeout=" +:+ repr_timeout timeout +:+ ")");;
  try_except
    (process ← create_subprocess_exec args;
     register_subprocess process;;
     w ← get_world;
     let pid := pretty (pb_pid (procs w process)) in
     log DEBUG ("Added PID: " +:+ pid);;
     try_except
       (_stream_stdout process timeout;;
        rc ← process_wait process false;
        mret (bool_decide (rc = 0%Z)))
       (λ e,
          if is_TimeoutError e then Some (
            log ERROR ("Command timed out after " +:+ repr_timeout timeout
                       +:+ " seconds: " +:+ repr_list args);;
            suppress (kill process);;
            process_wait process true;;
            mret false)
          else if is_CancelledError e then Some (
            try_except
              (log DEBUG ("Killing " +:+ pid);; kill process)
              (λ e', if is_Exception e'
                     then Some (log DEBUG ("Killing failed for " +:+ pid +:+ ": "
                                           +:+ exn_str e'))
                     else None);;
            process_wait process true;;
            raise e)
          else None))
    (λ e, if is_Exception e then Some (
       log ERROR ("Cannot execute command " +:+ repr_list args +:+ ": " +:+ exn_str e);;
       mret false)
     else None).

(** ** [prepare_datafiles] (helpers.py, lines 164-313)

    The worker pool is modelled by one schedule: the archives are extracted
    one after the other, in the order they were submitted, and the reader
    consumes the messages of a worker when it is done.  The environment
    fixes after how many finished archives a cancellation is observed.  A
    failure of the pool itself is not part of the environment, so the
    handler that logs it is never entered with errors already collected. *)

Definition set_path (f : datafile) (p : string) : datafile :=
  Datafile (name f) (type f) p (replicate f) (condition f) (fraction f) (reference f).
Definition set_name (f : datafile) (n : string) : datafile :=
  Datafile n (type f) (path f) (replicate f) (condition f) (fraction f) (reference f).

Section Prepare.
Context `{!PythonLib}.

(** The first loop: folders are checked and normalised in place, archives
    are collected with their index. *)
Fixpoint scan_filetable (idx : nat) (files : list datafile)
    : M (list (nat * datafile)) :=
  match files with
  | [] => mret []
  | file :: rest =>
      if decide (type file = "Bruker D") then
        let real_path := joinpath (Path (path file)) "analysis.tdf" in
        w ← get_world;
        if negb (path_exists real_path w) then
          raise (FileNotFoundError ("Corrupted Bruker D folder: " +:+ path file
                                    +:+ " (missing analysis.tdf)"))
        else
          modify (set_datafiles (alter (λ f, set_path f (parent real_path)) idx));;
          scan_filetable (S idx) rest
      else if decide (type file = "Bruker D Zip") then
        zip_tasks ← scan_filetable (S idx) rest;
        mret ((idx, file) :: zip_tasks)
      else scan_filetable (S idx) rest
  end.

(** One turn of [_progress_reader] on a message; the state is
    [done_counter] and [errors]. *)
Definition _progress_reader (total : nat) (st : nat * list (string * string))
    (item : progress_event) : M (nat * list (string * string)) :=
  match item with
  | QProgress msg => log INFO msg;; mret st
  | QDone idx success real_path err =>
      w ← get_world;
      match datafiles w !! idx with
      | None => raise (Exception "list index out of range")
      | Some file =>
          errors ←
            (if success then
               modify (set_datafiles
                 <[idx := set_name (set_path file real_path) (stem (name file))]>);;
               log INFO ("Extracted " +:+ stem (name file) +:+ " -> " +:+ real_path);;
               mret st.2
             else
               log ERROR ("Failed extracting " +:+ path file +:+ ": " +:+ err);;
               mret (st.2 ++ [(path file, err)]));
          emit (ProgressValue (S st.1) total);;
          mret (S st.1, errors)
      end
  end.

Definition drain_queue (total : nat) (st : nat * list (string * string))
    : M (nat * list (string * string)) :=
  w ← get_world;
  modify (set_progress_q (λ _, []));;
  foldM (_progress_reader total) st (progress_q w).

Fixpoint extract_tasks (total : nat) (data_folder : string) (completed : nat)
    (zip_tasks : list (nat * datafile)) (st : nat * list (string * string))
    : M (nat * list (string * string)) :=
  match zip_tasks with
  | [] => mret st
  | (idx, file) :: rest =>
      w ← get_world;
      if bool_decide (cancel_extraction w = Some completed) then
        log DEBUG "Cancellation signal received, terminating extraction tasks";;
        raise (CancelledError "Zip extraction cancelled")
      else
        _extract_zip_worker idx (Path (path file))
          (joinpath (Path data_folder) (stem (name file))) true;;
        st' ← drain_queue total st;
        extract_tasks total data_folder (S completed) rest st'
  end.

Definition prepare_datafiles (data_folder : string) : M unit :=
  w ← get_world;
  zip_tasks ← scan_filetable 0 (datafiles w);
  match zip_tasks with
  | [] => mret tt
  | _ =>
      let total := length zip_tasks in
      log INFO ("Extracting " +:+ pretty total +:+ " Bruker D Zip file(s)");;
      log DEBUG ("Using " +:+ pretty (total `min` 8) +:+ " workers");;
      emit (ProgressVisible true);;
      emit (ProgressValue 0 total);;
      st ← try_finally
        (try_except
           (extract_tasks total data_folder 0 zip_tasks (0, []))
           (λ e, if is_CancelledError e then Some (
              log DEBUG "Extraction cancelled, cleaning up executor";;
              raise e)
            else if is_Exception e then Some (
              log DEBUG ("Process pool extraction failed (" +:+ exn_str e +:+ ")");;
              mret (0, []))
            else None))
        (emit (ProgressVisible false));
      match st.2 with
      | [] => mret tt
      | _ => raise (Exception "Error extracting zip file(s)")
      end
  end.

Definition prepare_datafiles_async (data_folder : string) : M unit :=
  try_except (prepare_datafiles data_folder)
    (λ e, if is_CancelledError e then Some (
       log WARNING "Zip extraction cancelled by user";;
       raise e)
     else None).
End Prepare.

(** ** The DirectDIA workflow: [process_direct] (main.py, lines 176-292) *)

Section Workflow.
Context `{!PythonLib, !Config}.

(** [args[key]] *)
Definition getitem (args : gmap string pyval) (key : string) : M pyval :=
  match args !! key with
  | Some v => mret v
  | None => raise (KeyError key)
  end.

(** [Path(v)] *)
Definition as_Path (v : pyval) : M string :=
  match v with
  | VStr s => mret (Path s)
  | VPath p => mret p
  | _ => raise (TypeError "expected str, bytes or os.PathLike object")
  end.

(** [p.mkdir(parents=True, exist_ok=True)]: nothing to do for a directory
    that exists; a regular file at [p] is an error; otherwise the disk
    decides whether the directory can be created. *)
Definition mkdir (p : string) : M unit :=
  w ← get_world;
  match fs w !! p with
  | Some Dir => mret tt
  | Some (File _) => raise (OSError ("File exists: " +:+ p))
  | None =>
      match mkdir_error (fs w) p with
      | Some msg => raise (OSError msg)
      | None => modify (set_fs <[p := Dir]>)
      end
  end.

(** [shutil.copy(src, dst)] *)
Definition copy (src dst : string) : M unit :=
  w ← get_world;
  match fs w !! src with
  | Some (File content) => modify (set_fs <[dst := File content]>)
  | _ => raise (OSError ("Is a directory: " +:+ src))
  end.

(** The block repeated for each parameter file:
    [if (args[key] != '' and) Path(args[key]).exists(): copy into
    params_folder; args[key] = new_path]. *)
Definition copy_to_params (optional : bool) (key : string) (params_folder : string)
    (args : gmap string pyval) : M (gmap string pyval) :=
  v ← getitem args key;
  if optional && bool_decide (v = VStr "") then mret args
  else
    p ← as_Path v;
    w ← get_world;
    if path_exists p w then
      let new_path := joinpath params_folder (basename p) in
      copy p new_path;;
      mret (<[key := VPath new_path]> args)
    else mret args.

(** The three invocations at the end of [process_direct] (lines 268-292):
    activate, the main run, deactivate. *)
Definition run_spectronaut (args_list : list string) : M (option bool) :=
  log INFO "Activating Spectronaut";;
  result ← run_cmd (SPECTRONAUT ++ ["activate"; SPECTRONAUT_KEY]) None;
  if negb result then
    log ERROR "Cannot activate Spectronaut, see detailed log";; mret None
  else
  log INFO "Spectronaut activated successfully";;
  let success := true in
  log INFO "Launching Spectronaut";;
  result ← run_cmd (SPECTRONAUT ++ args_list) None;
  let success := success && result in
  (if result then log INFO "Spectronaut exited successfully"
   else log ERROR "Processing failed, see detailed log");;
  log INFO "Deactivating Spectronaut";;
  result ← run_cmd (SPECTRONAUT ++ ["deactivate"]) None;
  (if result : bool then log INFO "Spectronaut deactivated"
   else log ERROR "Cannot deactivate Spectronaut, see detailed log");;
  mret (Some success).

(** The body of [process_direct].  [args['datafiles']] is the shared file
    table of the world; the result is [None] for a bare [return]. *)
Definition process_direct_body (args : gmap string pyval) : M (option bool) :=
  w ← get_world;
  if bool_decide (datafiles w = []) then
    emit (Notify "No files to process");; mret None
  else
  output_directory ← getitem args "output_directory";
  if bool_decide (output_directory = VStr "") then
    emit (Notify "Output directory not specified");; mret None
  else
  out ← as_Path output_directory;
  w ← get_world;
  (if negb (path_exists out w) then mkdir out else mret tt);;
  properties_file ← getitem args "properties_file";
  if bool_decide (properties_file = VStr "") then
    emit (Notify "Properties file not specified");; mret None
  else
  fasta_file ← getitem args "fasta_file";
  if bool_decide (fasta_file = VStr "") then
    emit (Notify "FASTA file not specified");; mret None
  else
  experiment_name ← getitem args "experiment_name";
  w ← get_world;
  let args :=
    if bool_decide (experiment_name = VStr "")
    then <["experiment_name" := VStr (stem (default "" (name <$> head (datafiles w))))]> args
    else args in
  let data_folder := joinpath out "data" in
  mkdir data_folder;;
  let params_folder := joinpath out "params" in
  mkdir params_folder;;
  args ← copy_to_params false "properties_file" params_folder args;
  args ← copy_to_params false "fasta_file" params_folder args;
  args ← copy_to_params true "go_file" params_folder args;
  args ← copy_to_params true "report_file" params_folder args;
  args ← copy_to_params true "mod_repository" params_folder args;
  args ← copy_to_params true "enzyme_database" params_folder args;
  emit OutputClear;;
  w ← get_world;
  if negb (validate_filetable (datafiles w)) then
    log ERROR "Invalid file table: Mixed or unsupported file types.";; mret None
  else
  prepared ← try_except
    (emit (Notify "Preparing data files...");;
     prepare_datafiles_async data_folder;;
     mret true)
    (λ e, if is_CancelledError e then Some (
       log WARNING "Processing cancelled by user";; mret false)
     else if is_Exception e then Some (
       log ERROR ("Error preparing data files: " +:+ exn_str e);; mret false)
     else None);
  if negb prepared then mret None else
  written ← try_except
    (experiment_name ← getitem args "experiment_name";
     let condition_file :=
       joinpath params_folder (py_str experiment_name +:+ "_condition.tsv") in
     emit (Notify "Creating condition file...");;
     w ← get_world;
     write_conditon_file (datafiles w) condition_file;;
     log DEBUG ("Wrote condition file to: " +:+ condition_file);;
     mret (Some (<["condition_file" := VPath condition_file]> args)))
    (λ e, if is_Exception e then Some (
       log ERROR ("Error writing condition file: " +:+ exn_str e);; mret None)
     else None);
  match written with
  | None => mret None
  | Some args =>
  assembled ← try_except
    (w ← get_world;
     match get_full_args (<["datafiles" := VFiles (datafiles w)]> args) with
     | Ok args_list =>
         log DEBUG ("Got full arguments: " +:+ pretty (length args_list) +:+ " included");;
         mret (Some args_list)
     | Raise e => raise e
     end)
    (λ e, if is_Exception e then Some (
       log ERROR ("Cannot get arguments: " +:+ exn_str e);; mret None)
     else None);
  match assembled with
  | None => mret None
  | Some args_list => run_spectronaut args_list
  end end.

Definition process_direct (args : gmap string pyval) : M (option bool) :=
  track_subprocess_cleanup (process_direct_body args).
End Workflow.

(** * Vocabulary of the properties

    Names for the notions the properties speak about, and the inputs on
    which they are evaluated. *)

Section Vocabulary.
Context `{!PythonLib, !Config}.
Implicit Types (filetable : list datafile) (w : world) (args : gmap string pyval).

(** The set [types] that [validate_filetable] builds. *)
Definition types_of filetable : gset string := list_to_set (type <$> filetable).

(** One file of each kind. *)
Definition thermo_file : datafile :=
  Datafile "a.raw" "Thermo Raw" "/work/a.raw" "" "" "" false.

Definition bruker_file : datafile :=
  Datafile "b.d" "Bruker D" "/work/b.d" "" "" "" false.

Definition bruker_zip_file : datafile :=
  Datafile "c.d.zip" "Bruker D Zip" "/work/c.d.zip" "" "" "" false.

(** The placeholder for an empty fraction or condition. *)
Definition na (s : string) : string := if decide (s = "") then "NA" else s.

(** A row of the frame before the replicate column is looked at. *)
Definition prepared_row (f : datafile) (n : nat) : frame_row :=
  FrameRow (name f) (type f) (path f) (CStr (replicate f)) (na (condition f))
           (na (fraction f)) (reference f) n (stem (name f)).

(** The frame before the replicate column is looked at. *)
Definition prepared filetable : list frame_row :=
  zip_with prepared_row filetable (seq 1 (length filetable)).

(** Every replicate field is blank; some replicate field is blank. *)
Definition all_unfilled filetable : bool := forallb unfilled (replicate <$> filetable).

Definition some_unfilled filetable : bool := existsb unfilled (replicate <$> filetable).

(** The column that the auto-assignment computes. *)
Definition assigned filetable : list cell :=
  transform (groupby (group_key <$> prepared filetable))
            (λ f, CInt <$> seq 1 (length f)) (c_replicate <$> prepared filetable) CNaN.

(** Decimal digits, and strings made of characters of one kind. *)
Definition is_digit (a : ascii) : bool :=
  let n := nat_of_ascii a in ((48 <=? n) && (n <=? 57))%nat.

Fixpoint all_char (f : ascii → bool) (s : string) : bool :=
  match s with
  | EmptyString => true
  | String a s' => f a && all_char f s'
  end.

(** The warning of [write_conditon_file]. *)
Definition replicate_warning : event :=
  Log WARNING "Only some replicates were assigned, check your input".

(** *** Blank fields, in the words of the specification *)





(** *** The condition table, in the words of the specification *)















(** A process that cannot be started. *)
Definition failing_process : proc_behaviour :=
  ProcBehaviour (Some "No such file or directory") 0 [] 0 StreamEOF (Exits 0) None
                (Exits 0) true.

(** A world with an empty file system in which nothing can be spawned. *)
Definition empty_world (filetable : list datafile) : world :=
  World ∅ filetable ∅ ∅ [] 1 0 [] (λ _, failing_process) (λ _, ZipBehaviour [] None) None.

(** The options in the order they are emitted: the key, the flag that goes
    before the value (none for the protocol), and whether the value follows. *)
Definition option_table : list (string * list string * bool) :=
  [("temp_directory", ["-setTemp"], true);
   ("mod_repository", ["--importModRepository"], true);
   ("enzyme_database", ["--importEnzymeDB"], true);
   ("protocol", [], true);
   ("experiment_name", ["-n"], true);
   ("condition_file", ["-con"], true);
   ("properties_file", ["-s"], true);
   ("report_file", ["-rs"], true);
   ("fasta_file", ["-fasta"], true);
   ("go_file", ["-go"], true);
   ("output_directory", ["-o"], true);
   ("verbose", ["--verbose"], false);
   ("parquet", ["--writeParquet"], false);
   ("error_term", ["--terminateAfterError"], false);
   ("segmented", ["-segmented"], false)].

(** The text that stands for the value of an option that counts as given:
    a string that is not empty is its own text, a checkbox value counts when
    it is true, a path always ([str(Path(''))] is ['.']), a list of files
    when it is not empty, and an object of another class always, whatever
    state it is in. *)
Definition option_text (v : pyval) : option string :=
  match v with
  | VNone => None
  | VBool b => if b then Some "True" else None
  | VStr s => if decide (s = "") then None else Some s
  | VPath p => Some (if decide (p = "") then "." else p)
  | VFiles [] => None
  | VFiles l => Some ("[" +:+ join ", " (repr_datafile <$> l) +:+ "]")
  | VObject shown => Some shown
  end.

(** What one option contributes: nothing when it is absent or does not
    count as given, and otherwise its flag, followed by the text of its value
    if it has one. *)
Definition option_group (args : gmap string pyval) (o : string * list string * bool)
    : option (list string) :=
  let '(key, flags, valued) := o in
  match args !! key with
  | Some v =>
      match option_text v with
      | Some text => Some (flags ++ (if valued then [text] else []))
      | None => None
      end
  | None => None
  end.

(** The file system after the members of an archive were written. *)
Definition extracted (members : list string) (extract_path : string)
    (files : gmap string node) : gmap string node :=
  foldl (λ f m, <[joinpath extract_path m := File ""]> f) files members.

(** The queue after the worker has run: the progress notice and the final
    message, when a queue was given. *)
Definition queue_after (progress_queue : bool) (zip_path : string)
    (final : progress_event) (w : world) : world :=
  if progress_queue
  then set_progress_q (λ q, (q ++ [QProgress ("Extracting " +:+ zip_path)]) ++ [final]) w
  else w.

(** Three archives: one with the marker, one without, one that is broken. *)
Definition zip_archives (zip_path : string) : zip_behaviour :=
  if decide (zip_path = "/work/s1.d.zip")
  then ZipBehaviour ["analysis.tdf"; "analysis.tdf_bin"] None
  else if decide (zip_path = "/work/s2.d.zip")
  then ZipBehaviour ["readme.txt"] None
  else ZipBehaviour [] (Some (BadZipFile "File is not a zip file")).

Definition zip_world : world :=
  World ∅ [] ∅ ∅ [] 1 0 [] (λ _, failing_process) zip_archives None.

(** The calls of [create_subprocess_exec] recorded in a trace. *)
Definition execs (t : list event) : list (nat * list string) :=
  omap (λ e, match e with Exec p a => Some (p, a) | _ => None end) t.

(** Whether the timeout fires before the output of the process ends. *)
Definition timeout_fired (timeout : option Z) (pb : proc_behaviour) : bool :=
  match timeout with
  | Some t => bool_decide (t < pb_stream_time pb)%Z
  | None => false
  end.

(** The events of the cancellation handler of [run_cmd]. *)
Definition killing (proc : nat) (pb : proc_behaviour) : list event :=
  [Log DEBUG ("Killing " +:+ pretty (pb_pid pb)); Kill proc]
  ++ match pb_kill_error pb with
     | Some msg => [Log DEBUG ("Killing failed for " +:+ pretty (pb_pid pb) +:+ ": " +:+ msg)]
     | None => []
     end
  ++ [Wait proc].

(** The result of [run_cmd] and the events it adds, read off the behaviour
    of the process. *)
Definition run_cmd_outcome (args : list string) (timeout : option Z) (proc : nat)
    (pb : proc_behaviour) : result bool * list event :=
  let called :=
    [Log DEBUG ("run_cmd " +:+ repr_list args +:+ " (timeout=" +:+ repr_timeout timeout +:+ ")");
     Exec proc args] in
  let cannot (msg : string) :=
    Log ERROR ("Cannot execute command " +:+ repr_list args +:+ ": " +:+ msg) in
  match pb_spawn_error pb with
  | Some msg => (Ok false, called ++ [cannot msg])
  | None =>
      let streamed :=
        called ++ [Log DEBUG ("Added PID: " +:+ pretty (pb_pid pb))]
        ++ (Log INFO ∘ rstrip <$> pb_output pb) in
      if timeout_fired timeout pb then
        (match pb_wait_killed pb with
         | Exits _ => Ok false
         | WaitCancelled => Raise (CancelledError "")
         end,
         streamed ++ [Log ERROR ("Command timed out after " +:+ repr_timeout timeout
                                 +:+ " seconds: " +:+ repr_list args);
                      Kill proc; Wait proc])
      else
        match pb_stream pb with
        | StreamEOF =>
            match pb_wait pb with
            | Exits rc => (Ok (bool_decide (rc = 0%Z)), streamed ++ [Wait proc])
            | WaitCancelled =>
                (Raise (CancelledError ""), streamed ++ [Wait proc] ++ killing proc pb)
            end
        | StreamCancelled => (Raise (CancelledError ""), streamed ++ killing proc pb)
        | StreamError e => (Ok false, streamed ++ [cannot e])
        end
  end.

(** A process that prints one line and exits with code 0. *)
Definition succeeding_process (pid : Z) : proc_behaviour :=
  ProcBehaviour None pid ["done  "] 10 StreamEOF (Exits 0) None (Exits (-9)) true.

(** A process whose main run fails with exit code 1. *)
Definition exiting_process (pid rc : Z) : proc_behaviour :=
  ProcBehaviour None pid [] 10 StreamEOF (Exits rc) None (Exits (-9)) true.

(** A process during whose output the caller is cancelled. *)
Definition cancelled_process (pid : Z) : proc_behaviour :=
  ProcBehaviour None pid ["working"] 10 StreamCancelled (Exits 0) None (Exits (-9)) true.

(** The environment that answers the n-th spawn with the n-th behaviour. *)
Definition script (l : list proc_behaviour) (n : nat) : proc_behaviour :=
  default failing_process (l !! n).

Definition scripted_world (filetable : list datafile) (files : gmap string node)
    (l : list proc_behaviour) : world :=
  World files filetable ∅ ∅ [] 1 0 [] (script l) zip_archives None.

(** [w'] has the file table of [w] and no call of [create_subprocess_exec]
    that [w] does not have. *)
Definition same (w w' : world) : Prop :=
  datafiles w' = datafiles w ∧ execs (trace w') = execs (trace w)
  ∧ spawned w' = spawned w.

Definition keeps {A} (m : M A) : Prop := ∀ w, same w (m w).2.

(** An event other than a call of [create_subprocess_exec]. *)
Definition silent (e : event) : Prop :=
  match e with Exec _ _ => False | _ => True end.

(** A run that ends without a result other than [None], having started no
    process and left the file table as it was in [w0]. *)
Definition rejected (w0 : world) (o : result (option bool) * world) : Prop :=
  same w0 o.2 ∧ ∀ v, o.1 = Ok v → v = None.





(** A batch of a Thermo file and a Bruker folder, the parameter files on
    disk, and the options of a form in which only the verbose box is ticked,
    each checkbox given by its value. *)
Definition mixed_filetable : list datafile := [thermo_file; bruker_file].

Definition parameter_files : gmap string node :=
  list_to_map [("/in/p.prop", File "props"); ("/in/f.fasta", File ">sp|P1")].

Definition direct_args : gmap string pyval :=
  list_to_map
    [("protocol", VStr "direct"); ("experiment_name", VStr "");
     ("properties_file", VStr "/in/p.prop"); ("fasta_file", VStr "/in/f.fasta");
     ("go_file", VStr ""); ("report_file", VStr ""); ("output_directory", VStr "/out");
     ("temp_directory", VStr ""); ("verbose", VBool true); ("parquet", VBool false);
     ("segmented", VBool false); ("error_term", VBool false);
     ("mod_repository", VStr ""); ("enzyme_database", VStr "")].

(** The options as the DirectDIA page builds them (main.py, lines 852-868):
    the same form, but under ['segmented'] the checkbox widget itself, whose
    [str()] is [widget], whether or not the box is ticked. *)
Definition direct_page_args (widget : string) : gmap string pyval :=
  <["segmented" := VObject widget]> direct_args.





(** The world after one more event. *)
Definition logged (e : event) (w : world) : world := set_trace (λ t, t ++ [e]) w.

(** The argument vectors of the activation and of the deactivation. *)
Definition activate_args : list string := SPECTRONAUT ++ ["activate"; SPECTRONAUT_KEY].

Definition deactivate_args : list string := SPECTRONAUT ++ ["deactivate"].

(** The log line after the main run, and after the deactivation. *)
Definition main_log (result : bool) : event :=
  if result then Log INFO "Spectronaut exited successfully"
  else Log ERROR "Processing failed, see detailed log".

Definition deactivate_log (result : bool) : event :=
  if result then Log INFO "Spectronaut deactivated"
  else Log ERROR "Cannot deactivate Spectronaut, see detailed log".

(** The worlds in which the three commands are run. *)
Definition before_activate (w : world) : world :=
  logged (Log INFO "Activating Spectronaut") w.

Definition before_main (activated : world) : world :=
  logged (Log INFO "Launching Spectronaut")
    (logged (Log INFO "Spectronaut activated successfully") activated).

Definition before_deactivate (result : bool) (ran : world) : world :=
  logged (Log INFO "Deactivating Spectronaut") (logged (main_log result) ran).

(** The workflow on one Thermo file when the user cancels during the main
    run: the activation (process 0) succeeds, the main run (process 1) is
    cancelled. *)
Definition cancelled_run : result (option bool) * world :=
  @process_direct posix default_config direct_args
    (scripted_world [thermo_file] parameter_files
       [succeeding_process 101; cancelled_process 102; succeeding_process 103]).

(** A complete run of the workflow on one Thermo file with the options of
    the DirectDIA page. *)
Definition direct_page_run (widget : string) : result (option bool) * world :=
  @process_direct posix default_config (direct_page_args widget)
    (scripted_world [thermo_file] parameter_files
       [succeeding_process 101; succeeding_process 102; succeeding_process 103]).

(** A world in which the activation succeeds and the main run and the
    deactivation exit with code 1. *)
Definition failing_main_world : world :=
  scripted_world [] ∅ [succeeding_process 101; exiting_process 102 1; exiting_process 103 1].

(** The options with the file table under [datafiles]. *)
Definition full_args : gmap string pyval :=
  <["datafiles" := VFiles [thermo_file]]> direct_args.
End Vocabulary.

(** * Further code of the repository

    The Convert workflow, the file table and the log handler of the UI, the
    configuration and the file picker, with the vocabulary of their
    properties. *)

(** A process that ignores the termination signal and exits when killed. *)
Definition stubborn_process (pid : Z) : proc_behaviour :=
  ProcBehaviour None pid [] 10 StreamEOF (Exits 0) None (Exits (-9)) false.

(** A world in which task 1 has registered two running processes, the first
    of which ignores the termination signal. *)
Definition registered_world : world :=
  World ∅ [] {[1 := [0; 1]]} ∅ [] 1 2 []
        (script [stubborn_process 100; succeeding_process 101]) zip_archives None.

(** ** [run_cmd] on an argument vector that holds a [pathlib.Path]

    [process_convert] passes [SPECTRONAUT + ['convert', '-i', file_path] +
    args_list] with [file_path] a [Path].  The process receives the path as
    its string; the log lines of [run_cmd] show the vector by its [repr],
    which is [shown] here.  With [shown = repr_list args] this is [run_cmd]. *)
Definition run_cmd_shown (shown : string) (args : list string) (timeout : option Z)
    : M bool :=
  log DEBUG ("run_cmd " +:+ shown +:+ " (timeout=" +:+ repr_timeout timeout +:+ ")");;
  try_except
    (process ← create_subprocess_exec args;
     register_subprocess process;;
     w ← get_world;
     let pid := pretty (pb_pid (procs w process)) in
     log DEBUG ("Added PID: " +:+ pid);;
     try_except
       (_stream_stdout process timeout;;
        rc ← process_wait process false;
        mret (bool_decide (rc = 0%Z)))
       (λ e,
          if is_TimeoutError e then Some (
            log ERROR ("Command timed out after " +:+ repr_timeout timeout
                       +:+ " seconds: " +:+ shown);;
            suppress (kill process);;
            process_wait process true;;
            mret false)
          else if is_CancelledError e then Some (
            try_except
              (log DEBUG ("Killing " +:+ pid);; kill process)
              (λ e', if is_Exception e'
                     then Some (log DEBUG ("Killing failed for " +:+ pid +:+ ": "
                                           +:+ exn_str e'))
                     else None);;
            process_wait process true;;
            raise e)
          else None))
    (λ e, if is_Exception e then Some (
       log ERROR ("Cannot execute command " +:+ shown +:+ ": " +:+ exn_str e);;
       mret false)
     else None).

(** The exit code known when [run_cmd] is over, read off the behaviour of
    the process: none when it could not be started or its output could not
    be read. *)
Definition exit_of (end_ : wait_end) : option Z :=
  match end_ with
  | Exits rc => Some rc
  | WaitCancelled => None
  end.

Definition run_cmd_exit (timeout : option Z) (pb : proc_behaviour) : option Z :=
  match pb_spawn_error pb with
  | Some _ => None
  | None =>
      if timeout_fired timeout pb then exit_of (pb_wait_killed pb)
      else match pb_stream pb with
           | StreamEOF =>
               match pb_wait pb with
               | Exits rc => Some rc
               | WaitCancelled => exit_of (pb_wait_killed pb)
               end
           | StreamCancelled => exit_of (pb_wait_killed pb)
           | StreamError _ => None
           end
  end.

(** A process whose output cannot be read to its end: a line longer than
    the limit of the stream reader raises [ValueError]. *)
Definition unreadable_process (pid : Z) : proc_behaviour :=
  ProcBehaviour None pid ["partial"] 10
                (StreamError "Separator is not found, and chunk exceed the limit")
                (Exits 0) None (Exits (-9)) true.

(** The events [_cleanup_processes] adds for one process that is over. *)
Definition cleanup_of_reaped (proc : nat) : list event :=
  [Log WARNING "Cleaning up 1 subprocess(es)"; Wait proc].

(** ** The Convert workflow: [process_convert] (main.py, lines 294-371) *)

Section Convert.
Context `{!PythonLib, !Config}.

(** [p.mkdir(parents=True)]: an existing path is an error. *)
Definition mkdir_new (p : string) : M unit :=
  w ← get_world;
  match fs w !! p with
  | Some _ => raise (OSError ("File exists: " +:+ p))
  | None =>
      match mkdir_error (fs w) p with
      | Some msg => raise (OSError msg)
      | None => modify (set_fs <[p := Dir]>)
      end
  end.

(** [args.pop(key)] *)
Definition pop (args : gmap string pyval) (key : string) : M (gmap string pyval) :=
  match args !! key with
  | Some _ => mret (delete key args)
  | None => raise (KeyError key)
  end.

(** [repr] of a [pathlib.Path]. *)
Definition repr_path (p : string) : string := "PosixPath(" +:+ repr_str p +:+ ")".

(** [SPECTRONAUT + ['convert', '-i', file_path] + args_list], as the
    process receives it and as the log shows it. *)
Definition convert_args (file_path : string) (args_list : list string) : list string :=
  SPECTRONAUT ++ ["convert"; "-i"; file_path] ++ args_list.

Definition convert_shown (file_path : string) (args_list : list string) : string :=
  "[" +:+ join ", " ((repr_str <$> SPECTRONAUT ++ ["convert"; "-i"])
                     ++ [repr_path file_path] ++ (repr_str <$> args_list)) +:+ "]".

(** [for i in range(total)]: the file table is read at each turn. *)
Fixpoint convert_loop (total : nat) (range : list nat) (args_list : list string)
    (success : bool) : M bool :=
  match range with
  | [] => mret success
  | i :: rest =>
      w ← get_world;
      match datafiles w !! i with
      | None => raise (Exception "list index out of range")
      | Some file =>
          let file_path := Path (path file) in
          result ← run_cmd_shown (convert_shown file_path args_list)
                                 (convert_args file_path args_list) None;
          let success := success && result in
          (if result : bool
           then log INFO ("[" +:+ pretty (i + 1) +:+ "|" +:+ pretty total
                          +:+ "] Converted successfully")
           else log ERROR "Processing failed, see detailed log");;
          emit (ProgressValue (i + 1) total);;
          convert_loop total rest args_list success
      end
  end.

(** The invocations at the end of [process_convert] (lines 339-371):
    activate, one conversion per file, deactivate. *)
Definition run_conversion (args_list : list string) : M (option bool) :=
  log INFO "Activating Spectronaut";;
  result ← run_cmd (SPECTRONAUT ++ ["activate"; SPECTRONAUT_KEY]) None;
  if negb result then
    log ERROR "Cannot activate Spectronaut, see detailed log";; mret None
  else
  log INFO "Spectronaut activated successfully";;
  w ← get_world;
  let total := length (datafiles w) in
  log INFO ("Converting " +:+ pretty total +:+ " files");;
  emit (ProgressVisible true);;
  emit (ProgressValue 0 total);;
  success ← convert_loop total (seq 0 total) args_list true;
  emit (ProgressVisible false);;
  log INFO "Deactivating Spectronaut";;
  result ← run_cmd (SPECTRONAUT ++ ["deactivate"]) None;
  (if result : bool then log INFO "Spectronaut deactivated"
   else log ERROR "Cannot deactivate Spectronaut, see detailed log");;
  mret (Some success).

(** The body of [process_convert]; the file table is not validated. *)
Definition process_convert_body (args : gmap string pyval) : M (option bool) :=
  w ← get_world;
  if bool_decide (datafiles w = []) then
    emit (Notify "No files to process");; mret None
  else
  output_directory ← getitem args "output_directory";
  if bool_decide (output_directory = VStr "") then
    emit (Notify "Output directory not specified");; mret None
  else
  out ← as_Path output_directory;
  w ← get_world;
  (if negb (path_exists out w) then mkdir_new out else mret tt);;
  let data_folder := joinpath out "data" in
  mkdir data_folder;;
  let params_folder := joinpath out "params" in
  mkdir params_folder;;
  args ← copy_to_params true "properties_file" params_folder args;
  emit OutputClear;;
  prepared ← try_except
    (emit (Notify "Preparing data files...");;
     prepare_datafiles_async data_folder;;
     mret true)
    (λ e, if is_CancelledError e then Some (
       log WARNING "Processing cancelled by user";; mret false)
     else if is_Exception e then Some (
       log ERROR ("Error preparing data files: " +:+ exn_str e);; mret false)
     else None);
  if negb prepared then mret None else
  args ← pop args "protocol";
  assembled ← try_except
    (let args_list := get_args args in
     log DEBUG ("Got base arguments: " +:+ pretty (length args_list) +:+ " included");;
     mret (Some args_list))
    (λ e, if is_Exception e then Some (
       log ERROR ("Cannot get arguments: " +:+ exn_str e);; mret None)
     else None);
  match assembled with
  | None => mret None
  | Some args_list => run_conversion args_list
  end.

Definition process_convert (args : gmap string pyval) : M (option bool) :=
  track_subprocess_cleanup (process_convert_body args).
End Convert.

(** What [run_cmd] returns for a process that behaves as [pb], when no
    timeout is given: nothing when the caller is cancelled. *)
Definition run_result (pb : proc_behaviour) : option bool :=
  match (run_cmd_outcome [] None 0 pb).1 with
  | Ok b => Some b
  | Raise _ => None
  end.

(** The conversions of the rows of a file table, the first of which is the
    process [first]. *)
Definition conversions `{!PythonLib, !Config} (first : nat) (filetable : list datafile)
    (args_list : list string) : list (nat * list string) :=
  imap (λ k file, (first + k, convert_args (Path (path file)) args_list)) filetable.

(** The worlds in which the conversions and the deactivation are run. *)
Definition before_conversion (total : nat) (activated : world) : world :=
  logged (ProgressValue 0 total)
    (logged (ProgressVisible true)
       (logged (Log INFO ("Converting " +:+ pretty total +:+ " files"))
          (logged (Log INFO "Spectronaut activated successfully") activated))).

Definition after_conversion (converted : world) : world :=
  logged (Log INFO "Deactivating Spectronaut") (logged (ProgressVisible false) converted).

(** A batch of two files whose activation succeeds, whose first conversion
    fails with exit code 1 and whose second conversion succeeds. *)
Definition convert_world : world :=
  scripted_world [thermo_file; bruker_file] ∅
    [succeeding_process 1; exiting_process 2 1; succeeding_process 3;
     succeeding_process 4].

(** A batch of three files when the caller is cancelled during the second
    conversion. *)
Definition cancelled_convert_world : world :=
  scripted_world [thermo_file; bruker_file; bruker_zip_file] ∅
    [succeeding_process 1; succeeding_process 2; cancelled_process 3].

(** A batch whose activation exits with code 1. *)
Definition unlicensed_world : world :=
  scripted_world [thermo_file] ∅ [exiting_process 1 1].

(** ** The file table of the UI (main.py) *)

Definition with_replicate (f : datafile) (r : string) : datafile :=
  Datafile (name f) (type f) (path f) r (condition f) (fraction f) (reference f).

(** The key [(d['condition'], d['fraction'])] of a row. *)
Definition replicate_key (d : datafile) : string * string := (condition d, fraction d).

(** [{(d['condition'], d['fraction']): 1 for d in datafiles}] *)
Definition replicate_groups (filetable : list datafile) : gmap (string * string) nat :=
  foldl (λ groups d, <[replicate_key d := 1]> groups) ∅ filetable.

(** The loop of [_assign_replicates] (main.py, lines 685-689): the rows are
    updated in place, the counter of the group is incremented. *)
Fixpoint assign_rows (groups : gmap (string * string) nat) (rows : list datafile)
    : list datafile :=
  match rows with
  | [] => []
  | d :: rest =>
      match groups !! replicate_key d with
      | Some entry =>
          with_replicate d (pretty entry)
          :: assign_rows (<[replicate_key d := entry + 1]> groups) rest
      | None => d :: assign_rows groups rest
      end
  end.

(** [_assign_replicates] (main.py, lines 682-696); the refresh of the table
    widget, which shows the same list, is not an event of the model. *)
Definition _assign_replicates : M unit :=
  w ← get_world;
  let groups := replicate_groups (datafiles w) in
  modify (set_datafiles (assign_rows groups));;
  emit (Notify ("Assigned replicates to " +:+ pretty (size groups) +:+ " groups")).

(** The file table after [_assign_replicates]. *)
Definition numbered (filetable : list datafile) : list datafile :=
  assign_rows (replicate_groups filetable) filetable.

(** The rows of a group of the UI. *)
Definition group_rows (k : string * string) (filetable : list datafile) : list datafile :=
  filter (λ d, replicate_key d = k) filetable.

(** ** The log handler of the UI: [LogElementHandler.emit] (main.py, lines 21-52) *)

(** [level_format.get(record.levelno, '')] for the levels the program logs
    at. *)
Definition level_format (lvl : level) : string :=
  match lvl with
  | DEBUG => "text-grey"
  | INFO => "text-green"
  | WARNING => "text-orange"
  | ERROR => "text-red"
  end.

(** [range(0, stop, step)] *)
Definition range_step (stop step : nat) : list nat :=
  (λ k, k * step) <$> seq 0 ((stop + step - 1) / step).

(** [[msg[i:i+width] for i in range(0, len(msg), width)]] *)
Definition splits (width : nat) (msg : string) : list string :=
  (λ i, substring i width msg) <$> range_step (String.length msg) width.

(** The text and the classes pushed to the log element.  The script that
    scrolls the log and the error handler of [logging] are not modelled. *)
Definition LogElementHandler_emit (lvl : level) (msg : string) : string * string :=
  (join LF (splits 160 msg), level_format lvl).

(** The string without its first [n] characters. *)
Fixpoint skip (n : nat) (s : string) : string :=
  match n, s with
  | 0, _ => s
  | S n', String _ s' => skip n' s'
  | S _, EmptyString => EmptyString
  end.

(** ** Adding files to the table: [check_type], [add_to_datafiles]
    (main.py, lines 65-102) *)

(** [Path(p).suffix] and [Path(p).suffixes] *)
Class PathSuffix := {
  path_suffix : string → string;
  path_suffixes : string → list string
}.

(** The suffix is the part from the last dot on, when that dot is neither
    the first nor the last character of the name. *)
Definition posix_suffix (p : string) : string :=
  let nm := posix_name p in
  match reverse (split "." nm) with
  | ext :: (_ :: _) as rest =>
      if decide (ext = "" ∨ join "." (reverse rest) = "") then "" else "." +:+ ext
  | _ => ""
  end.

Fixpoint lstrip_dots (s : string) : string :=
  match s with
  | String "." s' => lstrip_dots s'
  | _ => s
  end.

Definition posix_suffixes (p : string) : list string :=
  let nm := posix_name p in
  match reverse (split "." nm) with
  | "" :: _ :: _ => []
  | _ => (λ s, "." +:+ s) <$> tail (split "." (lstrip_dots nm))
  end.

Definition posix_suffixes_instance : PathSuffix := {|
  path_suffix := posix_suffix;
  path_suffixes := posix_suffixes
|}.

(** [sorted(l, key=key)]: a stable insertion sort by the order of strings. *)
Fixpoint insert_by (key : string → string) (x : string) (l : list string) : list string :=
  match l with
  | [] => [x]
  | y :: rest =>
      if String.leb (key x) (key y) then x :: y :: rest
      else y :: insert_by key x rest
  end.

Definition sort_by (key : string → string) (l : list string) : list string :=
  foldr (insert_by key) [] l.

Section Table.
Context `{!PythonLib, !PathSuffix}.

Definition is_dir (p : string) (w : world) : bool :=
  match fs w !! p with Some Dir => true | _ => false end.

Definition is_file (p : string) (w : world) : bool :=
  match fs w !! p with Some (File _) => true | _ => false end.

(** [check_type(Path(p))]; [l[-2:]] is the last two elements. *)
Definition check_type (p : string) (w : world) : string :=
  if is_dir (Path p) w && bool_decide (lower (path_suffix p) = ".d") then "Bruker D"
  else if is_dir (Path p) w then "Folder"
  else if is_file (Path p) w && bool_decide (lower (path_suffix p) = ".raw")
  then "Thermo Raw"
  else if is_file (Path p) w
          && bool_decide (lower (join "" (drop (length (path_suffixes p) - 2)
                                               (path_suffixes p))) = ".d.zip")
  then "Bruker D Zip"
  else "File".

(** [Path(r).name or r] *)
Definition sort_key (r : string) : string :=
  if decide (basename r = "") then r else basename r.

(** The row appended for the path [p]. *)
Definition new_row (p : string) (w : world) : datafile :=
  Datafile (if decide (basename p = "") then Path p else basename p)
           (check_type p w) (Path p) "" "" "" false.

(** The loop over the sorted paths; the result is [added]. *)
Fixpoint add_rows (paths : list string) (added : nat) : M nat :=
  match paths with
  | [] => mret added
  | p :: rest =>
      w ← get_world;
      if existsb (λ d, bool_decide (path d = p)) (datafiles w)
      then add_rows rest added
      else
        modify (set_datafiles (λ l, l ++ [new_row p w]));;
        add_rows rest (added + 1)
  end.

(** [add_to_datafiles]; the refresh of the table widget is not an event of
    the model. *)
Definition add_to_datafiles (paths : list string) : M unit :=
  let paths := if bool_decide (0 < length paths)%nat then sort_by sort_key paths
               else paths in
  added ← add_rows paths 0;
  emit (Notify ("Added " +:+ pretty added +:+ " items")).
End Table.

(** The types [validate_filetable] knows. *)
Definition supported_types : list string := ["Thermo Raw"; "Bruker D"; "Bruker D Zip"].

(** A disk with a Thermo file, a Bruker folder, a zipped Bruker folder, a
    plain folder and a text file. *)
Definition sample_disk : gmap string node :=
  list_to_map [("/work/a.raw", File "raw"); ("/work/b.d", Dir); ("/work", Dir);
               ("/work/notes.txt", File "text"); ("/work/c.D.ZIP", File "zip")].

Definition sample_world : world :=
  World sample_disk [thermo_file] ∅ ∅ [] 1 0 [] (λ _, failing_process)
        (λ _, ZipBehaviour [] None) None.

(** ** The configuration: [load_config] (config.py, lines 8-49) *)

(** The values of a configuration: JSON values, as far as the program
    looks at them. *)
Inductive jval :=
  | JNull
  | JBool (b : bool)
  | JNum (n : Z)
  | JStr (s : string)
  | JStrings (l : list string)
  | JOther (text : string).

(** What reading the configuration file gives: there is no file; [open] or
    [read] raises [OSError]; [json.load] raises [JSONDecodeError]; another
    exception is raised (the text is no valid encoding, or the document is
    no mapping and [dict.update] rejects it); or the document is the
    mapping [user_config]. *)
Inductive config_file :=
  | NoFile
  | ReadError (msg : string)
  | DecodeError (msg : string)
  | OtherError (e : exn)
  | Parsed (user_config : gmap string jval).

Definition DEFAULT_CONFIG : gmap string jval :=
  list_to_map
    [("spectronaut_command", JStrings ["dotnet"; "/usr/lib/spectronaut/SpectronautCMD.dll"]);
     ("default_dir", JStr "/work");
     ("spectronaut_key", JNull);
     ("port", JNum 8080)].

Section LoadConfig.
Context `{!PythonLib}.
(** [str(Path.home())], the files of the disk and [SPECTRONAUTKEY] of the
    environment. *)
Variables (home : string) (disk : string → config_file) (env_key : option string).

Definition load_config (config_path : option string) : M (gmap string jval) :=
  let config := DEFAULT_CONFIG in
  let config_path :=
    match config_path with
    | None => joinpath (joinpath home ".spectronaut_webui") "config.json"
    | Some p => Path p
    end in
  let unusable (msg : string) :=
    log WARNING ("Warning: Could not load config from " +:+ config_path +:+ ": " +:+ msg);;
    log INFO "Using default configuration.";;
    mret config in
  config ←
    match disk config_path with
    | NoFile => mret config
    | ReadError msg => unusable msg
    | DecodeError msg => unusable msg
    | OtherError e => raise e
    | Parsed user_config => mret (user_config ∪ config)
    end;
  mret (match env_key with
        | Some key => <["spectronaut_key" := JStr key]> config
        | None => config
        end).
End LoadConfig.

(** ** The file picker: [LocalPicker] (widgets.py) *)

(** What the picker shows to its user and its caller. *)
Inductive picker_event :=
  | Notification (msg : string)
  | OnSelect (paths : gset string)
  | Close.

(** The state of the selection: the paths are the [str] of the items. *)
Record picker := Picker {
  multiple : bool;
  shift_is_held : bool;
  selected : gset string;
  items : list string;
  last_clicked_index : option nat;
  on_select : bool;
  shown : list picker_event
}.

Definition set_selected (f : gset string → gset string) (s : picker) : picker :=
  Picker (multiple s) (shift_is_held s) (f (selected s)) (items s)
         (last_clicked_index s) (on_select s) (shown s).

Definition set_last_clicked_index (i : option nat) (s : picker) : picker :=
  Picker (multiple s) (shift_is_held s) (selected s) (items s) i (on_select s) (shown s).

Definition display (e : picker_event) (s : picker) : picker :=
  Picker (multiple s) (shift_is_held s) (selected s) (items s)
         (last_clicked_index s) (on_select s) (shown s ++ [e]).

(** [self.selected.add(p)] or [self.selected.discard(p)] *)
Definition toggle (checked : bool) (p : string) (sel : gset string) : gset string :=
  if checked then {[p]} ∪ sel else sel ∖ {[p]}.

(** [for i in range(start, end + 1)]: an index past the items raises
    [IndexError], after the items before it were toggled. *)
Fixpoint toggle_range (checked : bool) (range : list nat) (s : picker)
    : option exn * picker :=
  match range with
  | [] => (None, s)
  | i :: rest =>
      match items s !! i with
      | None => (Some (Exception "list index out of range"), s)
      | Some p => toggle_range checked rest (set_selected (toggle checked p) s)
      end
  end.

(** [_checkbox_toggled] (widgets.py, lines 136-153); the redraw of the list
    is not part of the state. *)
Definition _checkbox_toggled (index : nat) (checked : bool) (s : picker)
    : option exn * picker :=
  let single :=
    match items s !! index with
    | None => (Some (Exception "list index out of range"), s)
    | Some p_str => (None, set_selected (toggle checked p_str) s)
    end in
  let toggled :=
    match last_clicked_index s with
    | Some last =>
        if multiple s && shift_is_held s then
          let start := last `min` index in
          let end_ := last `max` index in
          toggle_range checked (seq start (end_ + 1 - start)) s
        else single
    | None => single
    end in
  match toggled with
  | (None, s') => (None, set_last_clicked_index (Some index) s')
  | (Some e, s') => (Some e, s')
  end.

(** [_select_all] and [_clear_selection] (lines 127-134) *)
Definition _select_all (s : picker) : picker :=
  foldl (λ s p, set_selected (λ sel, {[p]} ∪ sel) s) s (items s).

Definition _clear_selection (s : picker) : picker := set_selected (λ _, ∅) s.

(** [_handle_confirm] (lines 262-269); [list(self.selected)] is passed to
    the caller in no particular order, so as a set. *)
Definition _handle_confirm (s : picker) : picker :=
  if negb (multiple s) && bool_decide (1 < size (selected s))%nat then
    display (Notification "Please select only one item") s
  else
    let s := if on_select s then display (OnSelect (selected s)) s else s in
    display Close s.

(** The effect of a range of toggles on the selection. *)
Definition toggle_all (checked : bool) (ps : gset string) (sel : gset string)
    : gset string :=
  if checked then sel ∪ ps else sel ∖ ps.

(** The items from [lo] to [hi], both included. *)
Definition items_between (lo hi : nat) (s : picker) : gset string :=
  list_to_set (take (hi + 1 - lo) (drop lo (items s))).

(** The file the configuration is read from. *)
Definition config_location `{!PythonLib} (home : string) (config_path : option string)
    : string :=
  match config_path with
  | None => joinpath (joinpath home ".spectronaut_webui") "config.json"
  | Some p => Path p
  end.

(** The lines logged when the file cannot be used. *)
Definition unusable_config (location msg : string) : list event :=
  [Log WARNING ("Warning: Could not load config from " +:+ location +:+ ": " +:+ msg);
   Log INFO "Using default configuration."].

(** A disk whose configuration file sets the port and the key, and one
    whose file is no JSON. *)
Definition configured_disk (p : string) : config_file :=
  Parsed (list_to_map [("port", JNum 9000); ("spectronaut_key", JStr "from-file")]).

Definition malformed_disk (p : string) : config_file :=
  DecodeError "Expecting value: line 1 column 1 (char 0)".

(** A picker in multiple mode with five items, the second of which was
    clicked last, while the shift key is held. *)
Definition shift_picker : picker :=
  Picker true true ∅ ["/w/a"; "/w/b"; "/w/c"; "/w/d"; "/w/e"] (Some 1) true [].

(** The picker after a filter left two items of the five. *)
Definition filtered_picker : picker :=
  Picker true true ∅ ["/w/a"; "/w/b"] (Some 4) true [].

(** A picker in single mode. *)
Definition single_picker : picker :=
  Picker false false ∅ ["/w/a"; "/w/b"; "/w/c"] None true [].

(** ** Vocabulary: preparing the data files *)

Section PrepareVocabulary.
Context `{!PythonLib}.

(** The marker file of a Bruker folder. *)
Definition marker (f : datafile) : string := joinpath (Path (path f)) "analysis.tdf".

(** The row of a Bruker folder after the first loop of [prepare_datafiles]. *)
Definition normalise_folder (f : datafile) : datafile :=
  if decide (type f = "Bruker D") then set_path f (parent (marker f)) else f.

(** The table after the first loop went over [files], the rows from [idx]
    on. *)
Fixpoint normalised_rows (idx : nat) (files : list datafile) (table : list datafile)
    : list datafile :=
  match files with
  | [] => table
  | f :: rest =>
      normalised_rows (S idx) rest
        (if decide (type f = "Bruker D")
         then alter (λ row, set_path row (parent (marker f))) idx table else table)
  end.

(** A folder row is usable when its marker file exists. *)
Definition usable_folder (w : world) (f : datafile) : Prop :=
  type f = "Bruker D" → path_exists (marker f) w = true.
End PrepareVocabulary.

(** A disk with the marker of the Bruker folder, and a batch with a second
    Bruker folder that has none. *)
Definition folder_world : world :=
  World {["/work/b.d/analysis.tdf" := File "tdf"]} [thermo_file; bruker_file]
        ∅ ∅ [] 1 0 [] (λ _, failing_process) zip_archives None.

Definition corrupted_folder : datafile :=
  Datafile "x.d" "Bruker D" "/work/x.d" "" "" "" false.

Definition corrupted_world : world :=
  World {["/work/b.d/analysis.tdf" := File "tdf"]}
        [bruker_zip_file; bruker_file; corrupted_folder; thermo_file]
        ∅ ∅ [] 1 0 [] (λ _, failing_process) zip_archives None.

(** ** Vocabulary: the processes a workflow starts *)

(** [w'] has no call of [create_subprocess_exec] that [w] does not have. *)
Definition quiet (w w' : world) : Prop :=
  execs (trace w') = execs (trace w) ∧ spawned w' = spawned w.

(** Every run of [m] ends in a world related to the one it started in. *)
Definition preserves (R : world → world → Prop) {A} (m : M A) : Prop :=
  ∀ w, R w (m w).2.

(** A run that started no process, or that ran [tail] after it had started
    none. *)
Definition hands_over (w0 : world) (tail : list string → M (option bool))
    (o : result (option bool) * world) : Prop :=
  quiet w0 o.2 ∨ ∃ args_list w1, quiet w0 w1 ∧ o = tail args_list w1.

(** The calls of [create_subprocess_exec] of a complete run of each
    workflow, the first of which is the process [first]. *)
Definition direct_calls `{!Config} (first : nat) (args_list : list string)
    : list (nat * list string) :=
  [(first, activate_args); (S first, SPECTRONAUT ++ args_list);
   (S (S first), deactivate_args)].

Definition convert_calls `{!PythonLib, !Config} (first : nat) (filetable : list datafile)
    (args_list : list string) : list (nat * list string) :=
  [(first, activate_args)] ++ conversions (S first) filetable args_list
  ++ [(S first + length filetable, deactivate_args)].

(** The options of the Convert page, and a batch of two Thermo files whose
    first conversion fails with exit code 1. *)
Definition convert_page_args : gmap string pyval :=
  list_to_map
    [("protocol", VStr "convert"); ("properties_file", VStr "");
     ("output_directory", VStr "/out"); ("temp_directory", VStr "");
     ("verbose", VBool true); ("segmented", VBool false); ("error_term", VBool false)].

Definition thermo_batch : list datafile :=
  [thermo_file; Datafile "z.raw" "Thermo Raw" "/work/z.raw" "" "" "" false].

Definition thermo_world : world :=
  scripted_world thermo_batch ∅
    [succeeding_process 1; exiting_process 2 1; succeeding_process 3;
     succeeding_process 4].

(** A batch that mixes a Thermo file and a Bruker folder, on a disk with
    the marker of the folder. *)
Definition mixed_world : world :=
  World {["/work/b.d/analysis.tdf" := File "tdf"]} mixed_filetable ∅ ∅ [] 1 0 []
        (script [succeeding_process 1; succeeding_process 2; succeeding_process 3;
                 succeeding_process 4]) zip_archives None.

(** * Properties *)

(** ** The definitions on small inputs *)
Example posix_stem_ex1 : posix_stem "/work/sample1.d.zip" = "sample1.d".
Proof. vm_compute. reflexivity. Qed.
Example posix_stem_ex3 : posix_stem "a.raw" = "a".
Proof. vm_compute. reflexivity. Qed.
Example posix_Path_ex : posix_Path "" = "." ∧ posix_Path "a//b/" = "a/b".
Proof. vm_compute. split; reflexivity. Qed.

Example strip_lower_ex : lower (strip "  NaN  ") = "nan" ∧ strip " a b  " = "a b".
Proof. split; reflexivity. Qed.

Example posix_stem_ex2 : posix_stem ".hidden" = ".hidden".
Proof. vm_compute. reflexivity. Qed.

Example posix_parent_ex : posix_parent (posix_joinpath "/out/data/s1" "analysis.tdf") = "/out/data/s1".
Proof. vm_compute. reflexivity. Qed.

Example validate_mix :
  validate_filetable [Datafile "a.raw" "Thermo Raw" "/w/a.raw" "" "" "" false;
                      Datafile "b.d" "Bruker D" "/w/b.d" "" "" "" false] = false.
Proof. vm_compute. reflexivity. Qed.

(** ** File-table validation *)

Section ValidateFacts.
Implicit Types (filetable : list datafile) (t : string).

Lemma elem_of_types_of filetable t :
  t ∈ types_of filetable ↔ ∃ f, f ∈ filetable ∧ type f = t.
Proof.
  unfold types_of. rewrite elem_of_list_to_set, list_elem_of_fmap.
  split; intros (f & ? & ?); exists f; auto.
Qed.

Lemma validate_filetable_unfold filetable :
  validate_filetable filetable =
    let types := types_of filetable in
    bool_decide (size types = 1) && bool_decide ("Thermo Raw" ∈ types)
    || bool_decide (size types = 1)
       && (bool_decide ("Bruker D" ∈ types) || bool_decide ("Bruker D Zip" ∈ types))
    || bool_decide (size types = 2)
       && bool_decide ("Bruker D" ∈ types) && bool_decide ("Bruker D Zip" ∈ types).
Proof.
  unfold validate_filetable. fold (types_of filetable). cbv zeta.
  repeat case_bool_decide; reflexivity.
Qed.

Lemma size_one_same (X : gset string) a b :
  size X = 1 → a ∈ X → b ∈ X → a = b.
Proof.
  intros [x Hx]%size_1_elem_of Ha Hb.
  rewrite Hx in Ha, Hb. set_solver.
Qed.

Lemma size_three (X : gset string) a b c :
  a ≠ b → a ≠ c → b ≠ c → a ∈ X → b ∈ X → c ∈ X → (3 ≤ size X)%nat.
Proof.
  intros Hab Hac Hbc Ha Hb Hc.
  assert (Hsub : ({[a]} ∪ ({[b]} ∪ {[c]}) : gset string) ⊆ X).
  { intros x. rewrite !elem_of_union, !elem_of_singleton. intros [->|[->| ->]]; done. }
  apply subseteq_size in Hsub.
  rewrite size_union in Hsub.
  2:{ intros x. rewrite elem_of_union, !elem_of_singleton. intros -> [?|?]; done. }
  rewrite size_union in Hsub.
  2:{ intros x. rewrite !elem_of_singleton. intros -> ?; done. }
  rewrite !size_singleton in Hsub. lia.
Qed.

Lemma validate_rejects_mix filetable :
  "Thermo Raw" ∈ types_of filetable →
  "Bruker D" ∈ types_of filetable ∨ "Bruker D Zip" ∈ types_of filetable →
  validate_filetable filetable = false.
Proof.
  intros Ht Hb. rewrite validate_filetable_unfold. cbv zeta.
  repeat case_bool_decide; simpl; try reflexivity; exfalso;
    try (destruct Hb as [Hb|Hb];
         match goal with H : size _ = 1 |- _ =>
           pose proof (size_one_same _ _ _ H Ht Hb); discriminate end);
    try match goal with
        | H : size _ = 1, H' : "Bruker D" ∈ _ |- _ =>
            pose proof (size_one_same _ _ _ H Ht H'); discriminate
        | H : size _ = 1, H' : "Bruker D Zip" ∈ _ |- _ =>
            pose proof (size_one_same _ _ _ H Ht H'); discriminate
        | H : size _ = 2, H1 : "Bruker D" ∈ _, H2 : "Bruker D Zip" ∈ _ |- _ =>
            pose proof (size_three _ "Thermo Raw" "Bruker D" "Bruker D Zip"
                          ltac:(discriminate) ltac:(discriminate) ltac:(discriminate)
                          Ht H1 H2); lia
        end.
Qed.

Lemma types_of_all filetable t :
  filetable ≠ [] → Forall (λ f, type f = t) filetable → types_of filetable = {[t]}.
Proof.
  intros Hne Hall. apply set_eq. intros x.
  rewrite elem_of_types_of, elem_of_singleton. rewrite Forall_forall in Hall.
  split.
  - intros (f & Hf & <-). auto.
  - intros ->. destruct filetable as [|f rest]; [done|].
    exists f. split; [left|]. apply Hall. left.
Qed.

Lemma validate_accepts_bruker filetable :
  filetable ≠ [] →
  Forall (λ f, type f = "Bruker D" ∨ type f = "Bruker D Zip") filetable →
  validate_filetable filetable = true.
Proof.
  intros Hne Hall. rewrite Forall_forall in Hall.
  assert (Hsub : ∀ x, x ∈ types_of filetable → x = "Bruker D" ∨ x = "Bruker D Zip").
  { intros x (f & Hf & <-)%elem_of_types_of. auto. }
  assert (Hin : ∃ x, x ∈ types_of filetable).
  { destruct filetable as [|f rest]; [done|]. exists (type f).
    apply elem_of_types_of. exists f. split; [left|done]. }
  rewrite validate_filetable_unfold. cbv zeta.
  destruct (decide ("Bruker D" ∈ types_of filetable)) as [Hd|Hd];
    destruct (decide ("Bruker D Zip" ∈ types_of filetable)) as [Hz|Hz].
  - assert (Heq : types_of filetable = {["Bruker D"]} ∪ {["Bruker D Zip"]}).
    { apply set_eq. intros x. rewrite elem_of_union, !elem_of_singleton.
      split; [auto|]. intros [->| ->]; done. }
    rewrite Heq. vm_compute. reflexivity.
  - assert (Heq : types_of filetable = {["Bruker D"]}).
    { apply set_eq. intros x. rewrite elem_of_singleton.
      split; [|by intros ->]. intros Hx. destruct (Hsub x Hx) as [->| ->]; done. }
    rewrite Heq. vm_compute. reflexivity.
  - assert (Heq : types_of filetable = {["Bruker D Zip"]}).
    { apply set_eq. intros x. rewrite elem_of_singleton.
      split; [|by intros ->]. intros Hx. destruct (Hsub x Hx) as [->| ->]; done. }
    rewrite Heq. vm_compute. reflexivity.
  - destruct Hin as (x & Hx). destruct (Hsub x Hx) as [->| ->]; done.
Qed.
End ValidateFacts.

(** C2: a file table that holds a Thermo file and a Bruker folder or archive
    is rejected; a non-empty file table that is all Thermo, all Bruker
    folders, all Bruker archives, or Bruker folders and archives mixed, is
    accepted. *)
Theorem validate_filetable_families (filetable : list datafile) :
  ((∃ f, f ∈ filetable ∧ type f = "Thermo Raw") →
   (∃ f, f ∈ filetable ∧ (type f = "Bruker D" ∨ type f = "Bruker D Zip")) →
   validate_filetable filetable = false)
  ∧ (filetable ≠ [] →
     Forall (λ f, type f = "Thermo Raw") filetable
     ∨ Forall (λ f, type f = "Bruker D") filetable
     ∨ Forall (λ f, type f = "Bruker D Zip") filetable
     ∨ Forall (λ f, type f = "Bruker D" ∨ type f = "Bruker D Zip") filetable →
     validate_filetable filetable = true).
Proof.
  split.
  - intros Ht (f & Hf & Hb). apply validate_rejects_mix.
    + by apply elem_of_types_of.
    + destruct Hb; [left|right]; apply elem_of_types_of; eauto.
  - intros Hne [H|[H|[H|H]]].
    + rewrite validate_filetable_unfold, (types_of_all _ _ Hne H). reflexivity.
    + apply validate_accepts_bruker; [done|].
      eapply Forall_impl; [exact H|]. simpl. auto.
    + apply validate_accepts_bruker; [done|].
      eapply Forall_impl; [exact H|]. simpl. auto.
    + by apply validate_accepts_bruker.
Qed.

Lemma validate_filetable_families_witness :
  validate_filetable [thermo_file; bruker_zip_file] = false
  ∧ validate_filetable [bruker_file; bruker_zip_file; bruker_file] = true.
Proof.
  split.
  - apply (proj1 (validate_filetable_families [thermo_file; bruker_zip_file])).
    + exists thermo_file. split; [apply list_elem_of_here|reflexivity].
    + exists bruker_zip_file.
      split; [apply list_elem_of_further, list_elem_of_here|right; reflexivity].
  - apply (proj2 (validate_filetable_families [bruker_file; bruker_zip_file; bruker_file])).
    + discriminate.
    + right. right. right.
      repeat first [ apply Forall_nil_2
                   | apply Forall_cons_2; [first [left; reflexivity | right; reflexivity]|] ].
Defined.

(** C9: the empty file table is rejected. *)
Theorem validate_filetable_empty : validate_filetable [] = false.
Proof. reflexivity. Qed.

(** ** Grouping and transforming a column *)

Section GroupByFacts.
Context {K : Type} `{EqDecision K}.
Implicit Types (k : K) (keys : list K) (ps qs : list nat).

Lemma elem_of_positions_from i k keys p :
  p ∈ positions_from i k keys ↔ (i ≤ p)%nat ∧ keys !! (p - i)%nat = Some k.
Proof.
  revert i. induction keys as [|k' keys IH]; intros i; simpl.
  - rewrite elem_of_nil. split; [done|]. intros [_ ?]. done.
  - destruct (decide (k' = k)) as [->|Hne].
    + rewrite elem_of_cons, IH. split.
      * intros [->|[Hle Hl]].
        -- split; [lia|]. by replace (i - i)%nat with 0%nat by lia.
        -- split; [lia|]. by replace (p - i)%nat with (S (p - S i)) by lia.
      * intros [Hle Hl]. destruct (decide (p = i)) as [->|]; [by left|right].
        split; [lia|]. by replace (p - i)%nat with (S (p - S i)) in Hl by lia.
    + rewrite IH. split.
      * intros [Hle Hl]. split; [lia|].
        by replace (p - i)%nat with (S (p - S i)) by lia.
      * intros [Hle Hl]. destruct (decide (p = i)) as [->|].
        -- replace (i - i)%nat with 0%nat in Hl by lia. simpl in Hl. congruence.
        -- split; [lia|]. by replace (p - i)%nat with (S (p - S i)) in Hl by lia.
Qed.

Lemma NoDup_positions_from i k keys : NoDup (positions_from i k keys).
Proof.
  revert i. induction keys as [|k' keys IH]; intros i; simpl; [constructor|].
  destruct (decide (k' = k)); [|apply IH].
  constructor; [|apply IH]. rewrite elem_of_positions_from. lia.
Qed.

Lemma positions_from_lt i k keys p :
  p ∈ positions_from i k keys → (p < i + length keys)%nat.
Proof.
  intros [Hle Hl%lookup_lt_Some]%elem_of_positions_from. lia.
Qed.

Lemma positions_from_disjoint i k k' keys p :
  k ≠ k' → p ∈ positions_from i k keys → p ∉ positions_from i k' keys.
Proof.
  intros Hne [_ H1]%elem_of_positions_from [_ H2]%elem_of_positions_from. congruence.
Qed.


Lemma gather_cons {A} p ps (col : list A) :
  gather (p :: ps) col =
    match col !! p with Some v => v :: gather ps col | None => gather ps col end.
Proof. reflexivity. Qed.


Lemma length_gather {A} ps (col : list A) :
  Forall (λ p, (p < length col)%nat) ps → length (gather ps col) = length ps.
Proof.
  induction 1 as [|p ps Hp _ IH]; [done|]. rewrite gather_cons.
  destruct (lookup_lt_is_Some_2 col p Hp) as [x ->]. simpl. by rewrite IH.
Qed.



Lemma scatter_cons {A} p ps v (vs out : list A) :
  scatter (p :: ps) (v :: vs) out = scatter ps vs (<[p:=v]> out).
Proof. reflexivity. Qed.

Lemma length_scatter {A} ps (vs out : list A) :
  length (scatter ps vs out) = length out.
Proof.
  revert vs out. induction ps as [|p ps IH]; intros [|v vs] out; try done.
  by rewrite scatter_cons, IH, length_insert.
Qed.

Lemma scatter_lookup_notin {A} ps (vs out : list A) p :
  p ∉ ps → scatter ps vs out !! p = out !! p.
Proof.
  revert vs out. induction ps as [|q ps IH]; intros [|v vs] out Hp; try done.
  apply not_elem_of_cons in Hp as [Hne Hp].
  rewrite scatter_cons, IH by done. by rewrite list_lookup_insert_ne.
Qed.

Lemma gather_scatter_same {A} ps (vs out : list A) :
  NoDup ps → length vs = length ps → Forall (λ p, (p < length out)%nat) ps →
  gather ps (scatter ps vs out) = vs.
Proof.
  revert vs out. induction ps as [|p ps IH]; intros [|v vs] out Hnd Hlen Hlt;
    simpl in Hlen; try done.
  apply NoDup_cons in Hnd as [Hp Hnd]. apply Forall_cons in Hlt as [Hp' Hlt].
  rewrite gather_cons, scatter_cons.
  rewrite scatter_lookup_notin by done.
  rewrite list_lookup_insert_eq by done. f_equal.
  apply IH; [done|lia|]. eapply Forall_impl; [exact Hlt|].
  intros q ?. by rewrite length_insert.
Qed.

Lemma gather_scatter_disjoint {A} ps qs (vs out : list A) :
  (∀ p, p ∈ ps → p ∉ qs) → gather ps (scatter qs vs out) = gather ps out.
Proof.
  intros Hdis. induction ps as [|p ps IH]; [done|].
  rewrite !gather_cons.
  rewrite scatter_lookup_notin by (apply Hdis; left).
  rewrite IH; [done|]. intros q ?. apply Hdis. by right.
Qed.

Section Transform.
Context {A B : Type} (f : list A → list B) (col : list A) (keys : list K).
Hypothesis f_length : ∀ vs, length (f vs) = length vs.
Hypothesis keys_length : length keys = length col.

Let step (out : list B) (g : K * list nat) : list B :=
  scatter g.2 (f (gather g.2 col)) out.
Let group (k : K) : K * list nat := (k, positions_from 0 k keys).

Lemma positions_in_range k :
  Forall (λ p, (p < length col)%nat) (positions_from 0 k keys).
Proof.
  apply Forall_forall. intros p Hp%positions_from_lt. lia.
Qed.

Lemma length_foldl_step (ks : list K) (out0 : list B) :
  length (foldl step out0 (group <$> ks)) = length out0.
Proof.
  revert out0. induction ks as [|k ks IH]; intros out0; simpl; [done|].
  rewrite IH. unfold step. by rewrite length_scatter.
Qed.

Lemma gather_foldl_step (ks : list K) (out0 : list B) k :
  NoDup ks → length out0 = length col →
  gather (positions_from 0 k keys) (foldl step out0 (group <$> ks)) =
    if decide (k ∈ ks) then f (gather (positions_from 0 k keys) col)
    else gather (positions_from 0 k keys) out0.
Proof.
  revert out0. induction ks as [|k' ks IH]; intros out0 Hnd Hlen.
  { case_decide as Hin; [by apply elem_of_nil in Hin|done]. }
  apply NoDup_cons in Hnd as [Hk' Hnd].
  rewrite fmap_cons. cbn [foldl].
  rewrite IH; [|done|unfold step; by rewrite length_scatter].
  destruct (decide (k ∈ ks)) as [Hin|Hin].
  - rewrite decide_True; [done|]. by right.
  - destruct (decide (k = k')) as [->|Hne].
    + rewrite decide_True by left. unfold step, group. cbn [snd].
      apply gather_scatter_same.
      * apply NoDup_positions_from.
      * rewrite f_length. apply length_gather, positions_in_range.
      * rewrite Hlen. apply positions_in_range.
    + rewrite decide_False.
      2:{ intros [?|?]%elem_of_cons; done. }
      unfold step, group. cbn [snd]. apply gather_scatter_disjoint.
      intros p. by apply positions_from_disjoint.
Qed.

Lemma length_transform (nan : B) :
  length (transform (groupby keys) f col nan) = length col.
Proof.
  unfold transform, groupby.
  change (foldl _ (const nan <$> col) ?g) with (foldl step (const nan <$> col) g).
  change (λ k, (k, positions_from 0 k keys)) with group.
  by rewrite length_foldl_step, length_fmap.
Qed.

(** Every group receives what [f] returns for its values. *)
Lemma gather_transform (nan : B) k :
  k ∈ keys →
  gather (positions_from 0 k keys) (transform (groupby keys) f col nan) =
    f (gather (positions_from 0 k keys) col).
Proof.
  intros Hk. unfold transform, groupby.
  change (foldl _ (const nan <$> col) ?g) with (foldl step (const nan <$> col) g).
  change (λ k, (k, positions_from 0 k keys)) with group.
  rewrite gather_foldl_step.
  - rewrite decide_True; [done|]. by apply elem_of_remove_dups.
  - apply NoDup_remove_dups.
  - by rewrite length_fmap.
Qed.
End Transform.
End GroupByFacts.

(** ** The condition table *)

Section ConditionFacts.
Context `{!PythonLib}.
Implicit Types (filetable : list datafile) (k : string * string).

Lemma prepared_steps filetable (start : nat) :
  (λ r, set_condition r (if decide (c_condition r = "") then "NA" else c_condition r)) <$>
    ((λ r, set_fraction r (if decide (c_fraction r = "") then "NA" else c_fraction r)) <$>
      ((λ r, set_file_name r (stem (c_name r))) <$>
        zip_with set_num (DataFrame filetable) (seq start (length filetable))))
  = zip_with prepared_row filetable (seq start (length filetable)).
Proof.
  revert start. induction filetable as [|f rest IH]; intros start; [done|].
  cbn [length seq DataFrame fmap list_fmap zip_with].
  f_equal. apply (IH (S start)).
Qed.

Lemma length_prepared filetable : length (prepared filetable) = length filetable.
Proof. unfold prepared. rewrite length_zip_with, length_seq. lia. Qed.

Lemma prepared_replicate filetable :
  c_replicate <$> prepared filetable = CStr <$> (replicate <$> filetable).
Proof.
  unfold prepared. generalize 1%nat.
  induction filetable as [|f rest IH]; intros start; [done|].
  cbn [length seq zip_with fmap list_fmap]. f_equal. apply IH.
Qed.


Lemma forallb_unfilled_prepared filetable :
  forallb (λ c, unfilled (astype_str c)) (c_replicate <$> prepared filetable)
  = all_unfilled filetable.
Proof.
  rewrite prepared_replicate. unfold all_unfilled.
  generalize (replicate <$> filetable).
  induction l as [|x l IH]; [done|]. simpl. by rewrite <- IH.
Qed.

Lemma existsb_unfilled_prepared filetable :
  existsb (λ c, unfilled (astype_str c)) (c_replicate <$> prepared filetable)
  = some_unfilled filetable.
Proof.
  rewrite prepared_replicate. unfold some_unfilled.
  generalize (replicate <$> filetable).
  induction l as [|x l IH]; [done|]. simpl. by rewrite <- IH.
Qed.

(** [condition_frame] in one step. *)
Lemma condition_frame_unfold filetable :
  condition_frame filetable =
    let df := if all_unfilled filetable
              then zip_with set_replicate (prepared filetable) (assigned filetable)
              else prepared filetable in
    (df, existsb (λ c, unfilled (astype_str c)) (c_replicate <$> df)).
Proof.
  unfold condition_frame. cbv zeta.
  replace (length (DataFrame filetable)) with (length filetable)
    by (unfold DataFrame; by rewrite length_fmap).
  rewrite !prepared_steps. fold (prepared filetable).
  rewrite forallb_unfilled_prepared. reflexivity.
Qed.

Lemma length_assigned filetable : length (assigned filetable) = length filetable.
Proof.
  unfold assigned. by rewrite length_transform, length_fmap, length_prepared.
Qed.

Lemma replicate_zip_set filetable :
  c_replicate <$> zip_with set_replicate (prepared filetable) (assigned filetable)
  = assigned filetable.
Proof.
  apply fmap_zip_with_r; [done|].
  rewrite length_assigned, length_prepared. done.
Qed.

Lemma group_key_zip_set filetable :
  group_key <$> zip_with set_replicate (prepared filetable) (assigned filetable)
  = group_key <$> prepared filetable.
Proof.
  assert (Hlen : length (prepared filetable) = length (assigned filetable))
    by (by rewrite length_assigned, length_prepared).
  revert Hlen. generalize (assigned filetable). generalize (prepared filetable).
  induction l as [|r l IH]; intros [|c cs] Hlen; simpl in *; try done.
  f_equal. apply IH. lia.
Qed.

Lemma positions_from_not_elem {K} `{EqDecision K} (k : K) (keys : list K) :
  k ∉ keys → positions_from 0 k keys = [].
Proof.
  intros Hk. destruct (positions_from 0 k keys) as [|p ps] eqn:Hps; [done|].
  assert (Hp : p ∈ positions_from 0 k keys) by (rewrite Hps; left).
  apply elem_of_positions_from in Hp as [_ Hp]. exfalso. apply Hk.
  by eapply list_elem_of_lookup_2.
Qed.

(** Within each group the assigned numbers are 1, 2, ..., n in row order. *)
Lemma assigned_contiguous filetable k :
  gather (positions_from 0 k (group_key <$> prepared filetable)) (assigned filetable)
  = CInt <$> seq 1 (length (positions_from 0 k (group_key <$> prepared filetable))).
Proof.
  destruct (decide (k ∈ group_key <$> prepared filetable)) as [Hk|Hk].
  - unfold assigned. rewrite gather_transform.
    + rewrite length_gather; [done|]. apply positions_in_range.
      by rewrite !length_fmap.
    + intros vs. by rewrite length_fmap, length_seq.
    + by rewrite !length_fmap.
    + done.
  - by rewrite positions_from_not_elem.
Qed.




End ConditionFacts.

(** ** Decimal numbers are never blank *)

Lemma digit_not_space a : is_digit a = true → py_isspace a = false.
Proof. destruct a as [[] [] [] [] [] [] [] []]; vm_compute; congruence. Qed.

Lemma digit_lower a : is_digit a = true → lower_ascii a = a.
Proof. destruct a as [[] [] [] [] [] [] [] []]; vm_compute; congruence. Qed.

Lemma lstrip_digits s : all_char is_digit s = true → lstrip s = s.
Proof.
  destruct s as [|a s]; [done|]. simpl. intros [Ha _]%andb_prop.
  by rewrite (digit_not_space _ Ha).
Qed.

Lemma rstrip_digits s : all_char is_digit s = true → rstrip s = s.
Proof.
  induction s as [|a s IH]; [done|]. simpl. intros [Ha Hs]%andb_prop.
  rewrite (IH Hs). destruct s; [|done]. by rewrite (digit_not_space _ Ha).
Qed.

Lemma lower_digits s : all_char is_digit s = true → lower s = s.
Proof.
  induction s as [|a s IH]; [done|]. simpl. intros [Ha Hs]%andb_prop.
  by rewrite (digit_lower _ Ha), (IH Hs).
Qed.

Lemma pretty_N_char_digit x : is_digit (pretty_N_char x) = true.
Proof. unfold pretty_N_char. by repeat case_match. Qed.

Lemma pretty_N_go_digits x s :
  s ≠ "" ∨ (0 < x)%N → all_char is_digit s = true →
  pretty_N_go x s ≠ "" ∧ all_char is_digit (pretty_N_go x s) = true.
Proof.
  revert s. induction (N.lt_wf_0 x) as [x _ IH]; intros s Hne Hs.
  assert (x = 0 ∨ 0 < x)%N as [->|Hx] by lia.
  - rewrite pretty_N_go_0. split; [|done]. destruct Hne; [done|lia].
  - rewrite pretty_N_go_step by done. apply IH.
    + by apply N.div_lt.
    + by left.
    + simpl. by rewrite pretty_N_char_digit.
Qed.

Lemma pretty_nat_digits (n : nat) :
  pretty n ≠ "" ∧ all_char is_digit (pretty n) = true.
Proof.
  unfold pretty, pretty_nat, pretty, pretty_N. case_decide; [done|].
  apply pretty_N_go_digits; [right; lia|done].
Qed.

Lemma unfilled_pretty (n : nat) : unfilled (pretty n) = false.
Proof.
  destruct (pretty_nat_digits n) as [Hne Hd].
  unfold unfilled, strip.
  rewrite (lstrip_digits _ Hd), (rstrip_digits _ Hd), (lower_digits _ Hd).
  apply bool_decide_eq_false. intros Hin.
  rewrite !elem_of_cons, elem_of_nil in Hin.
  destruct Hin as [?|[Heq|[Heq|[]]]]; [done|..]; rewrite Heq in Hd; discriminate.
Qed.

(** ** Blank fields *)























(** ** Writing the condition table *)

Section WriteFacts.
Context `{!PythonLib}.
Implicit Types (filetable : list datafile) (k : string * string) (w : world).

Lemma gather_elem {A} (ps : list nat) (col : list A) p x :
  p ∈ ps → col !! p = Some x → x ∈ gather ps col.
Proof.
  intros Hp Hx. induction ps as [|q ps IH]; [by apply elem_of_nil in Hp|].
  rewrite gather_cons. apply elem_of_cons in Hp as [->|Hp].
  - rewrite Hx. left.
  - destruct (col !! q); [right|]; by apply IH.
Qed.

Lemma assigned_lookup filetable i c :
  assigned filetable !! i = Some c → ∃ n, c = CInt n.
Proof.
  intros Hc.
  assert (Hi : (i < length (group_key <$> prepared filetable))%nat).
  { rewrite length_fmap, length_prepared, <- length_assigned. by eapply lookup_lt_Some. }
  destruct (lookup_lt_is_Some_2 _ _ Hi) as [k Hk].
  assert (Hp : i ∈ positions_from 0 k (group_key <$> prepared filetable)).
  { apply elem_of_positions_from. split; [lia|]. by rewrite Nat.sub_0_r. }
  pose proof (gather_elem _ _ _ _ Hp Hc) as Hin.
  rewrite assigned_contiguous in Hin.
  apply list_elem_of_fmap in Hin as (n & -> & _). by exists n.
Qed.

Lemma warning_flag filetable :
  (condition_frame filetable).2 = negb (all_unfilled filetable) && some_unfilled filetable.
Proof.
  rewrite condition_frame_unfold. cbv zeta. simpl.
  destruct (all_unfilled filetable) eqn:Hall; simpl.
  - rewrite replicate_zip_set. apply not_true_is_false.
    intros (c & Hc & Hu)%existsb_exists.
    apply list_elem_of_In, list_elem_of_lookup in Hc as (i & Hi).
    apply assigned_lookup in Hi as (n & ->). simpl in Hu.
    by rewrite unfilled_pretty in Hu.
  - apply existsb_unfilled_prepared.
Qed.

(** What a call of [write_conditon_file] does. *)
Lemma write_conditon_file_run filetable output_path w :
  write_conditon_file filetable output_path w =
    match filetable with
    | [] => (Raise (KeyError "name"), w)
    | _ =>
        (Ok tt,
         set_fs <[output_path := File (to_csv (condition_table filetable))]>
           (if negb (all_unfilled filetable) && some_unfilled filetable
            then set_trace (λ t, t ++ [replicate_warning]) w else w))
    end.
Proof.
  destruct filetable as [|f rest]; [done|].
  unfold write_conditon_file. rewrite warning_flag.
  by destruct (negb _ && _).
Qed.


End WriteFacts.

Section TableText.
Context `{!PythonLib}.
Implicit Types (filetable : list datafile) (k : string * string) (w : world).















End TableText.

Section ConditionClaims.
Context `{!PythonLib}.



End ConditionClaims.




(** ** Argument assembly *)

Section ArgumentFacts.
Implicit Types (args : gmap string pyval) (result : list (list string)).

(** An option counts as given when Python takes its value as true, and its
    text is what the f-string gives. *)
Lemma option_text_truthy v :
  option_text v = if truthy v then Some (py_str v) else None.
Proof.
  destruct v as [|[]|s|p|[|f l]|shown]; simpl; try done.
  case_decide.
  - by rewrite bool_decide_eq_true_2.
  - by rewrite bool_decide_eq_false_2.
Qed.

Lemma with_value_group args key flags result :
  with_value args key flags result
  = result ++ option_list (option_group args (key, flags, true)).
Proof.
  unfold with_value, option_group, dict_get.
  destruct (args !! key) as [v|]; simpl; [|by rewrite app_nil_r].
  rewrite option_text_truthy. destruct (truthy v); simpl; by rewrite ?app_nil_r.
Qed.

Lemma with_flag_group args key flag result :
  with_flag args key flag result
  = result ++ option_list (option_group args (key, [flag], false)).
Proof.
  unfold with_flag, option_group, dict_get.
  destruct (args !! key) as [v|]; simpl; [|by rewrite app_nil_r].
  rewrite option_text_truthy. destruct (truthy v); simpl; by rewrite ?app_nil_r.
Qed.

Lemma omap_cons_app {A B} (f : A → option B) x l :
  omap f (x :: l) = option_list (f x) ++ omap f l.
Proof. simpl. by destruct (f x). Qed.


Lemma _parse_args_table args : _parse_args args = omap (option_group args) option_table.
Proof.
  unfold _parse_args, option_table. cbv zeta.
  rewrite !with_value_group, !with_flag_group, !omap_cons_app.
  rewrite <- !app_assoc. simpl. by rewrite app_nil_r.
Qed.

Lemma foldl_app_concat {A} (acc : list A) (l : list (list A)) :
  foldl (λ i j, i ++ j) acc l = acc ++ concat l.
Proof.
  revert acc. induction l as [|x l IH]; intros acc; simpl.
  - by rewrite app_nil_r.
  - by rewrite IH, app_assoc.
Qed.

Lemma elem_of_concat {A} (x : A) (l : list (list A)) :
  x ∈ concat l ↔ ∃ g, g ∈ l ∧ x ∈ g.
Proof.
  rewrite list_elem_of_In, in_concat. split; intros (g & Hg & Hx); exists g;
    by rewrite ?list_elem_of_In in *.
Qed.

Lemma get_args_concat args : get_args args = concat (_parse_args args).
Proof. unfold get_args. by rewrite foldl_app_concat. Qed.





Lemma segmented_object args widget :
  args !! "segmented" = Some (VObject widget) → ["-segmented"] ∈ _parse_args args.
Proof.
  intros Hw. rewrite _parse_args_table. apply list_elem_of_omap.
  exists ("segmented", ["-segmented"], false). split.
  - unfold option_table. rewrite !elem_of_cons. tauto.
  - unfold option_group. by rewrite Hw.
Qed.

End ArgumentFacts.

(** C7, at the options of the DirectDIA page: the page passes the checkbox
    widget under ['segmented'], not its value, and an object is true whatever
    state it is in.  So the flag [-segmented] is in the argument vector of
    every run of the DirectDIA workflow, also when the box is not ticked;
    with the value of the box, as the Convert page passes it, the flag
    follows the box.  The other options of the form are emitted as the
    option table says. *)
Theorem segmented_follows_widget (widget : string) :
  (direct_page_run widget).1 = Ok (Some true)
  ∧ execs (trace (direct_page_run widget).2)
    = [(0%nat, ["dotnet"; "/usr/lib/spectronaut/SpectronautCMD.dll"; "activate"; "KEY"]);
       (1%nat, ["dotnet"; "/usr/lib/spectronaut/SpectronautCMD.dll"; "direct";
                "-n"; "a"; "-con"; "/out/params/a_condition.tsv";
                "-s"; "/out/params/p.prop"; "-fasta"; "/out/params/f.fasta";
                "-o"; "/out"; "--verbose"; "-segmented"; "-r"; "/work/a.raw"]);
       (2%nat, ["dotnet"; "/usr/lib/spectronaut/SpectronautCMD.dll"; "deactivate"])]
  ∧ get_full_args (<["datafiles" := VFiles [thermo_file]]> (direct_page_args widget))
  = Ok ["direct"; "-s"; "/in/p.prop"; "-fasta"; "/in/f.fasta"; "-o"; "/out";
        "--verbose"; "-segmented"; "-r"; "/work/a.raw"]
  ∧ get_full_args (<["datafiles" := VFiles [thermo_file]]>
                     (<["segmented" := VBool false]> (direct_page_args widget)))
    = Ok ["direct"; "-s"; "/in/p.prop"; "-fasta"; "/in/f.fasta"; "-o"; "/out";
          "--verbose"; "-r"; "/work/a.raw"]
  ∧ get_full_args (<["datafiles" := VFiles [thermo_file]]>
                     (<["segmented" := VBool true]> (direct_page_args widget)))
    = Ok ["direct"; "-s"; "/in/p.prop"; "-fasta"; "/in/f.fasta"; "-o"; "/out";
          "--verbose"; "-segmented"; "-r"; "/work/a.raw"]
  ∧ ∀ args, args !! "segmented" = Some (VObject widget) →
            "-segmented" ∈ get_args args.
Proof.
  split; [vm_compute; reflexivity|]. split; [vm_compute; reflexivity|].
  split; [vm_compute; reflexivity|]. split; [vm_compute; reflexivity|].
  split; [vm_compute; reflexivity|].
  intros args Hw. rewrite get_args_concat. apply elem_of_concat.
  exists ["-segmented"]. split; [by eapply segmented_object|apply list_elem_of_here].
Qed.

Lemma segmented_follows_widget_witness :
  get_full_args (<["datafiles" := VFiles [thermo_file]]>
                   (direct_page_args "<nicegui.elements.checkbox.Checkbox object>"))
  = Ok ["direct"; "-s"; "/in/p.prop"; "-fasta"; "/in/f.fasta"; "-o"; "/out";
        "--verbose"; "-segmented"; "-r"; "/work/a.raw"].
Proof.
  apply (proj1 (proj2 (proj2
           (segmented_follows_widget "<nicegui.elements.checkbox.Checkbox object>")))).
Defined.

(** ** Running the monad *)

Ltac unfold_monad :=
  unfold suppress, try_except, try_finally, log, emit, modify, get_world, raise,
    mbind, M_bind, mret, M_ret in *.

(** ** The archive extractor worker *)

Section WorkerFacts.
Context `{!PythonLib}.

Lemma _extract_zip_worker_run idx zip_path extract_path progress_queue w :
  let zb := archives w zip_path in
  let real_path := joinpath extract_path "analysis.tdf" in
  let files := extracted (zb_members zb) extract_path (fs w) in
  let missing := "Missing analysis.tdf after extraction for " +:+ zip_path in
  _extract_zip_worker idx zip_path extract_path progress_queue w =
    match zb_error zb with
    | Some e =>
        if is_Exception e
        then (Ok (idx, false, "", exn_str e),
              queue_after progress_queue zip_path (QDone idx false "" (exn_str e))
                (set_fs (λ _, files) w))
        else (Raise e,
              (if progress_queue
               then set_progress_q (λ q, q ++ [QProgress ("Extracting " +:+ zip_path)])
               else id) (set_fs (λ _, files) w))
    | None =>
        if bool_decide (is_Some (files !! real_path))
        then (Ok (idx, true, parent real_path, ""),
              queue_after progress_queue zip_path (QDone idx true (parent real_path) "")
                (set_fs (λ _, files) w))
        else (Ok (idx, false, "", missing),
              queue_after progress_queue zip_path (QDone idx false "" missing)
                (set_fs (λ _, files) w))
    end.
Proof.
  intros zb real_path files missing. subst zb real_path files missing.
  unfold _extract_zip_worker, extractall, _try_put, queue_after, path_exists, extracted.
  unfold_monad.
  destruct progress_queue; simpl;
    (destruct (zb_error (archives w zip_path)) as [e|]; simpl;
     [destruct (is_Exception e) eqn:He; simpl; rewrite ?He; destruct w; reflexivity|]);
    destruct (bool_decide (is_Some _)); destruct w; reflexivity.
Qed.
End WorkerFacts.

(** C4: the worker leaves the extracted members on the file system and
    returns [(idx, True, directory of the marker, '')] when extraction
    raised nothing and [analysis.tdf] exists under the destination,
    [(idx, False, '', message)] when the marker is missing or extraction
    raised an I/O or format error (any subclass of [Exception]); in all these
    cases it returns and raises nothing. *)
Theorem extract_zip_worker_contract `{!PythonLib} (idx : nat)
    (zip_path extract_path : string) (progress_queue : bool) (w : world) :
  let marker := joinpath extract_path "analysis.tdf" in
  let files := extracted (zb_members (archives w zip_path)) extract_path (fs w) in
  let outcome := _extract_zip_worker idx zip_path extract_path progress_queue w in
  fs outcome.2 = files
  ∧ (zb_error (archives w zip_path) = None → is_Some (files !! marker) →
     outcome.1 = Ok (idx, true, parent marker, ""))
  ∧ (zb_error (archives w zip_path) = None → files !! marker = None →
     outcome.1 = Ok (idx, false, "",
                     "Missing analysis.tdf after extraction for " +:+ zip_path))
  ∧ (∀ e, zb_error (archives w zip_path) = Some e → is_Exception e = true →
     outcome.1 = Ok (idx, false, "", exn_str e))
  ∧ ((∀ e, zb_error (archives w zip_path) = Some e → is_Exception e = true) →
     ∃ success real_path error,
       outcome.1 = Ok (idx, success, real_path, error)
       ∧ (success = true → real_path = parent marker ∧ error = "")
       ∧ (success = false → real_path = "")).
Proof.
  intros marker files outcome. subst outcome.
  rewrite _extract_zip_worker_run. cbv zeta. fold marker. fold files.
  destruct (zb_error (archives w zip_path)) as [e|] eqn:Herr.
  - destruct (is_Exception e) eqn:He.
    + split; [by destruct progress_queue|]. split; [done|]. split; [done|]. split.
      * intros e' [= <-] _. done.
      * intros _. by exists false, "", (exn_str e).
    + split; [by destruct progress_queue|]. split; [done|]. split; [done|]. split.
      * intros e' [= <-] He'. congruence.
      * intros Hall. specialize (Hall e eq_refl). congruence.
  - destruct (bool_decide (is_Some (files !! marker))) eqn:Hm.
    + apply bool_decide_eq_true in Hm.
      split; [by destruct progress_queue|]. split; [done|]. split.
      * intros _ Hnone. rewrite Hnone in Hm. by destruct Hm.
      * split; [done|]. intros _. by exists true, (parent marker), "".
    + apply bool_decide_eq_false in Hm.
      split; [by destruct progress_queue|]. split; [done|]. split; [done|].
      split; [done|]. intros _. by eexists false, "", _.
Qed.

Lemma extract_zip_worker_contract_witness :
  (@_extract_zip_worker posix 0 "/work/s1.d.zip" "/out/data/s1.d" true zip_world).1
    = Ok (0%nat, true, "/out/data/s1.d", "")
  ∧ (@_extract_zip_worker posix 1 "/work/s2.d.zip" "/out/data/s2.d" true zip_world).1
    = Ok (1%nat, false, "", "Missing analysis.tdf after extraction for /work/s2.d.zip")
  ∧ (@_extract_zip_worker posix 2 "/work/s3.d.zip" "/out/data/s3.d" true zip_world).1
    = Ok (2%nat, false, "", "File is not a zip file").
Proof.
  split; [|split].
  - apply (proj1 (proj2 (@extract_zip_worker_contract posix 0 "/work/s1.d.zip"
                           "/out/data/s1.d" true zip_world))).
    + reflexivity.
    + vm_compute. eauto.
  - apply (proj1 (proj2 (proj2 (@extract_zip_worker_contract posix 1 "/work/s2.d.zip"
                                  "/out/data/s2.d" true zip_world)))).
    + reflexivity.
    + vm_compute. reflexivity.
  - apply (proj1 (proj2 (proj2 (proj2 (@extract_zip_worker_contract posix 2
             "/work/s3.d.zip" "/out/data/s3.d" true zip_world))))
             (BadZipFile "File is not a zip file")).
    + reflexivity.
    + reflexivity.
Defined.

(** ** The command runner *)

Lemma for_each_log_run lines w :
  for_each lines (λ raw_line, log INFO (rstrip raw_line)) w
  = (Ok tt, set_trace (λ t, t ++ (Log INFO ∘ rstrip <$> lines)) w).
Proof.
  revert w. induction lines as [|l lines IH]; intros w.
  - destruct w. unfold set_trace. simpl. by rewrite app_nil_r.
  - simpl. unfold mbind, M_bind. unfold log at 1, emit, modify. rewrite IH.
    destruct w. unfold set_trace. simpl. by rewrite <- app_assoc.
Qed.

Lemma run_cmd_run args timeout w :
  let out := run_cmd args timeout w in
  let spec := run_cmd_outcome args timeout (spawned w) (procs w (spawned w)) in
  out.1 = spec.1 ∧ trace out.2 = trace w ++ spec.2
  ∧ fs out.2 = fs w ∧ datafiles out.2 = datafiles w ∧ spawned out.2 = S (spawned w)
  ∧ procs out.2 = procs w ∧ archives out.2 = archives w
  ∧ cancel_extraction out.2 = cancel_extraction w ∧ current_task out.2 = current_task w
  ∧ progress_q out.2 = progress_q w.
Proof.
  cbv zeta. unfold run_cmd_outcome, timeout_fired, killing.
  pose proof for_each_log_run as Hlog.
  unfold run_cmd, create_subprocess_exec, register_subprocess, _stream_stdout,
    process_wait, kill.
  unfold_monad. destruct w. simpl.
  destruct (pb_spawn_error _) eqn:Hs; simpl.
  { rewrite <- !app_assoc. repeat split; reflexivity. }
  destruct (bool_decide (is_Some _)); simpl; rewrite Hlog; simpl;
  rewrite ?lookup_delete_eq;
  (destruct timeout as [t|]; [destruct (bool_decide (t < _)%Z)|]; simpl;
   rewrite ?lookup_delete_eq; simpl;
   try (destruct (pb_stream _); simpl; rewrite ?lookup_delete_eq; simpl);
   try (destruct (pb_wait _); simpl; rewrite ?lookup_delete_eq; simpl);
   try (destruct (pb_kill_error _); simpl; rewrite ?lookup_delete_eq; simpl);
   try (destruct (pb_wait_killed _); simpl);
   rewrite <- ?app_assoc; simpl; repeat split; reflexivity).
Qed.

Lemma execs_app t1 t2 : execs (t1 ++ t2) = execs t1 ++ execs t2.
Proof. unfold execs. apply omap_app. Qed.

Lemma execs_log_lines (lines : list string) : execs (Log INFO ∘ rstrip <$> lines) = [].
Proof. induction lines as [|l lines IH]; [done|]. simpl. apply IH. Qed.

Lemma execs_run_cmd_outcome args timeout proc pb :
  execs (run_cmd_outcome args timeout proc pb).2 = [(proc, args)].
Proof.
  unfold run_cmd_outcome, killing.
  destruct (pb_spawn_error pb); [done|].
  destruct (timeout_fired timeout pb); [|destruct (pb_stream pb); [destruct (pb_wait pb)|..]];
    cbn [snd]; rewrite !execs_app, execs_log_lines;
    destruct (pb_kill_error pb); reflexivity.
Qed.



(** ** Steps that start no process and leave the file table alone *)

Section KeepsFacts.
Implicit Types (w : world).

Lemma same_refl w : same w w.
Proof. by repeat split. Qed.

Lemma same_trans w1 w2 w3 : same w1 w2 → same w2 w3 → same w1 w3.
Proof. intros (?&?&?) (?&?&?). repeat split; congruence. Qed.

Lemma same_set_fs f w : same w (set_fs f w).
Proof. by destruct w. Qed.

Lemma same_set_active_processes f w : same w (set_active_processes f w).
Proof. by destruct w. Qed.

Lemma same_set_returncode f w : same w (set_returncode f w).
Proof. by destruct w. Qed.

Lemma same_set_progress_q f w : same w (set_progress_q f w).
Proof. by destruct w. Qed.

Lemma same_emit e w : silent e → same w (set_trace (λ t, t ++ [e]) w).
Proof.
  intros He. destruct w. repeat split; simpl.
  rewrite execs_app. destruct e; try done; simpl; by rewrite app_nil_r.
Qed.

Lemma keeps_ret {A} (a : A) : keeps (mret a).
Proof. intros w. apply same_refl. Qed.

Lemma keeps_raise {A} e : keeps (@raise A e).
Proof. intros w. apply same_refl. Qed.

Lemma keeps_get_world : keeps get_world.
Proof. intros w. apply same_refl. Qed.

Lemma keeps_emit e : silent e → keeps (emit e).
Proof. intros He w. by apply same_emit. Qed.

Lemma keeps_log lvl msg : keeps (log lvl msg).
Proof. by apply keeps_emit. Qed.

Lemma keeps_bind {A B} (m : M A) (f : A → M B) :
  keeps m → (∀ a, keeps (f a)) → keeps (m ≫= f).
Proof.
  intros Hm Hf w. unfold mbind, M_bind. specialize (Hm w).
  destruct (m w) as [[a|e] w1]; simpl in *; [|done].
  eapply same_trans; [exact Hm|apply Hf].
Qed.

Lemma keeps_try_except {A} (body : M A) handler :
  keeps body → (∀ e h, handler e = Some h → keeps h) → keeps (try_except body handler).
Proof.
  intros Hb Hh w. unfold try_except. specialize (Hb w).
  destruct (body w) as [[a|e] w1]; simpl in *; [done|].
  destruct (handler e) as [h|] eqn:He; [|done].
  eapply same_trans; [exact Hb|by eapply Hh].
Qed.

Lemma keeps_try_finally {A} (body : M A) fin :
  keeps body → keeps fin → keeps (try_finally body fin).
Proof.
  intros Hb Hf w. unfold try_finally. specialize (Hb w).
  destruct (body w) as [r w1]. specialize (Hf w1).
  destruct (fin w1) as [[[]|e] w2]; simpl in *; by eapply same_trans.
Qed.

Lemma keeps_suppress body : keeps body → keeps (suppress body).
Proof.
  intros Hb. apply keeps_try_except; [done|].
  intros e h. destruct (is_Exception e); [|done]. intros [= <-]. apply keeps_ret.
Qed.

Lemma keeps_for_each {A} (l : list A) body :
  (∀ x, keeps (body x)) → keeps (for_each l body).
Proof.
  intros Hb. induction l as [|x l IH]; [apply keeps_ret|].
  apply keeps_bind; [apply Hb|]. intros _. apply IH.
Qed.

Lemma keeps_terminate proc : keeps (terminate proc).
Proof.
  intros w. unfold terminate. unfold_monad. simpl.
  destruct (pb_exits_on_terminate _); simpl.
  - eapply same_trans; [|apply same_set_returncode]. by apply same_emit.
  - by apply same_emit.
Qed.

Lemma keeps_kill proc : keeps (kill proc).
Proof.
  intros w. unfold kill. unfold_monad. simpl.
  destruct (pb_kill_error _); simpl; by apply same_emit.
Qed.

Lemma keeps_process_wait proc killed : keeps (process_wait proc killed).
Proof.
  intros w. unfold process_wait. unfold_monad. simpl.
  destruct (returncode _ !! proc); simpl; [by apply same_emit|].
  destruct killed; [destruct (pb_wait_killed _)|destruct (pb_wait _)]; simpl;
    try (eapply same_trans; [|apply same_set_returncode]); by apply same_emit.
Qed.

Lemma keeps__cleanup_processes task_id : keeps (_cleanup_processes task_id).
Proof.
  unfold _cleanup_processes. apply keeps_bind; [apply keeps_get_world|].
  intros w. destruct (default [] _) as [|p ps]; [apply keeps_ret|].
  apply keeps_bind; [apply keeps_log|]. intros _.
  apply keeps_bind.
  { apply keeps_for_each. intros proc. apply keeps_bind; [apply keeps_get_world|].
    intros w'. destruct (bool_decide _); [|apply keeps_ret].
    apply keeps_suppress, keeps_terminate. }
  intros _. apply keeps_bind.
  { apply keeps_for_each. intros proc. apply keeps_bind; [apply keeps_get_world|].
    intros w'. destruct (bool_decide _); [|apply keeps_ret].
    apply keeps_suppress, keeps_kill. }
  intros _. apply keeps_for_each. intros proc. apply keeps_suppress.
  apply keeps_bind; [apply keeps_process_wait|]. intros _. apply keeps_ret.
Qed.


Lemma keeps_modify_fs f : keeps (modify (set_fs f)).
Proof. intros w. apply same_set_fs. Qed.
End KeepsFacts.

(** Steps that keep a relation between the world before and after them. *)
Section Invariants.
Variable R : world → world → Prop.
Hypothesis R_refl : ∀ w, R w w.
Hypothesis R_trans : ∀ w1 w2 w3, R w1 w2 → R w2 w3 → R w1 w3.

Lemma preserves_ret {A} (a : A) : preserves R (mret a).
Proof. intros w. apply R_refl. Qed.

Lemma preserves_raise {A} e : preserves R (@raise A e).
Proof. intros w. apply R_refl. Qed.

Lemma preserves_get_world : preserves R get_world.
Proof. intros w. apply R_refl. Qed.

Lemma preserves_bind {A B} (m : M A) (f : A → M B) :
  preserves R m → (∀ a, preserves R (f a)) → preserves R (m ≫= f).
Proof.
  intros Hm Hf w. unfold mbind, M_bind. specialize (Hm w).
  destruct (m w) as [[a|e] w1]; simpl in *; [|done].
  eapply R_trans; [exact Hm|apply Hf].
Qed.

Lemma preserves_try_except {A} (body : M A) handler :
  preserves R body → (∀ e h, handler e = Some h → preserves R h) →
  preserves R (try_except body handler).
Proof.
  intros Hb Hh w. unfold try_except. specialize (Hb w).
  destruct (body w) as [[a|e] w1]; simpl in *; [done|].
  destruct (handler e) as [h|] eqn:He; [|done].
  eapply R_trans; [exact Hb|by eapply Hh].
Qed.

Lemma preserves_try_finally {A} (body : M A) fin :
  preserves R body → preserves R fin → preserves R (try_finally body fin).
Proof.
  intros Hb Hf w. unfold try_finally. specialize (Hb w).
  destruct (body w) as [r w1]. specialize (Hf w1).
  destruct (fin w1) as [[[]|e] w2]; simpl in *; by eapply R_trans.
Qed.

Lemma preserves_foldM {A B} (f : B → A → M B) (l : list A) :
  (∀ acc x, preserves R (f acc x)) → ∀ acc, preserves R (foldM f acc l).
Proof.
  intros Hf. induction l as [|x l IH]; intros acc; [apply preserves_ret|].
  apply preserves_bind; [apply Hf|]. intros acc'. apply IH.
Qed.
End Invariants.



Lemma rejected_raise w0 w e : same w0 w → rejected w0 (Raise e, w).
Proof. intros Hw. split; [done|]. done. Qed.


(** ** The DirectDIA workflow *)

Section WorkflowFacts.
Context `{!PythonLib, !Config}.
Implicit Types (w : world) (args : gmap string pyval).

Lemma keeps_getitem args key : keeps (getitem args key).
Proof. unfold getitem. destruct (args !! key); [apply keeps_ret|apply keeps_raise]. Qed.

Lemma keeps_as_Path v : keeps (as_Path v).
Proof. destruct v; simpl; first [apply keeps_ret|apply keeps_raise]. Qed.

Lemma keeps_mkdir p : keeps (mkdir p).
Proof.
  unfold mkdir. apply keeps_bind; [apply keeps_get_world|]. intros w.
  destruct (fs w !! p) as [[]|]; [apply keeps_ret|apply keeps_raise|].
  destruct (mkdir_error _ _); [apply keeps_raise|apply keeps_modify_fs].
Qed.

Lemma keeps_copy src dst : keeps (copy src dst).
Proof.
  unfold copy. apply keeps_bind; [apply keeps_get_world|]. intros w.
  destruct (fs w !! src) as [[]|]; first [apply keeps_modify_fs|apply keeps_raise].
Qed.

Lemma keeps_copy_to_params optional key params_folder args :
  keeps (copy_to_params optional key params_folder args).
Proof.
  unfold copy_to_params. apply keeps_bind; [apply keeps_getitem|]. intros v.
  destruct (optional && _); [apply keeps_ret|].
  apply keeps_bind; [apply keeps_as_Path|]. intros p.
  apply keeps_bind; [apply keeps_get_world|]. intros w.
  destruct (path_exists p w); [|apply keeps_ret].
  apply keeps_bind; [apply keeps_copy|]. intros _. apply keeps_ret.
Qed.














End WorkflowFacts.

Section WorkflowRuns.
Context `{!PythonLib, !Config}.
Implicit Types (w : world) (args : gmap string pyval).

Lemma run_bind_Ok {A B} (m : M A) (f : A → M B) w a w1 :
  m w = (Ok a, w1) → (m ≫= f) w = f a w1.
Proof. intros Hm. unfold mbind, M_bind. by rewrite Hm. Qed.











End WorkflowRuns.




(** ** Activation, main run, deactivation *)

Lemma run_cmd_raises args timeout w e :
  (run_cmd args timeout w).1 = Raise e → is_CancelledError e = true.
Proof.
  destruct (run_cmd_run args timeout w) as (-> & _). unfold run_cmd_outcome.
  destruct (pb_spawn_error _); [done|].
  destruct (timeout_fired _ _).
  { destruct (pb_wait_killed _); [done|]. by intros [= <-]. }
  destruct (pb_stream _); [destruct (pb_wait _)|..]; try done; by intros [= <-].
Qed.

Lemma run_cmd_execs args timeout w :
  execs (trace (run_cmd args timeout w).2) = execs (trace w) ++ [(spawned w, args)]
  ∧ spawned (run_cmd args timeout w).2 = S (spawned w).
Proof.
  destruct (run_cmd_run args timeout w) as (_ & -> & _ & _ & -> & _).
  by rewrite execs_app, execs_run_cmd_outcome.
Qed.

Lemma execs_logged e w : silent e → execs (trace (logged e w)) = execs (trace w).
Proof. intros He. by destruct (same_emit e w He) as (_ & ? & _). Qed.

Lemma spawned_logged e w : spawned (logged e w) = spawned w.
Proof. by destruct w. Qed.

Section SpectronautFacts.
Context `{!Config}.

Lemma run_spectronaut_run (args_list : list string) (w : world) :
  run_spectronaut args_list w =
    match run_cmd activate_args None (before_activate w) with
    | (Raise e, w1) => (Raise e, w1)
    | (Ok false, w1) =>
        (Ok None, logged (Log ERROR "Cannot activate Spectronaut, see detailed log") w1)
    | (Ok true, w1) =>
        match run_cmd (SPECTRONAUT ++ args_list) None (before_main w1) with
        | (Raise e, w2) => (Raise e, w2)
        | (Ok result, w2) =>
            match run_cmd deactivate_args None (before_deactivate result w2) with
            | (Raise e, w3) => (Raise e, w3)
            | (Ok deactivated, w3) =>
                (Ok (Some result), logged (deactivate_log deactivated) w3)
            end
        end
    end.
Proof.
  unfold run_spectronaut, before_activate, before_main, before_deactivate, logged,
    main_log, deactivate_log, activate_args, deactivate_args.
  unfold_monad.
  destruct (run_cmd _ None _) as [[[]|] w1]; try reflexivity. simpl.
  destruct (run_cmd _ None _) as [[[]|] w2]; try reflexivity; simpl;
    destruct (run_cmd _ None _) as [[[]|] w3]; reflexivity.
Qed.
End SpectronautFacts.

(** C1, as the code has it: when the activation succeeded and the main
    invocation returned, with success or with failure, the deactivation is
    attempted (it is the third call of [create_subprocess_exec]), its
    outcome is logged and the workflow returns the result of the main
    invocation, whatever the deactivation returned.  When the main invocation
    raised (a cancellation: nothing else leaves [run_cmd]), the exception
    leaves the workflow and no deactivation is attempted. *)
Theorem deactivation_after_main `{!Config} (args_list : list string) (w : world) :
  let act := run_cmd activate_args None (before_activate w) in
  let main := run_cmd (SPECTRONAUT ++ args_list) None (before_main act.2) in
  let out := run_spectronaut args_list w in
  act.1 = Ok true →
  (∀ result, main.1 = Ok result →
     let deact := run_cmd deactivate_args None (before_deactivate result main.2) in
     execs (trace out.2) =
       execs (trace w) ++ [(spawned w, activate_args);
                           (S (spawned w), SPECTRONAUT ++ args_list);
                           (S (S (spawned w)), deactivate_args)]
     ∧ (∀ deactivated, deact.1 = Ok deactivated →
          out.1 = Ok (Some result)
          ∧ trace out.2 = trace deact.2 ++ [deactivate_log deactivated]))
  ∧ (∀ e, main.1 = Raise e →
       out.1 = Raise e ∧ is_CancelledError e = true
       ∧ execs (trace out.2) =
           execs (trace w) ++ [(spawned w, activate_args);
                               (S (spawned w), SPECTRONAUT ++ args_list)]).
Proof.
  intros act main out. subst act main out. rewrite run_spectronaut_run.
  pose proof (run_cmd_execs activate_args None (before_activate w)) as (Hex1 & Hsp1).
  unfold before_activate in Hex1 at 2 3, Hsp1 at 2.
  rewrite execs_logged, spawned_logged in Hex1 by done.
  rewrite spawned_logged in Hsp1.
  destruct (run_cmd activate_args None (before_activate w)) as [ra wa].
  cbn [fst snd] in *. intros ->.
  pose proof (run_cmd_execs (SPECTRONAUT ++ args_list) None (before_main wa))
    as (Hex2 & Hsp2).
  pose proof (run_cmd_raises (SPECTRONAUT ++ args_list) None (before_main wa))
    as Hraise.
  unfold before_main in Hex2 at 2 3, Hsp2 at 2.
  rewrite !execs_logged, !spawned_logged in Hex2 by done.
  rewrite !spawned_logged in Hsp2.
  rewrite Hex1, Hsp1 in Hex2. rewrite Hsp1 in Hsp2. clear Hex1 Hsp1.
  destruct (run_cmd (SPECTRONAUT ++ args_list) None (before_main wa))
    as [[result|e] wm].
  - cbn [fst snd] in *. split; [|discriminate].
    intros ? [= <-]. cbv zeta.
    pose proof (run_cmd_execs deactivate_args None (before_deactivate result wm))
      as (Hex3 & _).
    unfold before_deactivate in Hex3 at 2 3.
    rewrite !execs_logged, !spawned_logged in Hex3 by (by destruct result).
    rewrite Hex2, Hsp2 in Hex3. clear Hex2 Hsp2.
    destruct (run_cmd deactivate_args None (before_deactivate result wm))
      as [[deactivated|e] wd]; cbn [fst snd] in *.
    + split.
      * rewrite execs_logged by (by destruct deactivated).
        rewrite Hex3, <- !app_assoc. reflexivity.
      * intros ? [= <-]. split; [reflexivity|]. by destruct wd.
    + split; [|discriminate]. rewrite Hex3, <- !app_assoc. reflexivity.
  - cbn [fst snd] in *. split; [discriminate|].
    intros ? [= <-]. split; [reflexivity|]. split; [by apply Hraise|].
    rewrite Hex2, <- !app_assoc. reflexivity.
Qed.

(** After a cancelled main run the workflow ends with the cancellation and
    has called [create_subprocess_exec] twice: no deactivation. *)
Lemma deactivation_skipped_on_cancel :
  cancelled_run.1 = Raise (CancelledError "")
  ∧ bool_decide (Log INFO "Spectronaut activated successfully" ∈ trace cancelled_run.2)
    = true
  ∧ execs (trace cancelled_run.2) =
      [(0%nat, ["dotnet"; "/usr/lib/spectronaut/SpectronautCMD.dll"; "activate"; "KEY"]);
       (1%nat, ["dotnet"; "/usr/lib/spectronaut/SpectronautCMD.dll"; "direct";
                "-n"; "a"; "-con"; "/out/params/a_condition.tsv";
                "-s"; "/out/params/p.prop"; "-fasta"; "/out/params/f.fasta";
                "-o"; "/out"; "--verbose"; "-r"; "/work/a.raw"])]
  ∧ bool_decide (Kill 1 ∈ trace cancelled_run.2) = true.
Proof.
  split; [vm_compute; reflexivity|]. split; [vm_compute; reflexivity|].
  split; vm_compute; reflexivity.
Qed.

Lemma deactivation_after_main_witness :
  execs (trace (@run_spectronaut default_config ["direct"] failing_main_world).2) =
    execs (trace failing_main_world)
    ++ [(spawned failing_main_world, @activate_args default_config);
        (S (spawned failing_main_world), @SPECTRONAUT default_config ++ ["direct"]);
        (S (S (spawned failing_main_world)), @deactivate_args default_config)]
  ∧ (@run_spectronaut default_config ["direct"] failing_main_world).1 = Ok (Some false).
Proof.
  assert (Hact : (run_cmd (@activate_args default_config) None
                    (before_activate failing_main_world)).1 = Ok true)
    by (vm_compute; reflexivity).
  destruct (proj1 (@deactivation_after_main default_config ["direct"] failing_main_world
                     Hact) false) as [Hexecs Hdeact].
  { vm_compute. reflexivity. }
  split; [exact Hexecs|].
  apply (Hdeact false). vm_compute. reflexivity.
Defined.

(** * Further properties *)

(** ** The process registry *)

Section RegistryFacts.
Implicit Types (w : world).

Lemma for_each_Ok {A} (l : list A) (body : A → M unit) w :
  (∀ x w1, (body x w1).1 = Ok tt) → (for_each l body w).1 = Ok tt.
Proof.
  intros Hbody. revert w. induction l as [|x l IH]; intros w; [done|].
  simpl. unfold mbind, M_bind. specialize (Hbody x w).
  destruct (body x w) as [[[]|e] w1]; simpl in *; [apply IH|done].
Qed.

(** A loop whose body keeps [I] and, when it returns, establishes [P] of its
    element for good. *)
Lemma for_each_establishes {A} (I : world → Prop) (P : A → world → Prop)
    (l : list A) (body : A → M unit) w :
  I w →
  (∀ x w1, I w1 →
     I (body x w1).2
     ∧ ((body x w1).1 = Ok tt → P x (body x w1).2)
     ∧ ∀ y, P y w1 → P y (body x w1).2) →
  I (for_each l body w).2
  ∧ ((for_each l body w).1 = Ok tt → ∀ x, x ∈ l → P x (for_each l body w).2).
Proof.
  intros Hw Hstep.
  enough (∀ seen : list A, (∀ y, y ∈ seen → P y w) →
    I (for_each l body w).2
    ∧ ((for_each l body w).1 = Ok tt →
       ∀ x, x ∈ seen ∨ x ∈ l → P x (for_each l body w).2)) as Hgen.
  { destruct (Hgen [] ltac:(by intros y Hy%elem_of_nil)) as [HI HP].
    split; [done|]. intros Hok x Hx. apply HP; [done|by right]. }
  revert w Hw. induction l as [|x l IH]; intros w Hw seen Hseen.
  { split; [done|]. intros _ y [Hy|Hy%elem_of_nil]; [by apply Hseen|done]. }
  simpl. unfold mbind, M_bind.
  destruct (Hstep x w Hw) as (HI & Hest & Hkeep).
  destruct (body x w) as [[[]|e] w1]; simpl in *; [|done].
  destruct (IH w1 HI (x :: seen)) as [HI' HP'].
  { intros y [->|Hy]%elem_of_cons; [by apply Hest|]. by apply Hkeep, Hseen. }
  split; [done|]. intros Hok y Hy. apply HP'; [done|].
  rewrite !elem_of_cons in *. tauto.
Qed.

Lemma for_each_raises {A} (l : list A) (body : A → M unit) w e :
  (∀ x w1 e', (body x w1).1 = Raise e' → is_CancelledError e' = true) →
  (for_each l body w).1 = Raise e → is_CancelledError e = true.
Proof.
  intros Hbody. revert w. induction l as [|x l IH]; intros w; [done|].
  simpl. unfold mbind, M_bind. specialize (Hbody x w).
  destruct (body x w) as [[[]|e'] w1]; simpl in *; [apply IH|].
  intros [= <-]. by apply Hbody.
Qed.

Lemma for_each_inv {A} (I : world → Prop) (l : list A) (body : A → M unit) w :
  I w → (∀ x w1, x ∈ l → I w1 → I (body x w1).2) → I (for_each l body w).2.
Proof.
  revert w. induction l as [|x l IH]; intros w Hw Hbody; [done|].
  simpl. unfold mbind, M_bind.
  pose proof (Hbody x w (list_elem_of_here _ _) Hw) as Hx.
  destruct (body x w) as [[[]|e] w1]; simpl in *; [|done].
  apply IH; [done|]. intros y w2 Hy. apply Hbody. by apply list_elem_of_further.
Qed.

Lemma terminate_pass_step w0 proc w :
  let body := (w' ← get_world;
               if bool_decide (returncode w' !! proc = None)
               then suppress (terminate proc) else mret tt) in
  (body w).1 = Ok tt
  ∧ procs (body w).2 = procs w
  ∧ (∀ p, is_Some (returncode w !! p) → is_Some (returncode (body w).2 !! p))
  ∧ (∀ p, Kill p ∈ trace (body w).2 → Kill p ∈ trace w)
  ∧ (returncode (body w).2 !! proc = None → pb_exits_on_terminate (procs w proc) = false).
Proof.
  cbv zeta. unfold terminate. unfold_monad. destruct w as [f d a r q c s t pr ar ce].
  simpl. case_bool_decide as Hr; simpl.
  - destruct (pb_exits_on_terminate (pr proc)) eqn:Hexit; simpl.
    + rewrite Hr. simpl. split; [done|]. split; [done|]. split.
      * intros p Hp. destruct (decide (p = proc)) as [->|Hne].
        -- rewrite lookup_insert_eq. by eexists.
        -- by rewrite lookup_insert_ne.
      * split.
        -- intros p Hp. apply elem_of_app in Hp as [Hp|Hp]; [done|].
           apply list_elem_of_singleton in Hp. done.
        -- by rewrite lookup_insert_eq.
    + split; [done|]. split; [done|]. split; [done|]. split; [|done].
      intros p Hp. apply elem_of_app in Hp as [Hp|Hp]; [done|].
      apply list_elem_of_singleton in Hp. done.
  - done.
Qed.

Lemma kill_pass_step proc w :
  let body := (w' ← get_world;
               if bool_decide (returncode w' !! proc = None)
               then suppress (kill proc) else mret tt) in
  (body w).1 = Ok tt
  ∧ procs (body w).2 = procs w
  ∧ returncode (body w).2 = returncode w
  ∧ (∀ p, Kill p ∈ trace (body w).2 →
       Kill p ∈ trace w ∨ (p = proc ∧ returncode w !! p = None)).
Proof.
  cbv zeta. unfold kill. unfold_monad. destruct w as [f d a r q c s t pr ar ce].
  simpl. case_bool_decide as Hr; simpl; [|by auto].
  assert (∀ p, Kill p ∈ t ++ [Kill proc] → Kill p ∈ t ∨ p = proc ∧ r !! p = None).
  { intros p [Hp|[= ->]%list_elem_of_singleton]%elem_of_app; auto. }
  destruct (pb_kill_error (pr proc)); simpl; auto.
Qed.

Lemma wait_pass_step proc w :
  let o := suppress (process_wait proc true;; mret tt) w in
  procs o.2 = procs w
  ∧ (∀ p, is_Some (returncode w !! p) → is_Some (returncode o.2 !! p))
  ∧ (∀ p, Kill p ∈ trace o.2 → Kill p ∈ trace w)
  ∧ (o.1 = Ok tt → is_Some (returncode o.2 !! proc))
  ∧ (∀ e, o.1 = Raise e → is_CancelledError e = true).
Proof.
  cbv zeta. unfold process_wait. unfold_monad.
  destruct w as [f d a r q c s t pr ar ce]. simpl.
  assert (∀ p, Kill p ∈ t ++ [Wait proc] → Kill p ∈ t) as Hk.
  { by intros p [Hp|[=]%list_elem_of_singleton]%elem_of_app. }
  destruct (r !! proc) as [rc|] eqn:Hr; simpl.
  { rewrite Hr. repeat split; eauto. done. }
  destruct (pb_wait_killed (pr proc)) as [rc|]; simpl.
  - split; [done|]. split.
    + intros p Hp. destruct (decide (p = proc)) as [->|Hne].
      * rewrite lookup_insert_eq. by eexists.
      * by rewrite lookup_insert_ne.
    + split; [done|]. rewrite lookup_insert_eq. split; [by eexists|done].
  - split; [done|]. split; [done|]. split; [done|]. split; [done|].
    by intros e [= <-].
Qed.

(** The run of [_cleanup_processes] on a task with registered processes,
    pass by pass. *)
Lemma _cleanup_processes_passes task_id w :
  let processes := default [] (active_processes w !! task_id) in
  let out := _cleanup_processes task_id w in
  processes ≠ [] →
  ∃ w1 w2,
    (* after the terminate pass *)
    procs w1 = procs w
    ∧ (∀ p, is_Some (returncode w !! p) → is_Some (returncode w1 !! p))
    ∧ (∀ p, Kill p ∈ trace w1 → Kill p ∈ trace w)
    ∧ (∀ p, p ∈ processes → returncode w1 !! p = None →
            pb_exits_on_terminate (procs w p) = false)
    (* after the kill pass *)
    ∧ returncode w2 = returncode w1
    ∧ (∀ p, Kill p ∈ trace w2 →
            Kill p ∈ trace w1 ∨ (p ∈ processes ∧ returncode w1 !! p = None))
    (* after the wait pass *)
    ∧ (∀ p, is_Some (returncode w2 !! p) → is_Some (returncode out.2 !! p))
    ∧ (∀ p, Kill p ∈ trace out.2 → Kill p ∈ trace w2)
    ∧ (out.1 = Ok tt → ∀ p, p ∈ processes → is_Some (returncode out.2 !! p))
    ∧ (∀ e, out.1 = Raise e → is_CancelledError e = true).
Proof.
  cbv zeta. intros Hne.
  set (processes := default [] (active_processes w !! task_id)) in *.
  set (body1 := λ proc : nat, w' ← get_world;
                  if bool_decide (returncode w' !! proc = None)
                  then suppress (terminate proc) else mret tt).
  set (body2 := λ proc : nat, w' ← get_world;
                  if bool_decide (returncode w' !! proc = None)
                  then suppress (kill proc) else mret tt).
  set (body3 := λ proc : nat, suppress (process_wait proc true;; mret tt)).
  set (w0 := set_trace (λ t, t ++ [Log WARNING ("Cleaning up " +:+ pretty (length processes)
                                                +:+ " subprocess(es)")]) w).
  assert (_cleanup_processes task_id w
          = (for_each processes body1;; for_each processes body2;;
             for_each processes body3) w0) as ->.
  { unfold _cleanup_processes. rewrite (run_bind_Ok get_world _ w w w eq_refl).
    fold processes. destruct processes; [done|]. reflexivity. }
  assert (procs w0 = procs w ∧ returncode w0 = returncode w
          ∧ ∀ p, Kill p ∈ trace w0 → Kill p ∈ trace w) as (Hp0 & Hr0 & Hk0).
  { subst w0. destruct w. simpl. repeat split.
    by intros p [Hp|[=]%list_elem_of_singleton]%elem_of_app. }
  clearbody w0 processes. clear Hne.
  (* the terminate pass *)
  destruct (for_each_establishes
    (λ w', procs w' = procs w
           ∧ (∀ p, is_Some (returncode w !! p) → is_Some (returncode w' !! p))
           ∧ (∀ p, Kill p ∈ trace w' → Kill p ∈ trace w))
    (λ p w', returncode w' !! p = None → pb_exits_on_terminate (procs w p) = false)
    processes body1 w0) as [(Hp1 & Hr1 & Hk1) He1].
  { split; [done|]. split; [by rewrite Hr0|done]. }
  { intros x w1 (Hp & Hr & Hk). unfold body1.
    destruct (terminate_pass_step w x w1) as (_ & Hp' & Hr' & Hk' & He').
    cbv zeta in *. split; [|split].
    - split; [congruence|]. split; [by auto|by auto].
    - intros _ Hnone. rewrite <- Hp. by apply He'.
    - intros y Hy Hnone. apply Hy.
      destruct (returncode w1 !! y) eqn:Hy1; [|done].
      destruct (Hr' y) as [rc Hrc]; [by eexists|]. congruence. }
  assert ((for_each processes body1 w0).1 = Ok tt) as Hok1.
  { apply for_each_Ok. intros x w1. unfold body1.
    by destruct (terminate_pass_step w x w1). }
  specialize (He1 Hok1).
  destruct (for_each processes body1 w0) as [[[]|e1] w1] eqn:Hrun1;
    simpl in Hok1; [|done]. clear Hok1.
  rewrite (run_bind_Ok _ _ _ _ _ Hrun1). cbn [fst snd] in *. clear Hrun1.
  (* the kill pass *)
  pose proof (for_each_inv
    (λ w', procs w' = procs w1 ∧ returncode w' = returncode w1
           ∧ (∀ p, Kill p ∈ trace w' →
                   Kill p ∈ trace w1 ∨ (p ∈ processes ∧ returncode w1 !! p = None)))
    processes body2 w1) as H2.
  destruct H2 as (Hp2 & Hr2 & Hk2).
  { split; [done|]. split; [done|]. intros p Hp. by left. }
  { intros x w2 Hx (Hp & Hr & Hk). unfold body2.
    destruct (kill_pass_step x w2) as (_ & Hp' & Hr' & Hk'). cbv zeta in *.
    split; [congruence|]. split; [congruence|].
    intros p [Hp2|[-> Hnone]]%Hk'; [by auto|]. right. split; [done|congruence]. }
  assert ((for_each processes body2 w1).1 = Ok tt) as Hok2.
  { apply for_each_Ok. intros x w2. unfold body2.
    by destruct (kill_pass_step x w2). }
  destruct (for_each processes body2 w1) as [[[]|e2] w2] eqn:Hrun2;
    simpl in Hok2; [|done]. clear Hok2.
  rewrite (run_bind_Ok _ _ _ _ _ Hrun2). cbn [fst snd] in *. clear Hrun2.
  (* the wait pass *)
  exists w1, w2.
  split; [done|]. split; [done|]. split; [done|]. split; [by auto|].
  split; [done|]. split; [done|].
  destruct (for_each_establishes
    (λ w', (∀ p, is_Some (returncode w2 !! p) → is_Some (returncode w' !! p))
           ∧ (∀ p, Kill p ∈ trace w' → Kill p ∈ trace w2))
    (λ p w', is_Some (returncode w' !! p))
    processes body3 w2)
    as [(Hr3 & Hk3) He3].
  { split; [done|]. done. }
  { intros x w3 (Hr & Hk). unfold body3.
    destruct (wait_pass_step x w3) as (_ & Hr' & Hk' & He' & _). cbv zeta in *.
    split; [by auto|]. split; [by auto|]. intros y. apply Hr'. }
  split; [exact Hr3|]. split; [exact Hk3|]. split; [exact He3|].
  intros e. apply for_each_raises. intros x w3 e'. unfold body3.
  destruct (wait_pass_step x w3) as (_ & _ & _ & _ & Hc). apply Hc.
Qed.

(** X1: whatever the decorated coroutine does, the decorator leaves no
    registration of its task behind; a result and an exception other than a
    cancellation pass through unchanged, and a cancellation stays a
    cancellation. *)
Theorem track_subprocess_cleanup_unregisters {A} (coro_func : M A) w :
  let started := set_active_processes <[current_task w := []]> w in
  let out := track_subprocess_cleanup coro_func w in
  active_processes out.2 !! current_task w = None
  ∧ match (coro_func started).1 with
    | Ok v => out.1 = Ok v
    | Raise e =>
        if is_CancelledError e
        then ∃ e', out.1 = Raise e' ∧ is_CancelledError e' = true
        else out.1 = Raise e
    end.
Proof.
  cbv zeta. unfold track_subprocess_cleanup.
  rewrite (run_bind_Ok get_world _ w w w eq_refl).
  rewrite (run_bind_Ok (modify _) _ w tt _ eq_refl).
  unfold try_finally, try_except, modify.
  destruct (coro_func _) as [[v|e] w1]; cbn [fst snd].
  { split; [apply lookup_delete_eq|done]. }
  destruct (is_CancelledError e) eqn:He; cbn [fst snd].
  - unfold mbind, M_bind, raise.
    destruct (_cleanup_processes (current_task w) w1) as [[[]|e'] w2] eqn:Hc;
      cbn [fst snd]; (split; [apply lookup_delete_eq|]).
    + by exists e.
    + exists e'. split; [done|].
      destruct (decide (default [] (active_processes w1 !! current_task w) = []))
        as [Hnil|Hne].
      * unfold _cleanup_processes in Hc.
        rewrite (run_bind_Ok get_world _ w1 w1 w1 eq_refl), Hnil in Hc. done.
      * destruct (_cleanup_processes_passes (current_task w) w1 Hne)
          as (? & ? & _ & _ & _ & _ & _ & _ & _ & _ & _ & Hr).
        apply Hr. by rewrite Hc.
  - split; [apply lookup_delete_eq|done].
Qed.

(** X2: when [_cleanup_processes] returns, every process registered for the
    task has an exit code, so none is left running.  The only exception that
    can leave it is a cancellation. *)
Theorem _cleanup_processes_reaps task_id w :
  let out := _cleanup_processes task_id w in
  match out.1 with
  | Ok _ =>
      ∀ p, p ∈ default [] (active_processes w !! task_id) →
           is_Some (returncode out.2 !! p)
  | Raise e => is_CancelledError e = true
  end.
Proof.
  cbv zeta.
  destruct (decide (default [] (active_processes w !! task_id) = [])) as [Hnil|Hne].
  { unfold _cleanup_processes.
    rewrite (run_bind_Ok get_world _ w w w eq_refl), Hnil. cbn [fst].
    by intros p Hp%elem_of_nil. }
  destruct (_cleanup_processes_passes task_id w Hne)
    as (? & ? & _ & _ & _ & _ & _ & _ & _ & _ & Hok & Hr).
  destruct (_cleanup_processes task_id w) as [[[]|e] w']; cbn [fst snd] in *;
    [by apply Hok|by apply Hr].
Qed.

(** X3: [_cleanup_processes] sends the kill signal only to processes of the
    task that had no exit code and did not exit on the termination signal;
    and it never forgets an exit code. *)
Theorem _cleanup_processes_kills_live task_id w p :
  let out := _cleanup_processes task_id w in
  (Kill p ∈ trace out.2 →
     Kill p ∈ trace w
     ∨ (p ∈ default [] (active_processes w !! task_id)
        ∧ returncode w !! p = None
        ∧ pb_exits_on_terminate (procs w p) = false))
  ∧ (is_Some (returncode w !! p) → is_Some (returncode out.2 !! p)).
Proof.
  cbv zeta.
  destruct (decide (default [] (active_processes w !! task_id) = [])) as [Hnil|Hne].
  { unfold _cleanup_processes.
    rewrite (run_bind_Ok get_world _ w w w eq_refl), Hnil. cbn [snd]. by auto. }
  destruct (_cleanup_processes_passes task_id w Hne)
    as (w1 & w2 & Hp1 & Hr1 & Hk1 & He1 & Hr2 & Hk2 & Hr3 & Hk3 & _ & _).
  split.
  - intros [Hk|[Hin Hnone]]%Hk3%Hk2; [left; by apply Hk1|]. right.
    split; [done|]. split; [|by apply He1].
    destruct (returncode w !! p) eqn:Hw; [|done].
    destruct (Hr1 p) as [rc Hrc]; [by eexists|]. congruence.
  - intros Hs. apply Hr3. rewrite Hr2. by apply Hr1.
Qed.

(** The clean-up of two running processes, the first of which ignores the
    termination signal: both are asked to terminate, the first is killed,
    both are awaited. *)
Example _cleanup_processes_sample :
  (_cleanup_processes 1 registered_world).1 = Ok tt
  ∧ trace (_cleanup_processes 1 registered_world).2
    = [Log WARNING "Cleaning up 2 subprocess(es)"; Terminate 0; Terminate 1;
       Kill 0; Wait 0; Wait 1]
  ∧ returncode (_cleanup_processes 1 registered_world).2 !! 0 = Some (-9)%Z
  ∧ returncode (_cleanup_processes 1 registered_world).2 !! 1 = Some (-15)%Z.
Proof. repeat split; vm_compute; reflexivity. Qed.
End RegistryFacts.

(** ** The command runner and the registry *)

Lemma run_cmd_shown_repr args timeout :
  run_cmd args timeout = run_cmd_shown (repr_list args) args timeout.
Proof. reflexivity. Qed.

Lemma execs_snoc_silent t e : silent e → execs (t ++ [e]) = execs t.
Proof. intros He. rewrite execs_app. destruct e; simpl in *; try done; apply app_nil_r. Qed.

Lemma run_cmd_shown_run shown args timeout w :
  let out := run_cmd_shown shown args timeout w in
  let proc := spawned w in
  let pb := procs w proc in
  out.1 = (run_cmd_outcome args timeout proc pb).1
  ∧ execs (trace out.2) = execs (trace w) ++ [(proc, args)]
  ∧ fs out.2 = fs w ∧ datafiles out.2 = datafiles w ∧ spawned out.2 = S (spawned w)
  ∧ procs out.2 = procs w ∧ archives out.2 = archives w
  ∧ cancel_extraction out.2 = cancel_extraction w ∧ current_task out.2 = current_task w
  ∧ progress_q out.2 = progress_q w
  ∧ active_processes out.2
    = match pb_spawn_error pb with
      | Some _ => active_processes w
      | None => alter (λ l, l ++ [proc]) (current_task w) (active_processes w)
      end
  ∧ returncode out.2
    = match run_cmd_exit timeout pb with
      | Some rc => <[proc := rc]> (delete proc (returncode w))
      | None => delete proc (returncode w)
      end.
Proof.
  cbv zeta. unfold run_cmd_outcome, run_cmd_exit, exit_of, timeout_fired, killing.
  pose proof for_each_log_run as Hlog.
  unfold run_cmd_shown, create_subprocess_exec, register_subprocess, _stream_stdout,
    process_wait, kill.
  unfold_monad. destruct w as [f d a r q c s t pr ar ce]. simpl.
  assert (∀ (t1 : list event) l, execs (t1 ++ (Log INFO ∘ rstrip <$> l)) = execs t1) as Hlines.
  { intros t1 l. by rewrite execs_app, execs_log_lines, app_nil_r. }
  assert (∀ (t1 : list event) lvl msg, execs (t1 ++ [Log lvl msg]) = execs t1) as Hl.
  { intros. by apply execs_snoc_silent. }
  assert (∀ (t1 : list event) p, execs (t1 ++ [Kill p]) = execs t1) as Hk.
  { intros. by apply execs_snoc_silent. }
  assert (∀ (t1 : list event) p, execs (t1 ++ [Wait p]) = execs t1) as Hw.
  { intros. by apply execs_snoc_silent. }
  assert (∀ (t1 : list event) p a', execs (t1 ++ [Exec p a']) = execs t1 ++ [(p, a')]) as He.
  { intros. by rewrite execs_app. }
  destruct (pb_spawn_error _) eqn:Hs; simpl.
  { rewrite ?Hl, ?He, ?Hl. repeat split; reflexivity. }
  assert (alter (λ l, l ++ [s]) c a = a ∨ True) as _ by (by right).
  destruct (bool_decide (is_Some (a !! c))) eqn:Hreg; simpl; rewrite Hlog; simpl;
  rewrite ?lookup_delete_eq;
  (destruct timeout as [t0|]; [destruct (bool_decide (t0 < _)%Z)|]; simpl;
   rewrite ?lookup_delete_eq; simpl;
   try (destruct (pb_stream _); simpl; rewrite ?lookup_delete_eq; simpl);
   try (destruct (pb_wait _); simpl; rewrite ?lookup_delete_eq; simpl);
   try (destruct (pb_kill_error _); simpl; rewrite ?lookup_delete_eq; simpl);
   try (destruct (pb_wait_killed _); simpl);
   repeat first [rewrite Hl | rewrite Hk | rewrite Hw | rewrite Hlines];
   rewrite He, Hl; repeat split; try reflexivity).
  all: symmetry; apply map_eq; intros i;
    apply bool_decide_eq_false_1 in Hreg;
    destruct (decide (c = i)) as [->|Hne];
    [ rewrite lookup_alter_eq; destruct (a !! i) eqn:Hi;
      [exfalso; apply Hreg; by eexists|done]
    | by rewrite lookup_alter_ne ].
Qed.

(** X4: [run_cmd] appends the process it started to the registration of
    the current task, if that task is tracked; the registrations of other
    tasks are left alone, and a process that could not be started is not
    registered. *)
Theorem run_cmd_registers args timeout w :
  let out := run_cmd args timeout w in
  let proc := spawned w in
  (∀ task, task ≠ current_task w →
     active_processes out.2 !! task = active_processes w !! task)
  ∧ active_processes out.2 !! current_task w
    = match pb_spawn_error (procs w proc) with
      | Some _ => active_processes w !! current_task w
      | None => (λ l, l ++ [proc]) <$> active_processes w !! current_task w
      end.
Proof.
  cbv zeta. rewrite run_cmd_shown_repr.
  destruct (run_cmd_shown_run (repr_list args) args timeout w)
    as (_ & _ & _ & _ & _ & _ & _ & _ & _ & _ & -> & _).
  destruct (pb_spawn_error _); [done|]. split.
  - intros task Hne. by rewrite lookup_alter_ne.
  - by rewrite lookup_alter_eq.
Qed.

(** X5: a process that [run_cmd] started is over when [run_cmd] ends,
    with two exceptions.  Either its output could not be read: then
    [run_cmd] logs the error and returns false, and the process is neither
    killed nor awaited.  Or the caller was cancelled while the killed
    process was awaited: then [run_cmd] has sent the kill signal and ends
    with the cancellation. *)
Theorem run_cmd_reaps args timeout w :
  let out := run_cmd args timeout w in
  let proc := spawned w in
  let pb := procs w proc in
  pb_spawn_error pb = None →
  is_Some (returncode out.2 !! proc)
  ∨ (out.1 = Ok false
     ∧ timeout_fired timeout pb = false ∧ ∃ e, pb_stream pb = StreamError e)
  ∨ (out.1 = Raise (CancelledError "")
     ∧ pb_wait_killed pb = WaitCancelled
     ∧ ∃ l, trace out.2 = trace w ++ l ∧ Kill proc ∈ l).
Proof.
  cbv zeta. intros Hs.
  destruct (run_cmd_run args timeout w) as (Hres & Htrace & _).
  cbv zeta in Hres, Htrace. rewrite Hres, Htrace. clear Hres Htrace.
  rewrite run_cmd_shown_repr.
  destruct (run_cmd_shown_run (repr_list args) args timeout w)
    as (_ & _ & _ & _ & _ & _ & _ & _ & _ & _ & _ & ->).
  unfold run_cmd_exit, exit_of, run_cmd_outcome, killing. rewrite Hs.
  destruct (timeout_fired timeout _).
  { destruct (pb_wait_killed _); [left; rewrite lookup_insert_eq; by eexists|].
    right. right. cbn [fst snd]. split; [done|]. split; [done|].
    eexists. split; [reflexivity|].
    rewrite !elem_of_app, !elem_of_cons. tauto. }
  destruct (pb_stream _) as [| |e].
  - destruct (pb_wait _); [left; rewrite lookup_insert_eq; by eexists|].
    destruct (pb_wait_killed _); [left; rewrite lookup_insert_eq; by eexists|].
    right. right. cbn [fst snd]. split; [done|]. split; [done|].
    eexists. split; [reflexivity|].
    rewrite !elem_of_app, !elem_of_cons. tauto.
  - destruct (pb_wait_killed _); [left; rewrite lookup_insert_eq; by eexists|].
    right. right. cbn [fst snd]. split; [done|]. split; [done|].
    eexists. split; [reflexivity|].
    rewrite !elem_of_app, !elem_of_cons. tauto.
  - right. left. cbn [fst snd]. eauto.
Qed.

Lemma run_cmd_reaps_witness :
  is_Some (returncode (run_cmd ["spectronaut"] None
                         (scripted_world [] ∅ [succeeding_process 7])).2 !! 0)
  ∨ ((run_cmd ["spectronaut"] None (scripted_world [] ∅ [succeeding_process 7])).1
     = Ok false
     ∧ timeout_fired None (succeeding_process 7) = false
     ∧ ∃ e, pb_stream (succeeding_process 7) = StreamError e)
  ∨ ((run_cmd ["spectronaut"] None (scripted_world [] ∅ [succeeding_process 7])).1
     = Raise (CancelledError "")
     ∧ pb_wait_killed (succeeding_process 7) = WaitCancelled
     ∧ ∃ l, trace (run_cmd ["spectronaut"] None
                     (scripted_world [] ∅ [succeeding_process 7])).2 = [] ++ l
            ∧ Kill 0 ∈ l).
Proof.
  apply (run_cmd_reaps ["spectronaut"] None (scripted_world [] ∅ [succeeding_process 7])).
  reflexivity.
Defined.

(** X6: when the output of the process cannot be read, [run_cmd] logs the
    error and returns false, but sends no kill signal and does not await
    the process: it is left running, with no exit code. *)
Theorem run_cmd_stream_error args timeout w e :
  let out := run_cmd args timeout w in
  let proc := spawned w in
  let pb := procs w proc in
  pb_spawn_error pb = None → timeout_fired timeout pb = false →
  pb_stream pb = StreamError e →
  out.1 = Ok false
  ∧ returncode out.2 !! proc = None
  ∧ ∃ l, trace out.2 = trace w ++ l
         ∧ Log ERROR ("Cannot execute command " +:+ repr_list args +:+ ": " +:+ e) ∈ l
         ∧ (Kill proc ∉ l) ∧ (Wait proc ∉ l).
Proof.
  cbv zeta. intros Hs Ht He.
  destruct (run_cmd_run args timeout w) as (Hres & Htrace & _).
  cbv zeta in Hres, Htrace. rewrite Hres, Htrace. clear Hres Htrace.
  rewrite run_cmd_shown_repr.
  destruct (run_cmd_shown_run (repr_list args) args timeout w)
    as (_ & _ & _ & _ & _ & _ & _ & _ & _ & _ & _ & ->).
  unfold run_cmd_exit, run_cmd_outcome. rewrite Hs, Ht, He. cbn [fst snd].
  split; [done|]. split; [apply lookup_delete_eq|].
  eexists. split; [reflexivity|].
  assert (∀ ev : event, (∀ lvl msg, ev ≠ Log lvl msg) → (∀ p a, ev ≠ Exec p a) →
            ev ∉ ([Log DEBUG ("run_cmd " +:+ repr_list args +:+ " (timeout="
                             +:+ repr_timeout timeout +:+ ")");
                  Exec (spawned w) args]
                 ++ [Log DEBUG ("Added PID: " +:+ pretty (pb_pid (procs w (spawned w))))]
                     ++ (Log INFO ∘ rstrip <$> pb_output (procs w (spawned w))))
                 ++ [Log ERROR ("Cannot execute command " +:+ repr_list args
                                +:+ ": " +:+ e)]) as Hnot.
  { intros ev Hlog Hexec Hin.
    rewrite !elem_of_app, !elem_of_cons, list_elem_of_fmap in Hin.
    destruct Hin as [[[|[|[]%elem_of_nil]]|[[|[]%elem_of_nil]|(x & ? & _)]]|[|[]%elem_of_nil]];
      subst; first [exact (Hlog _ _ eq_refl) | exact (Hexec _ _ eq_refl)]. }
  split; [|split; apply Hnot; done].
  apply elem_of_app. right. apply list_elem_of_here.
Qed.

Lemma run_cmd_stream_error_witness :
  (run_cmd ["spectronaut"] None (scripted_world [] ∅ [unreadable_process 7])).1 = Ok false
  ∧ returncode (run_cmd ["spectronaut"] None
                  (scripted_world [] ∅ [unreadable_process 7])).2 !! 0 = None
  ∧ ∃ l, trace (run_cmd ["spectronaut"] None
                  (scripted_world [] ∅ [unreadable_process 7])).2 = [] ++ l
         ∧ Log ERROR ("Cannot execute command " +:+ repr_list ["spectronaut"] +:+ ": "
                      +:+ "Separator is not found, and chunk exceed the limit") ∈ l
         ∧ (Kill 0 ∉ l) ∧ (Wait 0 ∉ l).
Proof.
  apply (run_cmd_stream_error ["spectronaut"] None
           (scripted_world [] ∅ [unreadable_process 7])); reflexivity.
Defined.

Lemma _cleanup_processes_reaped task_id w proc rc :
  active_processes w !! task_id = Some [proc] → returncode w !! proc = Some rc →
  _cleanup_processes task_id w
  = (Ok tt, set_trace (λ t, t ++ cleanup_of_reaped proc) w).
Proof.
  intros Ha Hr. unfold _cleanup_processes, process_wait, cleanup_of_reaped.
  rewrite (run_bind_Ok get_world _ w w w eq_refl), Ha.
  destruct w as [f d a r q c s t pr ar ce]. simpl in *.
  unfold_monad. simpl.
  repeat (rewrite bool_decide_eq_false_2 by (simpl; by rewrite Hr); simpl).
  rewrite Hr. unfold set_trace. simpl. by rewrite <- !app_assoc.
Qed.

(** X7: when the caller is cancelled while a tracked [run_cmd] reads the
    output of its process, [run_cmd] kills and awaits the process, and the
    clean-up of the decorator then sends it no further signal: it logs the
    clean-up and awaits the process, whose exit code is already known.  The
    cancellation propagates and the registration of the task is dropped. *)
Theorem tracked_run_cmd_cancelled args timeout w rc :
  let proc := spawned w in
  let pb := procs w proc in
  let out := track_subprocess_cleanup (run_cmd args timeout) w in
  pb_spawn_error pb = None → timeout_fired timeout pb = false →
  pb_stream pb = StreamCancelled → pb_wait_killed pb = Exits rc →
  out.1 = Raise (CancelledError "")
  ∧ trace out.2
    = trace w ++ (run_cmd_outcome args timeout proc pb).2 ++ cleanup_of_reaped proc
  ∧ returncode out.2 !! proc = Some rc
  ∧ active_processes out.2 !! current_task w = None.
Proof.
  cbv zeta. intros Hs Ht Hc Hk.
  set (w1 := set_active_processes <[current_task w := []]> w).
  assert (spawned w1 = spawned w ∧ procs w1 = procs w ∧ trace w1 = trace w
          ∧ current_task w1 = current_task w
          ∧ active_processes w1 !! current_task w = Some []) as (Hsp & Hpr & Htr & Hct & Hreg).
  { subst w1. destruct w. simpl. by rewrite lookup_insert_eq. }
  destruct (run_cmd_run args timeout w1) as (Hres & Htrace & _).
  pose proof (run_cmd_shown_run (repr_list args) args timeout w1)
    as (_ & _ & _ & _ & _ & _ & _ & _ & _ & _ & Hact & Hrc).
  rewrite <- run_cmd_shown_repr in Hact, Hrc. cbv zeta in *.
  rewrite Hsp, Hpr in *. rewrite Hct in Hact. rewrite Htr in Htrace.
  unfold run_cmd_exit, exit_of in Hrc. rewrite Hs, Ht, Hc, Hk in Hrc.
  rewrite Hs in Hact.
  assert ((run_cmd_outcome args timeout (spawned w) (procs w (spawned w))).1
          = Raise (CancelledError "")) as Hraise.
  { unfold run_cmd_outcome. by rewrite Hs, Ht, Hc. }
  rewrite Hraise in Hres. clear Hraise.
  unfold track_subprocess_cleanup.
  rewrite (run_bind_Ok get_world _ w w w eq_refl).
  rewrite (run_bind_Ok (modify (set_active_processes <[current_task w := []]>))
             _ w tt w1 eq_refl).
  unfold try_finally, try_except.
  destruct (run_cmd args timeout w1) as [res w2]. cbn [fst snd] in *. subst res.
  cbn [is_CancelledError].
  assert (_cleanup_processes (current_task w) w2
          = (Ok tt, set_trace (λ t, t ++ cleanup_of_reaped (spawned w)) w2)) as Hclean.
  { apply (_cleanup_processes_reaped _ _ _ rc).
    - by rewrite Hact, lookup_alter_eq, Hreg.
    - by rewrite Hrc, lookup_insert_eq. }
  rewrite (run_bind_Ok _ _ _ _ _ Hclean). unfold raise, modify. cbn [fst snd].
  destruct w2 as [f d a r q c s t pr ar ce]. simpl in *. subst.
  split; [done|]. split; [by rewrite <- app_assoc|].
  split; [by rewrite lookup_insert_eq|apply lookup_delete_eq].
Qed.

Lemma tracked_run_cmd_cancelled_witness :
  (track_subprocess_cleanup (run_cmd ["spectronaut"] None)
     (scripted_world [] ∅ [cancelled_process 7])).1 = Raise (CancelledError "")
  ∧ trace (track_subprocess_cleanup (run_cmd ["spectronaut"] None)
             (scripted_world [] ∅ [cancelled_process 7])).2
    = [] ++ (run_cmd_outcome ["spectronaut"] None 0 (cancelled_process 7)).2
         ++ cleanup_of_reaped 0
  ∧ returncode (track_subprocess_cleanup (run_cmd ["spectronaut"] None)
                  (scripted_world [] ∅ [cancelled_process 7])).2 !! 0 = Some (-9)%Z
  ∧ active_processes (track_subprocess_cleanup (run_cmd ["spectronaut"] None)
                        (scripted_world [] ∅ [cancelled_process 7])).2 !! 1 = None.
Proof.
  apply (tracked_run_cmd_cancelled ["spectronaut"] None
           (scripted_world [] ∅ [cancelled_process 7]) (-9)%Z); reflexivity.
Defined.

(** ** The Convert workflow *)

Lemma run_result_outcome args timeout proc pb :
  (run_cmd_outcome args timeout proc pb).1 = (run_cmd_outcome [] timeout 0 pb).1.
Proof.
  unfold run_cmd_outcome. destruct (pb_spawn_error pb); [done|].
  destruct (timeout_fired timeout pb); [done|].
  destruct (pb_stream pb); [destruct (pb_wait pb)|..]; done.
Qed.

Lemma run_cmd_outcome_cancelled args timeout proc pb e :
  (run_cmd_outcome args timeout proc pb).1 = Raise e → e = CancelledError "".
Proof.
  unfold run_cmd_outcome. destruct (pb_spawn_error pb); [done|].
  destruct (timeout_fired timeout pb).
  { destruct (pb_wait_killed pb); [done|]. by intros [= <-]. }
  destruct (pb_stream pb); [destruct (pb_wait pb)|..]; try done; by intros [= <-].
Qed.

(** One command, by the behaviour of its process. *)
Lemma run_cmd_shown_step shown args w :
  let out := run_cmd_shown shown args None w in
  out.1 = match run_result (procs w (spawned w)) with
          | Some b => Ok b
          | None => Raise (CancelledError "")
          end
  ∧ execs (trace out.2) = execs (trace w) ++ [(spawned w, args)]
  ∧ spawned out.2 = S (spawned w) ∧ datafiles out.2 = datafiles w
  ∧ procs out.2 = procs w.
Proof.
  cbv zeta.
  destruct (run_cmd_shown_run shown args None w)
    as (Hres & Hex & _ & Hd & Hs & Hp & _).
  split; [|done]. rewrite Hres. unfold run_result.
  rewrite (run_result_outcome args).
  destruct (run_cmd_outcome [] None 0 _).1 as [b|e] eqn:Ho; [done|].
  by rewrite (run_cmd_outcome_cancelled _ _ _ _ _ Ho).
Qed.

Lemma datafiles_logged e w : datafiles (logged e w) = datafiles w.
Proof. by destruct w. Qed.

Lemma procs_logged e w : procs (logged e w) = procs w.
Proof. by destruct w. Qed.

Section ConvertFacts.
Context `{!PythonLib, !Config}.
Implicit Types (w : world) (args_list : list string).

Lemma conversions_cons first file filetable args_list :
  conversions first (file :: filetable) args_list
  = (first, convert_args (Path (path file)) args_list)
    :: conversions (S first) filetable args_list.
Proof.
  unfold conversions. simpl. rewrite Nat.add_0_r. f_equal.
  apply imap_ext. intros k f _. simpl. f_equal. lia.
Qed.

Lemma take_drop_lookup {A} (l : list A) i n x :
  l !! i = Some x → take (S n) (drop i l) = x :: take n (drop (S i) l).
Proof.
  intros Hx. rewrite (drop_S _ _ _ Hx). reflexivity.
Qed.

(** One turn of the loop. *)
Lemma convert_loop_step total i rest args_list acc w file :
  datafiles w !! i = Some file →
  let file_path := Path (path file) in
  let ran := run_cmd_shown (convert_shown file_path args_list)
                           (convert_args file_path args_list) None w in
  convert_loop total (i :: rest) args_list acc w
  = match ran.1 with
    | Ok result =>
        convert_loop total rest args_list (acc && result)
          (logged (ProgressValue (i + 1) total)
             (logged (if result
                      then Log INFO ("[" +:+ pretty (i + 1) +:+ "|" +:+ pretty total
                                     +:+ "] Converted successfully")
                      else Log ERROR "Processing failed, see detailed log") ran.2))
    | Raise e => (Raise e, ran.2)
    end.
Proof.
  intros Hfile. cbv zeta. cbn [convert_loop].
  rewrite (run_bind_Ok get_world _ w w w eq_refl), Hfile.
  unfold mbind at 1, M_bind at 1.
  destruct (run_cmd_shown _ _ None w) as [[[]|e] w1]; reflexivity.
Qed.

(** The loop when every conversion runs to its end. *)
Lemma convert_loop_complete total args_list (results : list bool) :
  ∀ i acc w,
  (i + length results ≤ length (datafiles w))%nat →
  (∀ k b, results !! k = Some b → run_result (procs w (spawned w + k)) = Some b) →
  let out := convert_loop total (seq i (length results)) args_list acc w in
  out.1 = Ok (acc && forallb id results)
  ∧ execs (trace out.2)
    = execs (trace w)
      ++ conversions (spawned w) (take (length results) (drop i (datafiles w))) args_list
  ∧ spawned out.2 = spawned w + length results
  ∧ datafiles out.2 = datafiles w ∧ procs out.2 = procs w.
Proof.
  induction results as [|b rs IH]; intros i acc w Hlen Hres; cbv zeta.
  { simpl. rewrite andb_true_r, Nat.add_0_r.
    unfold conversions. simpl. by rewrite app_nil_r. }
  simpl in Hlen.
  destruct (lookup_lt_is_Some_2 (datafiles w) i ltac:(lia)) as [file Hfile].
  cbn [length seq]. rewrite (convert_loop_step _ _ _ _ _ _ _ Hfile). cbv zeta.
  destruct (run_cmd_shown_step (convert_shown (Path (path file)) args_list)
              (convert_args (Path (path file)) args_list) w)
    as (Hr & Hex & Hsp & Hd & Hp).
  pose proof (Hres 0 b eq_refl) as Hb0. rewrite Nat.add_0_r in Hb0.
  rewrite Hb0 in Hr. rewrite Hr. clear Hb0.
  match goal with |- context [convert_loop total _ args_list _ ?w1] =>
    set (w' := w1) end.
  assert (execs (trace w') = execs (trace w) ++
            [(spawned w, convert_args (Path (path file)) args_list)]
          ∧ spawned w' = S (spawned w) ∧ datafiles w' = datafiles w
          ∧ procs w' = procs w) as (Hex' & Hsp' & Hd' & Hp').
  { subst w'. rewrite !execs_logged, !spawned_logged, !datafiles_logged, !procs_logged
      by (by destruct b). done. }
  clearbody w'.
  destruct (IH (S i) (acc && b) w') as (Hr1 & Hex1 & Hsp1 & Hd1 & Hp1).
  { rewrite Hd'. lia. }
  { intros k b' Hk. rewrite Hp', Hsp'.
    replace (S (spawned w) + k) with (spawned w + S k) by lia. by apply (Hres (S k)). }
  cbv zeta in *. rewrite Hr1, Hex1, Hsp1, Hd1, Hp1, Hex', Hsp', Hd', Hp'.
  rewrite (take_drop_lookup _ _ _ _ Hfile), conversions_cons.
  split; [f_equal; simpl; by destruct acc, b|]. split; [by rewrite <- app_assoc|].
  split; [lia|done].
Qed.

(** The loop when the caller is cancelled during a conversion: the
    conversions after it are not started. *)
Lemma convert_loop_cancelled total args_list (results : list bool) :
  ∀ i acc w n,
  (i + n ≤ length (datafiles w))%nat → (length results < n)%nat →
  (∀ k b, results !! k = Some b → run_result (procs w (spawned w + k)) = Some b) →
  run_result (procs w (spawned w + length results)) = None →
  let out := convert_loop total (seq i n) args_list acc w in
  out.1 = Raise (CancelledError "")
  ∧ execs (trace out.2)
    = execs (trace w)
      ++ conversions (spawned w) (take (S (length results)) (drop i (datafiles w)))
           args_list.
Proof.
  induction results as [|b rs IH]; intros i acc w n Hlen Hn Hres Hcancel; cbv zeta;
    (destruct n as [|n]; [simpl in Hn; lia|]);
    destruct (lookup_lt_is_Some_2 (datafiles w) i ltac:(lia)) as [file Hfile];
    cbn [seq]; rewrite (convert_loop_step _ _ _ _ _ _ _ Hfile); cbv zeta;
    destruct (run_cmd_shown_step (convert_shown (Path (path file)) args_list)
                (convert_args (Path (path file)) args_list) w)
      as (Hr & Hex & Hsp & Hd & Hp);
    rewrite (take_drop_lookup _ _ _ _ Hfile), conversions_cons.
  { simpl in Hcancel. rewrite Nat.add_0_r in Hcancel. rewrite Hcancel in Hr.
    rewrite Hr. cbn [fst snd]. split; [done|]. rewrite Hex.
    unfold conversions. by rewrite take_0. }
  pose proof (Hres 0 b eq_refl) as Hb0. rewrite Nat.add_0_r in Hb0.
  rewrite Hb0 in Hr. rewrite Hr. clear Hb0.
  match goal with |- context [convert_loop total _ args_list _ ?w1] =>
    set (w' := w1) end.
  assert (execs (trace w') = execs (trace w) ++
            [(spawned w, convert_args (Path (path file)) args_list)]
          ∧ spawned w' = S (spawned w) ∧ datafiles w' = datafiles w
          ∧ procs w' = procs w) as (Hex' & Hsp' & Hd' & Hp').
  { subst w'. rewrite !execs_logged, !spawned_logged, !datafiles_logged, !procs_logged
      by (by destruct b). done. }
  clearbody w'.
  destruct (IH (S i) (acc && b) w' n) as (Hr1 & Hex1).
  { rewrite Hd'. lia. }
  { simpl in Hn. lia. }
  { intros k b' Hk. rewrite Hp', Hsp'.
    replace (S (spawned w) + k) with (spawned w + S k) by lia. by apply (Hres (S k)). }
  { rewrite Hp', Hsp'. simpl in Hcancel.
    by replace (S (spawned w) + length rs) with (spawned w + S (length rs)) by lia. }
  cbv zeta in *. rewrite Hr1, Hex1, Hex', Hsp', Hd'.
  split; [done|]. by rewrite <- app_assoc.
Qed.

Lemma run_cmd_step args w :
  let out := run_cmd args None w in
  out.1 = match run_result (procs w (spawned w)) with
          | Some b => Ok b
          | None => Raise (CancelledError "")
          end
  ∧ execs (trace out.2) = execs (trace w) ++ [(spawned w, args)]
  ∧ spawned out.2 = S (spawned w) ∧ datafiles out.2 = datafiles w
  ∧ procs out.2 = procs w.
Proof. rewrite run_cmd_shown_repr. apply run_cmd_shown_step. Qed.

Lemma run_conversion_run args_list w :
  run_conversion args_list w =
    match run_cmd activate_args None (before_activate w) with
    | (Raise e, w1) => (Raise e, w1)
    | (Ok false, w1) =>
        (Ok None, logged (Log ERROR "Cannot activate Spectronaut, see detailed log") w1)
    | (Ok true, w1) =>
        let total := length (datafiles w1) in
        match convert_loop total (seq 0 total) args_list true
                (before_conversion total w1) with
        | (Raise e, w2) => (Raise e, w2)
        | (Ok success, w2) =>
            match run_cmd deactivate_args None (after_conversion w2) with
            | (Raise e, w3) => (Raise e, w3)
            | (Ok deactivated, w3) =>
                (Ok (Some success), logged (deactivate_log deactivated) w3)
            end
        end
    end.
Proof.
  unfold run_conversion, before_activate, before_conversion, after_conversion, logged,
    deactivate_log, activate_args, deactivate_args.
  unfold_monad.
  destruct (run_cmd _ None _) as [[[]|] w1]; try reflexivity. simpl.
  replace (datafiles (set_trace (λ t, t ++ [Log INFO "Spectronaut activated successfully"]) w1))
    with (datafiles w1) by (by destruct w1).
  destruct (convert_loop _ _ _ _ _) as [[success|] w2]; try reflexivity; simpl.
  destruct (run_cmd _ None _) as [[[]|] w3]; reflexivity.
Qed.

(** X8: when the activation of Spectronaut fails, for whatever reason
    [run_cmd] returns false, both workflows return [None], and the last
    thing they do is to log the error: the trace is the one of the
    activation, followed by the line 'Cannot activate Spectronaut, see
    detailed log' at the level ERROR.  The activation is the only process
    they started: nothing is processed and no deactivation is attempted. *)
Theorem activation_failure args_list w :
  run_result (procs w (spawned w)) = Some false →
  let activation := run_cmd activate_args None (before_activate w) in
  let direct := run_spectronaut args_list w in
  let convert := run_conversion args_list w in
  direct.1 = Ok None ∧ convert.1 = Ok None
  ∧ execs (trace direct.2) = execs (trace w) ++ [(spawned w, activate_args)]
  ∧ execs (trace convert.2) = execs (trace w) ++ [(spawned w, activate_args)]
  ∧ trace direct.2
    = trace activation.2 ++ [Log ERROR "Cannot activate Spectronaut, see detailed log"]
  ∧ trace convert.2
    = trace activation.2 ++ [Log ERROR "Cannot activate Spectronaut, see detailed log"].
Proof.
  intros Hfail. cbv zeta. rewrite run_spectronaut_run, run_conversion_run.
  destruct (run_cmd_step activate_args (before_activate w)) as (Hr & Hex & _).
  unfold before_activate in Hr at 2 3, Hex at 2 3.
  rewrite procs_logged, spawned_logged, Hfail in Hr.
  rewrite execs_logged, spawned_logged in Hex by done.
  destruct (run_cmd activate_args None (before_activate w)) as [r w1].
  cbn [fst snd] in *. subst r. cbn [fst snd].
  rewrite execs_logged by done. by destruct w1.
Qed.

(** X9: when no run is cancelled, the Convert workflow starts one
    conversion per row of the file table, in the order of the table and
    with the path of the row, between the activation and the deactivation.
    A failed conversion does not stop the later ones; the result is true
    exactly when every conversion returned true, whatever the deactivation
    returned. *)
Theorem run_conversion_all args_list w (results : list bool) (deactivated : bool) :
  let first := S (spawned w) in
  let out := run_conversion args_list w in
  run_result (procs w (spawned w)) = Some true →
  length results = length (datafiles w) →
  (∀ k b, results !! k = Some b → run_result (procs w (first + k)) = Some b) →
  run_result (procs w (first + length results)) = Some deactivated →
  out.1 = Ok (Some (forallb id results))
  ∧ execs (trace out.2)
    = execs (trace w)
      ++ [(spawned w, activate_args)]
      ++ conversions first (datafiles w) args_list
      ++ [(first + length results, deactivate_args)].
Proof.
  cbv zeta. intros Hact Hlen Hres Hdeact. rewrite run_conversion_run.
  destruct (run_cmd_step activate_args (before_activate w))
    as (Hr & Hex & Hsp & Hd & Hp).
  unfold before_activate in Hr at 2 3, Hex at 2 3, Hsp at 2, Hd at 2, Hp at 2.
  rewrite procs_logged, spawned_logged, Hact in Hr.
  rewrite execs_logged, spawned_logged in Hex by done.
  rewrite spawned_logged in Hsp. rewrite datafiles_logged in Hd.
  rewrite procs_logged in Hp.
  destruct (run_cmd activate_args None (before_activate w)) as [r w1].
  cbn [fst snd] in *. subst r. cbv zeta. rewrite Hd, <- Hlen.
  set (w1' := before_conversion (length results) w1).
  assert (execs (trace w1') = execs (trace w) ++ [(spawned w, activate_args)]
          ∧ spawned w1' = S (spawned w) ∧ datafiles w1' = datafiles w
          ∧ procs w1' = procs w) as (Hex' & Hsp' & Hd' & Hp').
  { subst w1'. unfold before_conversion.
    rewrite !execs_logged, !spawned_logged, !datafiles_logged, !procs_logged by done.
    done. }
  clearbody w1'.
  destruct (convert_loop_complete (length results) args_list results 0 true w1')
    as (Hr2 & Hex2 & Hsp2 & Hd2 & Hp2).
  { rewrite Hd'. lia. }
  { intros k b Hk. rewrite Hp', Hsp'. by apply Hres. }
  cbv zeta in *. rewrite drop_0, Hd', Hlen, firstn_all in Hex2. rewrite <- Hlen in *.
  destruct (convert_loop _ _ _ _ w1') as [r2 w2]. cbn [fst snd] in *. subst r2.
  cbn [andb].
  destruct (run_cmd_step deactivate_args (after_conversion w2))
    as (Hr3 & Hex3 & _).
  unfold after_conversion in Hr3 at 2 3, Hex3 at 2 3.
  rewrite !procs_logged, !spawned_logged, Hp2, Hsp2, Hp', Hsp', Hdeact in Hr3.
  rewrite !execs_logged, !spawned_logged, Hex2, Hsp2, Hex', Hsp' in Hex3 by done.
  destruct (run_cmd deactivate_args None (after_conversion w2)) as [r3 w3].
  cbn [fst snd] in *. subst r3. cbn [fst snd].
  split; [done|]. rewrite execs_logged by (by destruct deactivated).
  rewrite Hex3, <- !app_assoc. done.
Qed.

(** X10: when the caller is cancelled during a conversion, the
    cancellation leaves the Convert workflow at once: the rows after it are
    not converted and Spectronaut is not deactivated. *)
Theorem run_conversion_cancelled args_list w (results : list bool) :
  let first := S (spawned w) in
  let out := run_conversion args_list w in
  run_result (procs w (spawned w)) = Some true →
  (length results < length (datafiles w))%nat →
  (∀ k b, results !! k = Some b → run_result (procs w (first + k)) = Some b) →
  run_result (procs w (first + length results)) = None →
  out.1 = Raise (CancelledError "")
  ∧ execs (trace out.2)
    = execs (trace w)
      ++ [(spawned w, activate_args)]
      ++ conversions first (take (S (length results)) (datafiles w)) args_list.
Proof.
  cbv zeta. intros Hact Hlen Hres Hcancel. rewrite run_conversion_run.
  destruct (run_cmd_step activate_args (before_activate w))
    as (Hr & Hex & Hsp & Hd & Hp).
  unfold before_activate in Hr at 2 3, Hex at 2 3, Hsp at 2, Hd at 2, Hp at 2.
  rewrite procs_logged, spawned_logged, Hact in Hr.
  rewrite execs_logged, spawned_logged in Hex by done.
  rewrite spawned_logged in Hsp. rewrite datafiles_logged in Hd.
  rewrite procs_logged in Hp.
  destruct (run_cmd activate_args None (before_activate w)) as [r w1].
  cbn [fst snd] in *. subst r. cbv zeta. rewrite Hd.
  set (total := length (datafiles w)) in *.
  set (w1' := before_conversion total w1).
  assert (execs (trace w1') = execs (trace w) ++ [(spawned w, activate_args)]
          ∧ spawned w1' = S (spawned w) ∧ datafiles w1' = datafiles w
          ∧ procs w1' = procs w) as (Hex' & Hsp' & Hd' & Hp').
  { subst w1'. unfold before_conversion.
    rewrite !execs_logged, !spawned_logged, !datafiles_logged, !procs_logged by done.
    done. }
  clearbody w1'.
  destruct (convert_loop_cancelled total args_list results 0 true w1' total)
    as (Hr2 & Hex2).
  { rewrite Hd'. subst total. lia. }
  { done. }
  { intros k b Hk. rewrite Hp', Hsp'. by apply Hres. }
  { by rewrite Hp', Hsp'. }
  cbv zeta in *. rewrite drop_0, Hd', Hex', Hsp' in Hex2.
  destruct (convert_loop _ _ _ _ w1') as [r2 w2]. cbn [fst snd] in *. subst r2.
  cbn [fst snd]. split; [done|]. by rewrite Hex2, <- app_assoc.
Qed.
End ConvertFacts.

Lemma activation_failure_witness :
  (@run_spectronaut default_config ["-o"; "/out"] unlicensed_world).1 = Ok None
  ∧ (@run_conversion posix default_config ["-o"; "/out"] unlicensed_world).1 = Ok None
  ∧ execs (trace (@run_spectronaut default_config ["-o"; "/out"] unlicensed_world).2)
    = execs (trace unlicensed_world) ++ [(0, @activate_args default_config)]
  ∧ execs (trace (@run_conversion posix default_config ["-o"; "/out"] unlicensed_world).2)
    = execs (trace unlicensed_world) ++ [(0, @activate_args default_config)]
  ∧ trace (@run_spectronaut default_config ["-o"; "/out"] unlicensed_world).2
    = trace (run_cmd (@activate_args default_config) None
               (before_activate unlicensed_world)).2
      ++ [Log ERROR "Cannot activate Spectronaut, see detailed log"]
  ∧ trace (@run_conversion posix default_config ["-o"; "/out"] unlicensed_world).2
    = trace (run_cmd (@activate_args default_config) None
               (before_activate unlicensed_world)).2
      ++ [Log ERROR "Cannot activate Spectronaut, see detailed log"].
Proof.
  apply (@activation_failure posix default_config ["-o"; "/out"] unlicensed_world).
  vm_compute. reflexivity.
Defined.

Lemma run_conversion_all_witness :
  (@run_conversion posix default_config ["-o"; "/out"] convert_world).1
  = Ok (Some (forallb id [false; true]))
  ∧ execs (trace (@run_conversion posix default_config ["-o"; "/out"] convert_world).2)
    = execs (trace convert_world)
      ++ [(0, @activate_args default_config)]
      ++ @conversions posix default_config 1 [thermo_file; bruker_file] ["-o"; "/out"]
      ++ [(1 + 2, @deactivate_args default_config)].
Proof.
  apply (@run_conversion_all posix default_config ["-o"; "/out"] convert_world
           [false; true] true).
  - vm_compute. reflexivity.
  - reflexivity.
  - intros [|[|k]] b; simpl; intros [= <-]; vm_compute; reflexivity.
  - vm_compute. reflexivity.
Defined.

Lemma run_conversion_cancelled_witness :
  (@run_conversion posix default_config ["-o"; "/out"] cancelled_convert_world).1
  = Raise (CancelledError "")
  ∧ execs (trace (@run_conversion posix default_config ["-o"; "/out"]
                    cancelled_convert_world).2)
    = execs (trace cancelled_convert_world)
      ++ [(0, @activate_args default_config)]
      ++ @conversions posix default_config 1
           (take 2 [thermo_file; bruker_file; bruker_zip_file]) ["-o"; "/out"].
Proof.
  apply (@run_conversion_cancelled posix default_config ["-o"; "/out"]
           cancelled_convert_world [true]).
  - vm_compute. reflexivity.
  - simpl. lia.
  - intros [|k] b; simpl; intros [= <-]; vm_compute; reflexivity.
  - vm_compute. reflexivity.
Defined.

(** ** Replicate numbers assigned in the UI *)

Section AssignFacts.
Implicit Types (filetable rows : list datafile) (k : string * string)
  (groups : gmap (string * string) nat).

Lemma replicate_key_with_replicate d r : replicate_key (with_replicate d r) = replicate_key d.
Proof. reflexivity. Qed.

Lemma foldl_groups_lookup rows groups k :
  foldl (λ groups d, <[replicate_key d := 1]> groups) groups rows !! k
  = if decide (k ∈ replicate_key <$> rows) then Some 1 else groups !! k.
Proof.
  revert groups. induction rows as [|d rows IH]; intros groups.
  { cbn [foldl fmap list_fmap]. destruct (decide _) as [Hin|]; [|done].
    by apply elem_of_nil in Hin. }
  cbn [foldl]. rewrite IH. rewrite fmap_cons.
  destruct (decide (k ∈ replicate_key <$> rows)) as [Hin|Hnin];
    destruct (decide (k ∈ replicate_key d :: (replicate_key <$> rows))) as [Hin'|Hnin'];
    try done.
  - exfalso. apply Hnin'. by apply list_elem_of_further.
  - apply elem_of_cons in Hin' as [->|?]; [|done]. by rewrite lookup_insert_eq.
  - rewrite lookup_insert_ne; [done|]. intros <-. apply Hnin', list_elem_of_here.
Qed.


Lemma group_rows_cons k d rows :
  group_rows k (d :: rows)
  = if decide (replicate_key d = k) then d :: group_rows k rows else group_rows k rows.
Proof. unfold group_rows. by rewrite filter_cons. Qed.

(** The loop numbers the rows of a group from the counter of the group. *)
Lemma assign_rows_group rows : ∀ groups k entry,
  groups !! k = Some entry →
  replicate <$> group_rows k (assign_rows groups rows)
  = pretty <$> seq entry (length (group_rows k rows)).
Proof.
  induction rows as [|d rows IH]; intros groups k entry Hk; [done|].
  cbn [assign_rows]. destruct (groups !! replicate_key d) as [e|] eqn:Hd.
  - rewrite !group_rows_cons, replicate_key_with_replicate.
    destruct (decide (replicate_key d = k)) as [Heq|Hne].
    + rewrite Heq, Hk in Hd. injection Hd as <-. cbn [length seq fmap list_fmap].
      f_equal. rewrite (IH _ k (S entry)); [done|].
      rewrite Heq, lookup_insert_eq. f_equal. lia.
    + apply IH. by rewrite lookup_insert_ne.
  - rewrite !group_rows_cons. destruct (decide (replicate_key d = k)) as [Heq|Hne].
    + congruence.
    + by apply IH.
Qed.

Lemma assign_rows_others rows : ∀ groups,
  (λ d, with_replicate d "") <$> assign_rows groups rows
  = (λ d, with_replicate d "") <$> rows.
Proof.
  induction rows as [|d rows IH]; intros groups; [done|].
  cbn [assign_rows]. destruct (groups !! replicate_key d); simpl; by rewrite IH.
Qed.


End AssignFacts.

(** X11: [_assign_replicates] numbers the rows of each group of equal
    condition and fraction 1, 2, ..., n in the order of the table, as
    strings; it changes no other field and no other part of the state, and
    keeps the number of rows. *)
Theorem _assign_replicates_ranks (w : world) (k : string * string) :
  let out := _assign_replicates w in
  out.1 = Ok tt
  ∧ datafiles out.2 = numbered (datafiles w)
  ∧ replicate <$> group_rows k (datafiles out.2)
    = pretty <$> seq 1 (length (group_rows k (datafiles w)))
  ∧ (λ d, with_replicate d "") <$> datafiles out.2
    = (λ d, with_replicate d "") <$> datafiles w
  ∧ fs out.2 = fs w ∧ execs (trace out.2) = execs (trace w).
Proof.
  cbv zeta. unfold _assign_replicates. unfold_monad. destruct w as [f d a r q c s t pr ar ce].
  simpl. split; [done|]. split; [done|]. split; [|split].
  - destruct (decide (k ∈ replicate_key <$> d)) as [Hin|Hnin].
    + apply assign_rows_group. unfold replicate_groups.
      rewrite foldl_groups_lookup. by destruct (decide _).
    + assert (∀ rows, (∀ x, x ∈ rows → replicate_key x ≠ k) → group_rows k rows = [])
        as Hnone.
      { intros rows Hrows. induction rows as [|x rows IH]; [done|].
        rewrite group_rows_cons, decide_False by (apply Hrows, list_elem_of_here).
        apply IH. intros y Hy. by apply Hrows, list_elem_of_further. }
      rewrite !Hnone; [done| |].
      * intros x Hx Hk. apply Hnin. rewrite <- Hk. by apply list_elem_of_fmap_2.
      * intros x Hx Hk. apply Hnin. rewrite <- Hk.
        assert (replicate_key <$> assign_rows (replicate_groups d) d = replicate_key <$> d)
          as <-; [|by apply list_elem_of_fmap_2].
        pose proof (assign_rows_others d (replicate_groups d)) as Ho.
        apply (f_equal (fmap replicate_key)) in Ho.
        by rewrite <- !list_fmap_compose in Ho.
  - apply assign_rows_others.
  - split; [done|]. by rewrite execs_snoc_silent.
Qed.





(** ** The log handler *)

Section SplitFacts.
Local Open Scope nat_scope.
Implicit Types (s msg : string) (n m w k : nat).

Lemma substring_skip n m l s : substring (n + m) l s = substring m l (skip n s).
Proof.
  revert s. induction n as [|n IH]; intros s; [done|].
  destruct s as [|a s]; simpl.
  - by destruct m, l.
  - apply IH.
Qed.

Lemma append_cons a s t : String a s +:+ t = String a (s +:+ t).
Proof. reflexivity. Qed.

Lemma take_skip n s : substring 0 n s +:+ skip n s = s.
Proof.
  revert s. induction n as [|n IH]; intros s.
  - by destruct s.
  - destruct s as [|a s]; [done|]. simpl. by rewrite append_cons, IH.
Qed.

Lemma length_skip n s : String.length (skip n s) = String.length s - n.
Proof.
  revert s. induction n as [|n IH]; intros s; simpl; [lia|].
  destruct s as [|a s]; simpl; [done|]. apply IH.
Qed.

Lemma length_take n s : String.length (substring 0 n s) = n `min` String.length s.
Proof.
  revert s. induction n as [|n IH]; intros s.
  - by destruct s.
  - destruct s as [|a s]; [done|]. simpl. by rewrite IH.
Qed.

Lemma substring_empty n s : String.length s ≤ n → substring 0 n s = s.
Proof.
  revert s. induction n as [|n IH]; intros s Hs.
  - destruct s; [done|]. simpl in Hs. lia.
  - destruct s as [|a s]; [done|]. simpl in *. rewrite IH; [done|lia].
Qed.

Lemma join_empty_cons x (l : list string) : join "" (x :: l) = x +:+ join "" l.
Proof.
  destruct l as [|y l]; cbn [join]; [|reflexivity].
  induction x as [|a x IH]; [done|]. by rewrite append_cons, <- IH.
Qed.

(** The chunks of [m] windows of width [w] cover a string of at most
    [m * w] characters. *)
Lemma chunks_join w : ∀ m s,
  String.length s ≤ m * w →
  join "" ((λ k, substring (k * w) w s) <$> seq 0 m) = s.
Proof.
  induction m as [|m IH]; intros s Hs.
  { destruct s; [done|]. simpl in Hs. lia. }
  cbn [seq fmap list_fmap]. rewrite join_empty_cons, <- fmap_S_seq, <- list_fmap_compose.
  rewrite (list_fmap_ext _ (λ k, substring (k * w) w (skip w s)) (seq 0 m)).
  - rewrite IH; [apply take_skip|]. rewrite length_skip. lia.
  - intros i k _. simpl. by rewrite <- substring_skip.
Qed.

Lemma chunk_count n w : 0 < w → n ≤ (n + w - 1) / w * w.
Proof.
  intros Hw. pose proof (Nat.div_mod (n + w - 1) w ltac:(lia)) as Hdiv.
  pose proof (Nat.mod_upper_bound (n + w - 1) w ltac:(lia)). nia.
Qed.

Lemma chunk_start n w k : 0 < w → k < (n + w - 1) / w → k * w < n.
Proof.
  intros Hw Hk. pose proof (Nat.div_mod (n + w - 1) w ltac:(lia)) as Hdiv.
  pose proof (Nat.mod_upper_bound (n + w - 1) w ltac:(lia)). nia.
Qed.

Lemma length_substring n m s :
  String.length (substring n m s) = m `min` (String.length s - n).
Proof.
  rewrite <- (Nat.add_0_r n), substring_skip, length_take, length_skip. lia.
Qed.

Lemma splits_join w msg : 0 < w → join "" (splits w msg) = msg.
Proof.
  intros Hw. unfold splits, range_step. rewrite <- list_fmap_compose.
  apply chunks_join. by apply chunk_count.
Qed.

Lemma splits_lengths w msg :
  0 < w → Forall (λ c, 0 < String.length c ≤ w) (splits w msg).
Proof.
  intros Hw. unfold splits, range_step. rewrite <- list_fmap_compose.
  apply Forall_fmap, Forall_forall. intros k Hk%elem_of_seq. simpl.
  rewrite length_substring.
  pose proof (chunk_start (String.length msg) w k Hw ltac:(lia)). lia.
Qed.
End SplitFacts.

(** X13: the log handler cuts a message into consecutive pieces of at
    most 160 characters, none of them empty, which put together are the
    message: no character is lost, repeated or reordered.  A message of at
    most 160 characters is pushed as it is. *)
Theorem LogElementHandler_emit_chunks (lvl : level) (msg : string) :
  join "" (splits 160 msg) = msg
  ∧ Forall (λ c, (0 < String.length c ≤ 160)%nat) (splits 160 msg)
  ∧ ((String.length msg ≤ 160)%nat → (LogElementHandler_emit lvl msg).1 = msg).
Proof.
  split; [apply splits_join; lia|]. split; [apply splits_lengths; lia|].
  intros Hshort. unfold LogElementHandler_emit. cbn [fst].
  unfold splits, range_step.
  destruct (decide (String.length msg = 0)) as [Hz|Hnz].
  - rewrite Hz. destruct msg; [done|discriminate].
  - assert ((String.length msg + 160 - 1) / 160 = 1) as ->.
    { symmetry. apply Nat.div_unique with (String.length msg - 1); lia. }
    cbn [seq fmap list_fmap join]. by apply substring_empty.
Qed.

(** ** The file table of the UI *)

Lemma elem_of_insert_by key x y l : y ∈ insert_by key x l ↔ y = x ∨ y ∈ l.
Proof.
  induction l as [|z l IH]; simpl.
  - rewrite list_elem_of_singleton, elem_of_nil. tauto.
  - destruct (String.leb (key x) (key z)).
    + by rewrite elem_of_cons.
    + rewrite !elem_of_cons, IH. tauto.
Qed.

Lemma elem_of_sort_by key x l : x ∈ sort_by key l ↔ x ∈ l.
Proof.
  induction l as [|y l IH]; simpl; [done|].
  rewrite elem_of_insert_by, elem_of_cons, IH. tauto.
Qed.

Section TableFacts.
Context `{!PythonLib, !PathSuffix}.
Implicit Types (w : world) (paths : list string) (p : string).

Lemma existsb_path p (l : list datafile) :
  existsb (λ d, bool_decide (path d = p)) l = bool_decide (p ∈ path <$> l).
Proof.
  induction l as [|d l IH].
  - symmetry. apply bool_decide_eq_false_2. rewrite fmap_nil. apply not_elem_of_nil.
  - cbn [existsb]. rewrite IH, fmap_cons.
    destruct (decide (path d = p)) as [Heq|Hne].
    + rewrite (bool_decide_eq_true_2 _ Heq). symmetry. apply bool_decide_eq_true_2.
      rewrite Heq. apply list_elem_of_here.
    + rewrite (bool_decide_eq_false_2 _ Hne). cbn [orb].
      apply bool_decide_ext. rewrite elem_of_cons. split; [auto|].
      intros [?|?]; [congruence|done].
Qed.

(** The loop: rows are appended, for paths that the table does not hold. *)
Lemma add_rows_run paths : ∀ added w,
  let out := add_rows paths added w in
  ∃ rows,
    out.1 = Ok (added + length rows)
    ∧ out.2 = set_datafiles (λ l, l ++ rows) w
    ∧ Forall (λ d, ∃ p, p ∈ paths ∧ (p ∉ path <$> datafiles w) ∧ d = new_row p w) rows.
Proof.
  induction paths as [|p paths IH]; intros added w; cbv zeta.
  { exists []. simpl. rewrite Nat.add_0_r. split; [done|]. split; [|done].
    destruct w. unfold set_datafiles. simpl. by rewrite app_nil_r. }
  cbn [add_rows]. rewrite (run_bind_Ok get_world _ w w w eq_refl), existsb_path.
  case_bool_decide as Hin.
  - destruct (IH added w) as (rows & Hr & Hw & Hrows). exists rows.
    split; [done|]. split; [done|].
    eapply Forall_impl; [exact Hrows|]. intros d (q & Hq & ? & ?).
    exists q. split; [by apply list_elem_of_further|done].
  - rewrite (run_bind_Ok (modify _) _ w tt _ eq_refl).
    set (w1 := set_datafiles (λ l, l ++ [new_row p w]) w).
    destruct (IH (added + 1) w1) as (rows & Hr & Hw & Hrows).
    exists (new_row p w :: rows). cbv zeta in *.
    split; [rewrite Hr; simpl; f_equal; lia|]. split.
    { rewrite Hw. subst w1. destruct w. unfold set_datafiles. simpl.
      by rewrite <- app_assoc. }
    constructor.
    + exists p. split; [apply list_elem_of_here|done].
    + eapply Forall_impl; [exact Hrows|]. intros d (q & Hq & Hnin & ->).
      exists q. split; [by apply list_elem_of_further|]. split.
      * intros Hq'. apply Hnin. subst w1. destruct w. simpl in *.
        rewrite fmap_app. apply elem_of_app. by left.
      * subst w1. by destruct w.
Qed.

(** X14: [add_to_datafiles] only appends: the rows of the table stay as
    they are, each new row is the row of one of the given paths that the
    table did not hold, with blank replicate, condition and fraction and no
    reference mark; the notification counts the new rows.  Nothing on disk
    is touched. *)
Theorem add_to_datafiles_appends paths w :
  let out := add_to_datafiles paths w in
  ∃ rows,
    out.1 = Ok tt
    ∧ datafiles out.2 = datafiles w ++ rows
    ∧ trace out.2 = trace w ++ [Notify ("Added " +:+ pretty (length rows) +:+ " items")]
    ∧ fs out.2 = fs w
    ∧ Forall (λ d, replicate d = "" ∧ condition d = "" ∧ fraction d = ""
                   ∧ reference d = false
                   ∧ ∃ p, p ∈ paths ∧ (p ∉ path <$> datafiles w) ∧ d = new_row p w) rows.
Proof.
  cbv zeta. unfold add_to_datafiles.
  set (sorted := if bool_decide (0 < length paths)%nat then sort_by sort_key paths
                 else paths).
  assert (∀ p, p ∈ sorted → p ∈ paths) as Hsorted.
  { intros p. subst sorted. case_bool_decide; [|done]. by rewrite elem_of_sort_by. }
  destruct (add_rows_run sorted 0 w) as (rows & Hr & Hw & Hrows). cbv zeta in *.
  exists rows. destruct (add_rows sorted 0 w) as [r w1] eqn:Hrun. cbn [fst snd] in *.
  subst r w1. rewrite (run_bind_Ok _ _ _ _ _ Hrun). clear Hrun.
  unfold emit, modify. cbn [fst snd].
  destruct w. simpl in *. split; [done|]. split; [done|]. split; [done|].
  split; [done|].
  eapply Forall_impl; [exact Hrows|]. intros d (p & Hp & Hnin & ->).
  repeat split; try done. exists p. auto.
Qed.

Lemma add_rows_nodup paths : ∀ added w,
  Forall (λ p, Path p = p) paths → NoDup (path <$> datafiles w) →
  let out := add_rows paths added w in
  NoDup (path <$> datafiles out.2)
  ∧ (∀ p, p ∈ paths → p ∈ path <$> datafiles out.2)
  ∧ (∀ q, q ∈ path <$> datafiles w → q ∈ path <$> datafiles out.2).
Proof.
  induction paths as [|p paths IH]; intros added w Hnorm Hnodup; cbv zeta.
  { simpl. split; [done|]. split; [|done]. by intros p Hp%elem_of_nil. }
  apply Forall_cons in Hnorm as [Hp Hnorm].
  cbn [add_rows]. rewrite (run_bind_Ok get_world _ w w w eq_refl), existsb_path.
  case_bool_decide as Hin.
  - destruct (IH added w Hnorm Hnodup) as (Hnd & Hall & Hold).
    split; [done|]. split; [|done].
    intros q [->|Hq]%elem_of_cons; [by apply Hold|by apply Hall].
  - rewrite (run_bind_Ok (modify _) _ w tt _ eq_refl).
    set (w1 := set_datafiles (λ l, l ++ [new_row p w]) w).
    assert (path <$> datafiles w1 = (path <$> datafiles w) ++ [p]) as Hw1.
    { subst w1. destruct w. simpl. rewrite fmap_app. simpl. by rewrite Hp. }
    destruct (IH (added + 1) w1 Hnorm) as (Hnd & Hall & Hold).
    { rewrite Hw1. apply NoDup_app. split; [done|]. split; [|apply NoDup_singleton].
      intros q Hq ->%list_elem_of_singleton. done. }
    split; [done|]. split.
    + intros q [->|Hq]%elem_of_cons; [|by apply Hall].
      apply Hold. rewrite Hw1. apply elem_of_app. right. apply list_elem_of_here.
    + intros q Hq. apply Hold. rewrite Hw1. apply elem_of_app. by left.
Qed.

(** X15: when the given paths are in the form [Path] prints them and no
    path occurs twice in the table, [add_to_datafiles] keeps it so, and
    afterwards the table holds every given path: a path is never listed
    twice, however often it is added. *)
Theorem add_to_datafiles_no_duplicates paths w :
  Forall (λ p, Path p = p) paths → NoDup (path <$> datafiles w) →
  let out := add_to_datafiles paths w in
  NoDup (path <$> datafiles out.2)
  ∧ ∀ p, p ∈ paths → p ∈ path <$> datafiles out.2.
Proof.
  intros Hnorm Hnodup. cbv zeta. unfold add_to_datafiles.
  set (sorted := if bool_decide (0 < length paths)%nat then sort_by sort_key paths
                 else paths).
  assert (∀ p, p ∈ sorted ↔ p ∈ paths) as Hsorted.
  { intros p. subst sorted. case_bool_decide; [|done]. by rewrite elem_of_sort_by. }
  destruct (add_rows_nodup sorted 0 w) as (Hnd & Hall & _); [|done|].
  { rewrite Forall_forall in *. intros p Hp. by apply Hnorm, Hsorted. }
  destruct (add_rows_run sorted 0 w) as (rows & Hr & _). cbv zeta in *.
  destruct (add_rows sorted 0 w) as [r w1] eqn:Hrun. cbn [fst snd] in *. subst r.
  rewrite (run_bind_Ok _ _ _ _ _ Hrun). unfold emit, modify. cbn [snd].
  replace (datafiles (set_trace _ w1)) with (datafiles w1) by (by destruct w1).
  split; [done|]. intros p Hp. by apply Hall, Hsorted.
Qed.
End TableFacts.

(** A type that [validate_filetable] does not know makes it reject. *)
Lemma validate_rejects_unsupported (filetable : list datafile) (f : datafile) :
  f ∈ filetable → type f ∉ supported_types → validate_filetable filetable = false.
Proof.
  intros Hf Hun.
  assert (type f ∈ types_of filetable) as Ht by (apply elem_of_types_of; eauto).
  assert (type f ≠ "Thermo Raw" ∧ type f ≠ "Bruker D" ∧ type f ≠ "Bruker D Zip")
    as (H1 & H2 & H3).
  { unfold supported_types in Hun. rewrite !not_elem_of_cons in Hun. tauto. }
  rewrite validate_filetable_unfold. cbv zeta.
  repeat case_bool_decide; simpl; try reflexivity; exfalso;
    try match goal with
        | H : size _ = 1, H' : "Thermo Raw" ∈ _ |- _ =>
            by pose proof (size_one_same _ _ _ H Ht H')
        | H : size _ = 1, H' : "Bruker D" ∈ _ |- _ =>
            by pose proof (size_one_same _ _ _ H Ht H')
        | H : size _ = 1, H' : "Bruker D Zip" ∈ _ |- _ =>
            by pose proof (size_one_same _ _ _ H Ht H')
        | H : size _ = 2, Hd : "Bruker D" ∈ _, Hz : "Bruker D Zip" ∈ _ |- _ =>
            pose proof (size_three _ (type f) "Bruker D" "Bruker D Zip"
                          H2 H3 ltac:(discriminate) Ht Hd Hz); lia
        end.
Qed.

(** X16: a file table that [validate_filetable] accepts holds only rows
    of the three types it knows: one row of type 'Folder' or 'File', as
    [check_type] gives them, makes the whole table invalid. *)
Theorem validate_filetable_supported (filetable : list datafile) :
  validate_filetable filetable = true →
  Forall (λ f, type f ∈ supported_types) filetable.
Proof.
  intros Hvalid. apply Forall_forall. intros f Hf.
  destruct (decide (type f ∈ supported_types)) as [|Hun]; [done|].
  by rewrite (validate_rejects_unsupported _ _ Hf Hun) in Hvalid.
Qed.

Lemma validate_filetable_supported_witness :
  Forall (λ f, type f ∈ supported_types) [bruker_file; bruker_zip_file].
Proof. apply (validate_filetable_supported [bruker_file; bruker_zip_file]). reflexivity. Defined.

(** X17: [add_to_datafiles] does not look whether a path exists: a path
    with nothing on disk is added as a row of type 'File', and the table
    that holds it is rejected by [validate_filetable]. *)
Theorem missing_path_rejected `{!PythonLib, !PathSuffix} (p : string) (w : world) :
  fs w !! Path p = None → p ∉ path <$> datafiles w →
  let out := add_to_datafiles [p] w in
  datafiles out.2 = datafiles w ++ [new_row p w]
  ∧ type (new_row p w) = "File"
  ∧ validate_filetable (datafiles out.2) = false.
Proof.
  intros Hmissing Hnew. cbv zeta.
  assert (type (new_row p w) = "File") as Htype.
  { unfold new_row, check_type, is_dir, is_file. simpl. by rewrite Hmissing. }
  assert (datafiles (add_to_datafiles [p] w).2 = datafiles w ++ [new_row p w]) as Hrows.
  { unfold add_to_datafiles. simpl. unfold mbind at 1, M_bind at 1.
    rewrite (run_bind_Ok get_world _ w w w eq_refl), existsb_path.
    rewrite bool_decide_eq_false_2 by done.
    rewrite (run_bind_Ok (modify _) _ w tt _ eq_refl).
    unfold mret, M_ret, emit, modify. simpl. by destruct w. }
  split; [done|]. split; [done|]. rewrite Hrows.
  apply (validate_rejects_unsupported _ (new_row p w)).
  - apply elem_of_app. right. apply list_elem_of_here.
  - rewrite Htype. unfold supported_types. rewrite !not_elem_of_cons.
    repeat split; try discriminate. apply not_elem_of_nil.
Qed.

Lemma add_to_datafiles_no_duplicates_witness :
  NoDup (path <$> datafiles (@add_to_datafiles posix posix_suffixes_instance
                               ["/work/b.d"; "/work/a.raw"] sample_world).2)
  ∧ ∀ p, p ∈ ["/work/b.d"; "/work/a.raw"] →
         p ∈ path <$> datafiles (@add_to_datafiles posix posix_suffixes_instance
                                   ["/work/b.d"; "/work/a.raw"] sample_world).2.
Proof.
  apply (@add_to_datafiles_no_duplicates posix posix_suffixes_instance
           ["/work/b.d"; "/work/a.raw"] sample_world).
  - repeat constructor.
  - simpl. apply NoDup_singleton.
Defined.

Lemma missing_path_rejected_witness :
  datafiles (@add_to_datafiles posix posix_suffixes_instance
               ["/work/missing.raw"] sample_world).2
  = datafiles sample_world
    ++ [@new_row posix posix_suffixes_instance "/work/missing.raw" sample_world]
  ∧ type (@new_row posix posix_suffixes_instance "/work/missing.raw" sample_world) = "File"
  ∧ validate_filetable
      (datafiles (@add_to_datafiles posix posix_suffixes_instance
                    ["/work/missing.raw"] sample_world).2) = false.
Proof.
  apply (@missing_path_rejected posix posix_suffixes_instance
           "/work/missing.raw" sample_world).
  - vm_compute. reflexivity.
  - simpl. intros [Heq|[]%elem_of_nil]%elem_of_cons. discriminate.
Defined.

(** The rows that [check_type] types on the sample disk. *)
Example check_type_sample :
  (λ p, @check_type posix posix_suffixes_instance p sample_world)
    <$> ["/work/a.raw"; "/work/b.d"; "/work"; "/work/notes.txt"; "/work/c.D.ZIP";
         "/work/missing.d"]
  = ["Thermo Raw"; "Bruker D"; "Folder"; "File"; "Bruker D Zip"; "File"].
Proof. vm_compute. reflexivity. Qed.

(** ** The configuration *)

(** X18: [load_config] gives every key of the defaults a value; the
    license key of the environment goes before the one of the file, and the
    values of the file go before the defaults.  A file that cannot be read
    or is no JSON is reported in the log and the defaults are used; only an
    exception of another kind leaves [load_config]. *)
Theorem load_config_precedence `{!PythonLib} (home : string) (disk : string → config_file)
    (env_key : option string) (config_path : option string) (w : world) :
  let location := config_location home config_path in
  let out := load_config home disk env_key config_path w in
  (∀ e, disk location ≠ OtherError e) →
  ∃ config,
    out.1 = Ok config
    ∧ dom DEFAULT_CONFIG ⊆ dom config
    ∧ config !! "spectronaut_key"
      = match env_key, disk location with
        | Some key, _ => Some (JStr key)
        | None, Parsed user_config =>
            Some (default JNull (user_config !! "spectronaut_key"))
        | None, _ => Some JNull
        end
    ∧ (∀ key, key ≠ "spectronaut_key" →
         config !! key
         = match disk location with
           | Parsed user_config =>
               match user_config !! key with
               | Some v => Some v
               | None => DEFAULT_CONFIG !! key
               end
           | _ => DEFAULT_CONFIG !! key
           end)
    ∧ trace out.2
      = trace w ++ match disk location with
                   | ReadError msg | DecodeError msg => unusable_config location msg
                   | _ => []
                   end.
Proof.
  cbv zeta. intros Hother. unfold load_config. fold (config_location home config_path).
  set (location := config_location home config_path) in *. clearbody location.
  assert (∀ (m : gmap string jval) key v, dom m ⊆ dom (<[key := v]> m)) as Hdom.
  { intros m key v. rewrite dom_insert. apply union_subseteq_r. }
  destruct (disk location) as [|msg|msg|e|user_config] eqn:Hfile.
  - unfold_monad. simpl. rewrite app_nil_r.
    destruct env_key as [key|]; eexists; (split; [reflexivity|]).
    + split; [apply Hdom|]. split; [apply lookup_insert_eq|].
      split; [|done]. intros k Hk. by rewrite lookup_insert_ne.
    + repeat split; done.
  - unfold_monad. destruct w. simpl. rewrite <- app_assoc.
    destruct env_key as [key|]; eexists; (split; [reflexivity|]).
    + split; [apply Hdom|]. split; [apply lookup_insert_eq|].
      split; [|done]. intros k Hk. by rewrite lookup_insert_ne.
    + repeat split; done.
  - unfold_monad. destruct w. simpl. rewrite <- app_assoc.
    destruct env_key as [key|]; eexists; (split; [reflexivity|]).
    + split; [apply Hdom|]. split; [apply lookup_insert_eq|].
      split; [|done]. intros k Hk. by rewrite lookup_insert_ne.
    + repeat split; done.
  - by destruct (Hother e).
  - unfold_monad. simpl. rewrite app_nil_r.
    assert (∀ key, (user_config ∪ DEFAULT_CONFIG) !! key
                   = match user_config !! key with
                     | Some v => Some v
                     | None => DEFAULT_CONFIG !! key
                     end) as Hunion.
    { intros key. rewrite lookup_union. by destruct (user_config !! key), (DEFAULT_CONFIG !! key). }
    assert (dom DEFAULT_CONFIG ⊆ dom (user_config ∪ DEFAULT_CONFIG)) as Hsub.
    { rewrite dom_union. apply union_subseteq_r. }
    destruct env_key as [key|]; eexists; (split; [reflexivity|]).
    + split; [etrans; [exact Hsub|apply Hdom]|]. split; [apply lookup_insert_eq|].
      split; [|done]. intros k Hk. by rewrite lookup_insert_ne, Hunion.
    + split; [done|]. split; [|split; [|done]].
      * rewrite Hunion. by destruct (user_config !! "spectronaut_key").
      * intros k _. apply Hunion.
Qed.

Lemma load_config_precedence_witness :
  ∃ config,
    (@load_config posix "/home/ucloud" configured_disk (Some "from-env") None
       (empty_world [])).1 = Ok config
    ∧ dom DEFAULT_CONFIG ⊆ dom config
    ∧ config !! "spectronaut_key"
      = match Some "from-env",
              configured_disk (@config_location posix "/home/ucloud" None) with
        | Some key, _ => Some (JStr key)
        | None, Parsed user_config =>
            Some (default JNull (user_config !! "spectronaut_key"))
        | None, _ => Some JNull
        end
    ∧ (∀ key, key ≠ "spectronaut_key" →
         config !! key
         = match configured_disk (@config_location posix "/home/ucloud" None) with
           | Parsed user_config =>
               match user_config !! key with
               | Some v => Some v
               | None => DEFAULT_CONFIG !! key
               end
           | _ => DEFAULT_CONFIG !! key
           end)
    ∧ trace (@load_config posix "/home/ucloud" configured_disk (Some "from-env") None
               (empty_world [])).2
      = trace (empty_world [])
        ++ match configured_disk (@config_location posix "/home/ucloud" None) with
           | ReadError msg | DecodeError msg =>
               unusable_config (@config_location posix "/home/ucloud" None) msg
           | _ => []
           end.
Proof.
  apply (@load_config_precedence posix "/home/ucloud" configured_disk (Some "from-env")
           None (empty_world [])).
  intros e. discriminate.
Defined.

(** ** The selection of the file picker *)

Section PickerFacts.
Implicit Types (s : picker) (sel : gset string).

Lemma items_set_selected f s : items (set_selected f s) = items s.
Proof. reflexivity. Qed.

Lemma set_selected_compose f g s :
  set_selected g (set_selected f s) = set_selected (g ∘ f) s.
Proof. reflexivity. Qed.

Lemma set_selected_ext f g s :
  f (selected s) = g (selected s) → set_selected f s = set_selected g s.
Proof. intros Heq. unfold set_selected. by rewrite Heq. Qed.

(** A range inside the list toggles its items. *)
Lemma toggle_range_run checked : ∀ n start s,
  (start + n ≤ length (items s))%nat →
  toggle_range checked (seq start n) s
  = (None, set_selected
             (toggle_all checked (list_to_set (take n (drop start (items s))))) s).
Proof.
  induction n as [|n IH]; intros start s Hlen.
  { simpl. f_equal. destruct s. unfold set_selected, toggle_all. simpl. f_equal.
    destruct checked; apply set_eq; intros x; set_unfold; tauto. }
  destruct (lookup_lt_is_Some_2 (items s) start ltac:(lia)) as [p Hp].
  cbn [seq toggle_range]. rewrite Hp, IH by (rewrite items_set_selected; lia).
  rewrite items_set_selected, set_selected_compose. f_equal.
  apply set_selected_ext. rewrite (drop_S _ _ _ Hp). cbn [take list_to_set].
  unfold toggle_all, toggle, compose. destruct checked; apply set_eq; intros x; set_unfold; tauto.
Qed.

(** A range that runs past the list toggles the items up to the end of the
    list and raises. *)
Lemma toggle_range_past checked : ∀ n start s,
  (start ≤ length (items s) < start + n)%nat →
  toggle_range checked (seq start n) s
  = (Some (Exception "list index out of range"),
     set_selected (toggle_all checked (list_to_set (drop start (items s)))) s).
Proof.
  induction n as [|n IH]; intros start s Hlen; [lia|].
  cbn [seq toggle_range]. destruct (items s !! start) as [p|] eqn:Hp.
  - apply lookup_lt_Some in Hp as Hlt.
    rewrite IH by (rewrite items_set_selected; lia).
    rewrite items_set_selected, set_selected_compose. f_equal.
    apply set_selected_ext. rewrite (drop_S _ _ _ Hp). cbn [list_to_set].
    unfold toggle_all, toggle, compose. destruct checked; apply set_eq; intros x; set_unfold; tauto.
  - apply lookup_ge_None in Hp. rewrite drop_ge by lia. f_equal.
    destruct s. unfold set_selected, toggle_all. simpl. f_equal.
    destruct checked; apply set_eq; intros x; set_unfold; tauto.
Qed.

Lemma _checkbox_toggled_single index checked s p :
  multiple s = false → items s !! index = Some p →
  _checkbox_toggled index checked s
  = (None, set_last_clicked_index (Some index) (set_selected (toggle checked p) s)).
Proof.
  intros Hm Hp. unfold _checkbox_toggled. rewrite Hm, Hp. cbn [andb].
  by destruct (last_clicked_index s).
Qed.

(** X19: in multiple mode, a click on a checkbox with the shift key held
    checks or unchecks every item between the item clicked before and the
    item clicked now, both included, whichever of the two comes first in
    the list; the rest of the selection is kept, and the item clicked now
    becomes the start of the next range. *)
Theorem _checkbox_toggled_range index checked s last :
  multiple s = true → shift_is_held s = true → last_clicked_index s = Some last →
  (last < length (items s))%nat → (index < length (items s))%nat →
  _checkbox_toggled index checked s
  = (None, set_last_clicked_index (Some index)
             (set_selected
                (toggle_all checked (items_between (last `min` index) (last `max` index) s))
                s)).
Proof.
  intros Hm Hs Hl Hlast Hindex. unfold _checkbox_toggled, items_between.
  rewrite Hm, Hs, Hl. cbn [andb]. by rewrite toggle_range_run by lia.
Qed.

(** X20: when the list has become shorter than the place of the item
    clicked before (a filter was set in between), a click with the shift key
    held fails with an index error after it toggled the items from the
    clicked one to the end of the list; the start of the range stays where
    it was, so the next such click fails as well. *)
Theorem _checkbox_toggled_stale index checked s last :
  multiple s = true → shift_is_held s = true → last_clicked_index s = Some last →
  (index < length (items s) ≤ last)%nat →
  _checkbox_toggled index checked s
  = (Some (Exception "list index out of range"),
     set_selected (toggle_all checked (list_to_set (drop index (items s)))) s).
Proof.
  intros Hm Hs Hl Hlen. unfold _checkbox_toggled.
  rewrite Hm, Hs, Hl. cbn [andb].
  replace (last `min` index) with index by lia.
  by rewrite toggle_range_past by lia.
Qed.

(** X21: in single mode the checkboxes still let several items be
    selected; [_handle_confirm] then only shows the request to select one
    item: the caller gets no selection and the dialog stays open. *)
Theorem single_mode_confirm s i j p q :
  multiple s = false → items s !! i = Some p → items s !! j = Some q → p ≠ q →
  let s1 := (_checkbox_toggled i true s).2 in
  let s2 := (_checkbox_toggled j true s1).2 in
  selected s2 = {[q]} ∪ ({[p]} ∪ selected s)
  ∧ shown (_handle_confirm s2) = shown s ++ [Notification "Please select only one item"].
Proof.
  intros Hm Hp Hq Hne. cbv zeta.
  rewrite (_checkbox_toggled_single i true s p Hm Hp). cbn [snd].
  rewrite (_checkbox_toggled_single j true _ q) by done. cbn [snd].
  split; [done|]. unfold _handle_confirm. cbn [multiple selected set_last_clicked_index
    set_selected toggle]. rewrite Hm. cbn [negb andb].
  rewrite bool_decide_eq_true_2; [done|].
  assert (({[q]} ∪ {[p]} : gset string) ⊆ {[q]} ∪ ({[p]} ∪ selected s)) as Hsub.
  { intros x. rewrite !elem_of_union. tauto. }
  apply subseteq_size in Hsub. rewrite size_union, !size_singleton in Hsub; [lia|].
  intros x ->%elem_of_singleton ->%elem_of_singleton. done.
Qed.
End PickerFacts.

Lemma _checkbox_toggled_range_witness :
  _checkbox_toggled 3 true shift_picker
  = (None, set_last_clicked_index (Some 3)
             (set_selected
                (toggle_all true (items_between (1 `min` 3) (1 `max` 3) shift_picker))
                shift_picker)).
Proof. apply (_checkbox_toggled_range 3 true shift_picker 1); (reflexivity || (simpl; lia)). Defined.

Lemma _checkbox_toggled_stale_witness :
  _checkbox_toggled 1 true filtered_picker
  = (Some (Exception "list index out of range"),
     set_selected (toggle_all true (list_to_set (drop 1 (items filtered_picker))))
       filtered_picker).
Proof. apply (_checkbox_toggled_stale 1 true filtered_picker 4); (reflexivity || (simpl; lia)). Defined.

Lemma single_mode_confirm_witness :
  selected (_checkbox_toggled 2 true (_checkbox_toggled 0 true single_picker).2).2
  = {["/w/c"]} ∪ ({["/w/a"]} ∪ selected single_picker)
  ∧ shown (_handle_confirm
             (_checkbox_toggled 2 true (_checkbox_toggled 0 true single_picker).2).2)
    = shown single_picker ++ [Notification "Please select only one item"].
Proof.
  apply (single_mode_confirm single_picker 0 2 "/w/a" "/w/c");
    (reflexivity || discriminate).
Defined.

(** ** Preparing the data files *)

Section PrepareFacts.
Context `{!PythonLib}.
Implicit Types (w : world) (files pre post table : list datafile) (idx : nat).

Lemma path_exists_set_datafiles p f w :
  path_exists p (set_datafiles f w) = path_exists p w.
Proof. by destruct w. Qed.

Lemma set_datafiles_compose f g w :
  set_datafiles g (set_datafiles f w) = set_datafiles (g ∘ f) w.
Proof. by destruct w. Qed.

Lemma set_datafiles_id w : set_datafiles (λ l, l) w = w.
Proof. by destruct w. Qed.

(** The first loop on rows that are no archives and whose folders have
    their marker. *)
Lemma scan_filetable_folders files : ∀ idx w,
  Forall (λ f, type f ≠ "Bruker D Zip" ∧ usable_folder w f) files →
  scan_filetable idx files w = (Ok [], set_datafiles (normalised_rows idx files) w).
Proof.
  induction files as [|f files IH]; intros idx w Hok.
  { simpl. by rewrite set_datafiles_id. }
  apply Forall_cons in Hok as [[Hnozip Husable] Hok].
  cbn [scan_filetable normalised_rows].
  destruct (decide (type f = "Bruker D")) as [Hd|Hnd].
  - rewrite (run_bind_Ok get_world _ w w w eq_refl).
    fold (marker f). rewrite (Husable Hd). cbn [negb].
    rewrite (run_bind_Ok (modify _) _ w tt _ eq_refl).
    rewrite IH, set_datafiles_compose; [done|].
    eapply Forall_impl; [exact Hok|]. intros g [? Hg]. split; [done|].
    intros Hgd. rewrite path_exists_set_datafiles. by apply Hg.
  - rewrite decide_False by done. by apply IH.
Qed.

(** The first loop up to a folder without marker. *)
Lemma scan_filetable_corrupted pre file post : ∀ idx w,
  Forall (usable_folder w) pre → type file = "Bruker D" →
  path_exists (marker file) w = false →
  scan_filetable idx (pre ++ file :: post) w
  = (Raise (FileNotFoundError ("Corrupted Bruker D folder: " +:+ path file
                               +:+ " (missing analysis.tdf)")),
     set_datafiles (normalised_rows idx pre) w).
Proof.
  induction pre as [|f pre IH]; intros idx w Hok Hd Hmissing.
  { cbn [app scan_filetable normalised_rows]. rewrite decide_True by done.
    rewrite (run_bind_Ok get_world _ w w w eq_refl). fold (marker file).
    rewrite Hmissing. cbn [negb]. by rewrite set_datafiles_id. }
  apply Forall_cons in Hok as [Husable Hok].
  cbn [app scan_filetable normalised_rows].
  destruct (decide (type f = "Bruker D")) as [Hfd|Hnd].
  - rewrite (run_bind_Ok get_world _ w w w eq_refl).
    fold (marker f). rewrite (Husable Hfd). cbn [negb].
    rewrite (run_bind_Ok (modify _) _ w tt _ eq_refl).
    rewrite IH; [by rewrite set_datafiles_compose| |done|].
    + eapply Forall_impl; [exact Hok|]. intros g Hg Hgd.
      rewrite path_exists_set_datafiles. by apply Hg.
    + by rewrite path_exists_set_datafiles.
  - destruct (decide (type f = "Bruker D Zip")).
    + unfold mbind, M_bind. by rewrite IH.
    + by apply IH.
Qed.

(** The rows the first loop went over are normalised, the others are as
    they were. *)
Lemma normalised_rows_app files : ∀ pre post,
  normalised_rows (length pre) files (pre ++ files ++ post)
  = pre ++ (normalise_folder <$> files) ++ post.
Proof.
  induction files as [|f files IH]; intros pre post; [done|].
  cbn [normalised_rows fmap list_fmap].
  set (f' := normalise_folder f).
  assert ((if decide (type f = "Bruker D")
           then alter (λ row, set_path row (parent (marker f))) (length pre)
                      (pre ++ (f :: files) ++ post)
           else pre ++ (f :: files) ++ post)
          = (pre ++ [f']) ++ files ++ post) as ->.
  { subst f'. unfold normalise_folder.
    destruct (decide (type f = "Bruker D")); rewrite <- app_assoc; simpl; [|done].
    rewrite <- (Nat.add_0_r (length pre)). by rewrite alter_app_r. }
  replace (S (length pre)) with (length (pre ++ [f']))
    by (rewrite length_app; simpl; lia).
  rewrite IH. by rewrite <- !app_assoc.
Qed.

Lemma set_datafiles_ext f g w :
  f (datafiles w) = g (datafiles w) → set_datafiles f w = set_datafiles g w.
Proof. intros Heq. destruct w. unfold set_datafiles. simpl in *. by rewrite Heq. Qed.

(** X22: on a batch without archives whose Bruker folders all have their
    marker file, [prepare_datafiles_async] returns at once: the path of each
    folder row becomes the directory of its marker, every other row and the
    rest of the state stay as they are; nothing is extracted or logged and
    the progress bar is not shown. *)
Theorem prepare_datafiles_folders (data_folder : string) w :
  Forall (λ f, type f ≠ "Bruker D Zip" ∧ usable_folder w f) (datafiles w) →
  prepare_datafiles_async data_folder w
  = (Ok tt, set_datafiles (fmap normalise_folder) w).
Proof.
  intros Hok. unfold prepare_datafiles_async, try_except, prepare_datafiles.
  rewrite (run_bind_Ok get_world _ w w w eq_refl).
  rewrite (run_bind_Ok _ _ _ _ _ (scan_filetable_folders _ 0 w Hok)).
  unfold mret, M_ret. f_equal. apply set_datafiles_ext.
  pose proof (normalised_rows_app (datafiles w) [] []) as Hrows.
  simpl in Hrows. by rewrite !app_nil_r in Hrows.
Qed.

(** X23: a Bruker folder without its marker file stops the preparation
    with [FileNotFoundError] naming the folder, before any archive of the
    batch is extracted; the folder rows above it have already been
    normalised, the rows from it on are untouched. *)
Theorem prepare_datafiles_corrupted (data_folder : string) w pre file post :
  datafiles w = pre ++ file :: post →
  Forall (usable_folder w) pre → type file = "Bruker D" →
  path_exists (marker file) w = false →
  prepare_datafiles_async data_folder w
  = (Raise (FileNotFoundError ("Corrupted Bruker D folder: " +:+ path file
                               +:+ " (missing analysis.tdf)")),
     set_datafiles (λ _, (normalise_folder <$> pre) ++ file :: post) w).
Proof.
  intros Hrows Hok Hd Hmissing.
  unfold prepare_datafiles_async, try_except, prepare_datafiles.
  rewrite (run_bind_Ok get_world _ w w w eq_refl).
  unfold mbind, M_bind. rewrite Hrows.
  rewrite (scan_filetable_corrupted pre file post 0 w Hok Hd Hmissing).
  cbn [is_CancelledError]. f_equal. apply set_datafiles_ext. rewrite Hrows.
  pose proof (normalised_rows_app pre [] (file :: post)) as Happ.
  simpl in Happ. exact Happ.
Qed.
End PrepareFacts.

Lemma prepare_datafiles_folders_witness :
  @prepare_datafiles_async posix "/out/data" folder_world
  = (Ok tt, set_datafiles (fmap (@normalise_folder posix)) folder_world).
Proof.
  apply (@prepare_datafiles_folders posix "/out/data" folder_world).
  repeat constructor; try discriminate.
Defined.

Lemma prepare_datafiles_corrupted_witness :
  @prepare_datafiles_async posix "/out/data" corrupted_world
  = (Raise (FileNotFoundError ("Corrupted Bruker D folder: " +:+ path corrupted_folder
                               +:+ " (missing analysis.tdf)")),
     set_datafiles (λ _, (@normalise_folder posix <$> [bruker_zip_file; bruker_file])
                         ++ corrupted_folder :: [thermo_file]) corrupted_world).
Proof.
  apply (@prepare_datafiles_corrupted posix "/out/data" corrupted_world
           [bruker_zip_file; bruker_file] corrupted_folder [thermo_file]).
  - reflexivity.
  - repeat constructor; try discriminate.
  - reflexivity.
  - vm_compute. reflexivity.
Defined.

(** ** The processes a workflow starts *)

Section QuietFacts.
Implicit Types (w : world).

Lemma quiet_refl w : quiet w w.
Proof. by split. Qed.

Lemma quiet_trans w1 w2 w3 : quiet w1 w2 → quiet w2 w3 → quiet w1 w3.
Proof. intros [? ?] [? ?]. split; congruence. Qed.

Lemma same_quiet w w' : same w w' → quiet w w'.
Proof. intros (_ & ? & ?). by split. Qed.

Lemma keeps_calm {A} (m : M A) : keeps m → preserves quiet m.
Proof. intros Hm w. apply same_quiet, Hm. Qed.

Lemma quiet_set_datafiles f w : quiet w (set_datafiles f w).
Proof. by destruct w. Qed.

Lemma calm_modify_datafiles f : preserves quiet (modify (set_datafiles f)).
Proof. intros w. apply quiet_set_datafiles. Qed.
End QuietFacts.

Ltac calm_step :=
  first
    [ apply (preserves_bind quiet quiet_trans)
    | apply (preserves_ret quiet quiet_refl)
    | apply (preserves_raise quiet quiet_refl)
    | apply (preserves_get_world quiet quiet_refl)
    | apply calm_modify_datafiles
    | apply keeps_calm, keeps_log
    | apply keeps_calm, keeps_emit; done
    | apply keeps_calm, keeps_modify_fs ].

Section PrepareCalm.
Context `{!PythonLib}.

Lemma calm_scan_filetable files : ∀ idx, preserves quiet (scan_filetable idx files).
Proof.
  induction files as [|f files IH]; intros idx; cbn [scan_filetable]; [calm_step|].
  destruct (decide (type f = "Bruker D")).
  - calm_step; [calm_step|]. intros w. destruct (negb _); [calm_step|].
    calm_step; [calm_step|]. intros _. apply IH.
  - destruct (decide (type f = "Bruker D Zip")); [|apply IH].
    calm_step; [apply IH|]. intros zip_tasks. calm_step.
Qed.

Lemma calm__extract_zip_worker idx zip_path extract_path progress_queue :
  preserves quiet (_extract_zip_worker idx zip_path extract_path progress_queue).
Proof.
  intros w. pose proof (_extract_zip_worker_run idx zip_path extract_path progress_queue w)
    as Hrun. cbv zeta in Hrun. rewrite Hrun. unfold queue_after.
  destruct (zb_error _) as [e|]; [destruct (is_Exception e)|destruct (bool_decide _)];
    destruct progress_queue, w; by split.
Qed.

Lemma calm__progress_reader total st item :
  preserves quiet (_progress_reader total st item).
Proof.
  unfold _progress_reader. destruct item as [msg|idx success real_path err].
  { calm_step; [calm_step|]. intros _. calm_step. }
  calm_step; [calm_step|]. intros w. destruct (datafiles w !! idx); [|calm_step].
  calm_step.
  { destruct success.
    - calm_step; [calm_step|]. intros _. calm_step; [calm_step|]. intros _. calm_step.
    - calm_step; [calm_step|]. intros _. calm_step. }
  intros errors. calm_step; [calm_step|]. intros _. calm_step.
Qed.

Lemma calm_drain_queue total st : preserves quiet (drain_queue total st).
Proof.
  unfold drain_queue. calm_step; [calm_step|]. intros w.
  calm_step.
  { apply keeps_calm. intros w1. apply same_set_progress_q. }
  intros _. apply (preserves_foldM quiet quiet_refl quiet_trans).
  intros acc x. apply calm__progress_reader.
Qed.

Lemma calm_extract_tasks total data_folder zip_tasks : ∀ completed st,
  preserves quiet (extract_tasks total data_folder completed zip_tasks st).
Proof.
  induction zip_tasks as [|[idx file] rest IH]; intros completed st;
    cbn [extract_tasks]; [calm_step|].
  calm_step; [calm_step|]. intros w. destruct (bool_decide _).
  - calm_step; [calm_step|]. intros _. calm_step.
  - calm_step; [apply calm__extract_zip_worker|]. intros _.
    calm_step; [apply calm_drain_queue|]. intros st'. apply IH.
Qed.

Lemma calm_prepare_datafiles_async data_folder :
  preserves quiet (prepare_datafiles_async data_folder).
Proof.
  unfold prepare_datafiles_async.
  apply (preserves_try_except quiet quiet_trans).
  2:{ intros e h. destruct (is_CancelledError e); [|done]. intros [= <-].
      calm_step; [calm_step|]. intros _. calm_step. }
  unfold prepare_datafiles. calm_step; [calm_step|]. intros w.
  calm_step; [apply calm_scan_filetable|]. intros zip_tasks.
  destruct zip_tasks as [|task zip_tasks]; [calm_step|].
  calm_step; [calm_step|]. intros _. calm_step; [calm_step|]. intros _.
  calm_step; [calm_step|]. intros _. calm_step; [calm_step|]. intros _.
  calm_step.
  { apply (preserves_try_finally quiet quiet_trans); [|calm_step].
    apply (preserves_try_except quiet quiet_trans); [apply calm_extract_tasks|].
    intros e h. destruct (is_CancelledError e).
    - intros [= <-]. calm_step; [calm_step|]. intros _. calm_step.
    - destruct (is_Exception e); [|done]. intros [= <-].
      calm_step; [calm_step|]. intros _. calm_step. }
  intros st. destruct (st.2); calm_step.
Qed.

Lemma calm_write_conditon_file filetable output_path :
  preserves quiet (write_conditon_file filetable output_path).
Proof.
  intros w. rewrite write_conditon_file_run.
  destruct filetable; [apply quiet_refl|]. cbn [snd].
  destruct (negb _ && _); destruct w; split; simpl; try done.
  by rewrite execs_snoc_silent.
Qed.
End PrepareCalm.

Section HandsOver.
Context `{!PythonLib, !Config}.
Implicit Types (w : world) (args : gmap string pyval)
  (tail : list string → M (option bool)).

Lemma hands_over_bind {A} (m : M A) (f : A → M (option bool)) tail w0 w :
  preserves quiet m → quiet w0 w →
  (∀ a w1, quiet w0 w1 → hands_over w0 tail (f a w1)) →
  hands_over w0 tail ((m ≫= f) w).
Proof.
  intros Hm Hw Hf. unfold mbind, M_bind. specialize (Hm w).
  destruct (m w) as [[a|e] w1]; simpl in *.
  - apply Hf. by eapply quiet_trans.
  - left. by eapply quiet_trans.
Qed.

Lemma hands_over_return tail w0 w (r : option bool) :
  quiet w0 w → hands_over w0 tail (Ok r, w).
Proof. intros Hw. by left. Qed.

Lemma calm_copy_to_params optional key params_folder args :
  preserves quiet (copy_to_params optional key params_folder args).
Proof. apply keeps_calm, keeps_copy_to_params. Qed.

Lemma calm_mkdir_new p : preserves quiet (mkdir_new p).
Proof.
  unfold mkdir_new. calm_step; [calm_step|]. intros w.
  destruct (fs w !! p); [calm_step|]. destruct (mkdir_error _ _); calm_step.
Qed.

Lemma calm_pop args key : preserves quiet (pop args key).
Proof. unfold pop. destruct (args !! key); calm_step. Qed.

(** The preparation step of both workflows. *)
Lemma calm_prepared data_folder :
  preserves quiet
    (try_except
       (emit (Notify "Preparing data files...");;
        prepare_datafiles_async data_folder;;
        mret true)
       (λ e, if is_CancelledError e then Some (
          log WARNING "Processing cancelled by user";; mret false)
        else if is_Exception e then Some (
          log ERROR ("Error preparing data files: " +:+ exn_str e);; mret false)
        else None)).
Proof.
  apply (preserves_try_except quiet quiet_trans).
  - calm_step; [calm_step|]. intros _.
    calm_step; [apply calm_prepare_datafiles_async|]. intros _. calm_step.
  - intros e h. destruct (is_CancelledError e).
    + intros [= <-]. calm_step; [calm_step|]. intros _. calm_step.
    + destruct (is_Exception e); [|done]. intros [= <-].
      calm_step; [calm_step|]. intros _. calm_step.
Qed.

Lemma process_direct_body_hands_over args w :
  hands_over w run_spectronaut (process_direct_body args w).
Proof.
  pose proof (quiet_refl w) as Hw. revert Hw. generalize w at 1 3 as w0.
  intros w0 Hw. unfold process_direct_body.
  apply hands_over_bind; [calm_step|done|]. intros w1 w2 Hw2.
  case_bool_decide.
  { apply hands_over_bind; [calm_step|done|]. intros _ w3 Hw3.
    by apply hands_over_return. }
  apply hands_over_bind; [apply keeps_calm, keeps_getitem|done|].
  intros output_directory w3 Hw3. case_bool_decide.
  { apply hands_over_bind; [calm_step|done|]. intros _ w4 Hw4.
    by apply hands_over_return. }
  apply hands_over_bind; [apply keeps_calm, keeps_as_Path|done|]. intros out w4 Hw4.
  apply hands_over_bind; [calm_step|done|]. intros w5 w6 Hw6.
  apply hands_over_bind.
  { destruct (negb _); [apply keeps_calm, keeps_mkdir|calm_step]. }
  { done. }
  intros _ w7 Hw7.
  apply hands_over_bind; [apply keeps_calm, keeps_getitem|done|].
  intros properties_file w8 Hw8. case_bool_decide.
  { apply hands_over_bind; [calm_step|done|]. intros _ w9 Hw9.
    by apply hands_over_return. }
  apply hands_over_bind; [apply keeps_calm, keeps_getitem|done|].
  intros fasta_file w9 Hw9. case_bool_decide.
  { apply hands_over_bind; [calm_step|done|]. intros _ w10 Hw10.
    by apply hands_over_return. }
  apply hands_over_bind; [apply keeps_calm, keeps_getitem|done|].
  intros experiment_name w10 Hw10.
  apply hands_over_bind; [calm_step|done|]. intros w11 w12 Hw12.
  apply hands_over_bind; [apply keeps_calm, keeps_mkdir|done|]. intros _ w13 Hw13.
  apply hands_over_bind; [apply keeps_calm, keeps_mkdir|done|]. intros _ w14 Hw14.
  apply hands_over_bind; [apply calm_copy_to_params|done|]. intros args1 w15 Hw15.
  apply hands_over_bind; [apply calm_copy_to_params|done|]. intros args2 w16 Hw16.
  apply hands_over_bind; [apply calm_copy_to_params|done|]. intros args3 w17 Hw17.
  apply hands_over_bind; [apply calm_copy_to_params|done|]. intros args4 w18 Hw18.
  apply hands_over_bind; [apply calm_copy_to_params|done|]. intros args5 w19 Hw19.
  apply hands_over_bind; [apply calm_copy_to_params|done|]. intros args6 w20 Hw20.
  apply hands_over_bind; [calm_step|done|]. intros _ w21 Hw21.
  apply hands_over_bind; [calm_step|done|]. intros w22 w23 Hw23.
  destruct (negb (validate_filetable _)).
  { apply hands_over_bind; [calm_step|done|]. intros _ w24 Hw24.
    by apply hands_over_return. }
  apply hands_over_bind; [apply calm_prepared|done|]. intros prepared w24 Hw24.
  destruct (negb prepared); [by apply hands_over_return|].
  apply hands_over_bind.
  { apply (preserves_try_except quiet quiet_trans).
    - calm_step; [apply keeps_calm, keeps_getitem|]. intros name.
      calm_step; [calm_step|]. intros _. calm_step; [calm_step|]. intros w25.
      calm_step; [apply calm_write_conditon_file|]. intros _.
      calm_step; [calm_step|]. intros _. calm_step.
    - intros e h. destruct (is_Exception e); [|done]. intros [= <-].
      calm_step; [calm_step|]. intros _. calm_step. }
  { done. }
  intros written w25 Hw25. destruct written as [args7|]; [|by apply hands_over_return].
  apply hands_over_bind.
  { apply (preserves_try_except quiet quiet_trans).
    - calm_step; [calm_step|]. intros w26. destruct (get_full_args _); [|calm_step].
      calm_step; [calm_step|]. intros _. calm_step.
    - intros e h. destruct (is_Exception e); [|done]. intros [= <-].
      calm_step; [calm_step|]. intros _. calm_step. }
  { done. }
  intros assembled w26 Hw26.
  destruct assembled as [args_list|]; [|by apply hands_over_return].
  right. by exists args_list, w26.
Qed.

Lemma process_convert_body_hands_over args w :
  hands_over w run_conversion (process_convert_body args w).
Proof.
  pose proof (quiet_refl w) as Hw. revert Hw. generalize w at 1 3 as w0.
  intros w0 Hw. unfold process_convert_body.
  apply hands_over_bind; [calm_step|done|]. intros w1 w2 Hw2.
  case_bool_decide.
  { apply hands_over_bind; [calm_step|done|]. intros _ w3 Hw3.
    by apply hands_over_return. }
  apply hands_over_bind; [apply keeps_calm, keeps_getitem|done|].
  intros output_directory w3 Hw3. case_bool_decide.
  { apply hands_over_bind; [calm_step|done|]. intros _ w4 Hw4.
    by apply hands_over_return. }
  apply hands_over_bind; [apply keeps_calm, keeps_as_Path|done|]. intros out w4 Hw4.
  apply hands_over_bind; [calm_step|done|]. intros w5 w6 Hw6.
  apply hands_over_bind.
  { destruct (negb _); [apply calm_mkdir_new|calm_step]. }
  { done. }
  intros _ w7 Hw7.
  apply hands_over_bind; [apply keeps_calm, keeps_mkdir|done|]. intros _ w8 Hw8.
  apply hands_over_bind; [apply keeps_calm, keeps_mkdir|done|]. intros _ w9 Hw9.
  apply hands_over_bind; [apply calm_copy_to_params|done|]. intros args1 w10 Hw10.
  apply hands_over_bind; [calm_step|done|]. intros _ w11 Hw11.
  apply hands_over_bind; [apply calm_prepared|done|]. intros prepared w12 Hw12.
  destruct (negb prepared); [by apply hands_over_return|].
  apply hands_over_bind; [apply calm_pop|done|]. intros args2 w13 Hw13.
  apply hands_over_bind.
  { apply (preserves_try_except quiet quiet_trans).
    - calm_step; [calm_step|]. intros _. calm_step.
    - intros e h. destruct (is_Exception e); [|done]. intros [= <-].
      calm_step; [calm_step|]. intros _. calm_step. }
  { done. }
  intros assembled w14 Hw14.
  destruct assembled as [args_list|]; [|by apply hands_over_return].
  right. by exists args_list, w14.
Qed.
End HandsOver.

(** The decorator adds no call and leaves the file table alone. *)
Lemma track_subprocess_cleanup_same {A} (body : M A) (w : world) :
  same (body (set_active_processes <[current_task w := []]> w)).2
       (track_subprocess_cleanup body w).2.
Proof.
  unfold track_subprocess_cleanup.
  rewrite (run_bind_Ok get_world _ w w w eq_refl).
  rewrite (run_bind_Ok (modify (set_active_processes <[current_task w := []]>))
             _ w tt _ eq_refl).
  unfold try_finally, try_except, modify.
  destruct (body _) as [[v|e] w1]; cbn [fst snd].
  { apply same_set_active_processes. }
  destruct (is_CancelledError e); cbn [fst snd].
  - unfold mbind, M_bind, raise.
    pose proof (keeps__cleanup_processes (current_task w) w1) as Hc.
    destruct (_cleanup_processes (current_task w) w1) as [[[]|e'] w2]; cbn [fst snd] in *;
      (eapply same_trans; [exact Hc|apply same_set_active_processes]).
  - apply same_set_active_processes.
Qed.

Section Calls.
Context `{!PythonLib, !Config}.
Implicit Types (w : world) (args : gmap string pyval) (args_list : list string).

Lemma run_spectronaut_calls args_list w :
  ∃ l, execs (trace (run_spectronaut args_list w).2) = execs (trace w) ++ l
       ∧ l `prefix_of` direct_calls (spawned w) args_list.
Proof.
  rewrite run_spectronaut_run. unfold direct_calls.
  pose proof (run_cmd_execs activate_args None (before_activate w)) as (Hex1 & Hsp1).
  unfold before_activate in Hex1 at 2 3, Hsp1 at 2.
  rewrite execs_logged, spawned_logged in Hex1 by done.
  rewrite spawned_logged in Hsp1.
  destruct (run_cmd activate_args None (before_activate w)) as [[[]|e] w1];
    cbn [fst snd] in *.
  2:{ exists [(spawned w, activate_args)]. rewrite execs_logged by done.
      split; [done|]. by apply prefix_cons, prefix_nil. }
  2:{ exists [(spawned w, activate_args)]. split; [done|].
      by apply prefix_cons, prefix_nil. }
  pose proof (run_cmd_execs (SPECTRONAUT ++ args_list) None (before_main w1))
    as (Hex2 & Hsp2).
  unfold before_main in Hex2 at 2 3, Hsp2 at 2.
  rewrite !execs_logged, !spawned_logged in Hex2 by done.
  rewrite !spawned_logged in Hsp2. rewrite Hex1, Hsp1 in Hex2. rewrite Hsp1 in Hsp2.
  destruct (run_cmd (SPECTRONAUT ++ args_list) None (before_main w1)) as [[result|e] w2];
    cbn [fst snd] in *.
  2:{ exists [(spawned w, activate_args); (S (spawned w), SPECTRONAUT ++ args_list)].
      split; [by rewrite Hex2, <- app_assoc|].
      by apply prefix_cons, prefix_cons, prefix_nil. }
  pose proof (run_cmd_execs deactivate_args None (before_deactivate result w2))
    as (Hex3 & _).
  unfold before_deactivate in Hex3 at 2 3.
  rewrite !execs_logged, !spawned_logged in Hex3 by (by destruct result).
  rewrite Hex2, Hsp2 in Hex3.
  exists [(spawned w, activate_args); (S (spawned w), SPECTRONAUT ++ args_list);
          (S (S (spawned w)), deactivate_args)].
  split; [|done].
  destruct (run_cmd deactivate_args None (before_deactivate result w2))
    as [[deactivated|e] w3]; cbn [fst snd] in *.
  - rewrite execs_logged by (by destruct deactivated).
    by rewrite Hex3, <- !app_assoc.
  - by rewrite Hex3, <- !app_assoc.
Qed.

(** The calls of the loop, however its conversions end. *)
Lemma convert_loop_calls total args_list : ∀ n i acc w,
  (i + n ≤ length (datafiles w))%nat →
  let out := convert_loop total (seq i n) args_list acc w in
  datafiles out.2 = datafiles w
  ∧ ∃ k, (k ≤ n)%nat
         ∧ execs (trace out.2)
           = execs (trace w)
             ++ conversions (spawned w) (take k (drop i (datafiles w))) args_list
         ∧ spawned out.2 = spawned w + k
         ∧ ((∃ r, out.1 = Ok r) → k = n).
Proof.
  induction n as [|n IH]; intros i acc w Hlen; cbv zeta.
  { simpl. split; [done|]. exists 0. unfold conversions. simpl.
    rewrite app_nil_r, Nat.add_0_r. by repeat split. }
  destruct (lookup_lt_is_Some_2 (datafiles w) i ltac:(lia)) as [file Hfile].
  cbn [seq]. rewrite (convert_loop_step _ _ _ _ _ _ _ Hfile). cbv zeta.
  destruct (run_cmd_shown_step (convert_shown (Path (path file)) args_list)
              (convert_args (Path (path file)) args_list) w)
    as (_ & Hex & Hsp & Hd & _).
  destruct (run_cmd_shown _ _ None w) as [[b|e] w1]; cbn [fst snd] in *.
  2:{ split; [done|]. exists 1. split; [lia|].
      rewrite (take_drop_lookup _ _ _ _ Hfile), conversions_cons, take_0.
      split; [done|]. split; [lia|]. by intros [r [=]]. }
  match goal with |- context [convert_loop total _ args_list _ ?w2] =>
    set (w' := w2) end.
  assert (execs (trace w') = execs (trace w) ++
            [(spawned w, convert_args (Path (path file)) args_list)]
          ∧ spawned w' = S (spawned w) ∧ datafiles w' = datafiles w)
    as (Hex' & Hsp' & Hd').
  { subst w'. rewrite !execs_logged, !spawned_logged, !datafiles_logged
      by (by destruct b). done. }
  clearbody w'.
  destruct (IH (S i) (acc && b) w') as (Hd1 & k & Hk & Hex1 & Hsp1 & Hok).
  { rewrite Hd'. lia. }
  cbv zeta in *. split; [congruence|]. exists (S k). split; [lia|].
  rewrite Hex1, Hsp1, Hex', Hsp', Hd'.
  rewrite (take_drop_lookup _ _ _ _ Hfile), conversions_cons.
  split; [by rewrite <- app_assoc|]. split; [lia|].
  intros Hr. f_equal. by apply Hok.
Qed.

Lemma conversions_prefix first (l : list datafile) k args_list :
  conversions first (take k l) args_list `prefix_of` conversions first l args_list.
Proof.
  revert first k. induction l as [|f l IH]; intros first k.
  { by rewrite take_nil. }
  destruct k as [|k]; [apply prefix_nil|].
  cbn [take]. rewrite !conversions_cons. apply prefix_cons, IH.
Qed.

Lemma length_conversions first (l : list datafile) args_list :
  length (conversions first l args_list) = length l.
Proof. unfold conversions. apply length_imap. Qed.

Lemma run_conversion_calls args_list w :
  datafiles (run_conversion args_list w).2 = datafiles w
  ∧ ∃ l, execs (trace (run_conversion args_list w).2) = execs (trace w) ++ l
         ∧ l `prefix_of` convert_calls (spawned w) (datafiles w) args_list.
Proof.
  rewrite run_conversion_run. unfold convert_calls.
  destruct (run_cmd_step activate_args (before_activate w))
    as (_ & Hex1 & Hsp1 & Hd1 & _).
  unfold before_activate in Hex1 at 2 3, Hsp1 at 2, Hd1 at 2.
  rewrite execs_logged, spawned_logged in Hex1 by done.
  rewrite spawned_logged in Hsp1. rewrite datafiles_logged in Hd1.
  destruct (run_cmd activate_args None (before_activate w)) as [[[]|e] w1];
    cbn [fst snd] in *.
  2:{ rewrite datafiles_logged. split; [done|].
      exists [(spawned w, activate_args)]. rewrite execs_logged by done.
      split; [done|]. by apply prefix_cons, prefix_nil. }
  2:{ split; [done|]. exists [(spawned w, activate_args)]. split; [done|].
      by apply prefix_cons, prefix_nil. }
  cbv zeta. rewrite Hd1.
  set (total := length (datafiles w)).
  set (w1' := before_conversion total w1).
  assert (execs (trace w1') = execs (trace w) ++ [(spawned w, activate_args)]
          ∧ spawned w1' = S (spawned w) ∧ datafiles w1' = datafiles w)
    as (Hex' & Hsp' & Hd').
  { subst w1'. unfold before_conversion.
    rewrite !execs_logged, !spawned_logged, !datafiles_logged by done. done. }
  clearbody w1'.
  destruct (convert_loop_calls total args_list total 0 true w1')
    as (Hd2 & k & Hk & Hex2 & Hsp2 & Hok).
  { rewrite Hd'. subst total. lia. }
  cbv zeta in *. rewrite drop_0, Hd', Hex', Hsp' in Hex2. rewrite Hsp' in Hsp2.
  rewrite Hd' in Hd2.
  destruct (convert_loop total (seq 0 total) args_list true w1') as [[success|e] w2];
    cbn [fst snd] in *.
  2:{ split; [done|].
      exists ([(spawned w, activate_args)]
              ++ conversions (S (spawned w)) (take k (datafiles w)) args_list).
      split; [by rewrite Hex2, <- app_assoc|].
      apply prefix_app, prefix_app_r, conversions_prefix. }
  rewrite (Hok ltac:(by eexists)) in *. clear Hok Hk. subst total.
  rewrite firstn_all in Hex2.
  destruct (run_cmd_step deactivate_args (after_conversion w2))
    as (_ & Hex3 & _ & Hd3 & _).
  unfold after_conversion in Hex3 at 2 3, Hd3 at 2.
  rewrite !execs_logged, !spawned_logged, Hex2, Hsp2 in Hex3 by done.
  rewrite !datafiles_logged, Hd2 in Hd3.
  assert (execs (trace (run_cmd deactivate_args None (after_conversion w2)).2)
          = execs (trace w) ++ [(spawned w, activate_args)]
            ++ conversions (S (spawned w)) (datafiles w) args_list
            ++ [(S (spawned w) + length (datafiles w), deactivate_args)]) as Hall.
  { by rewrite Hex3, <- !app_assoc. }
  destruct (run_cmd deactivate_args None (after_conversion w2))
    as [[deactivated|e] w3]; cbn [fst snd] in *.
  - rewrite datafiles_logged. split; [done|]. eexists. split; [|done].
    by rewrite execs_logged by (by destruct deactivated).
  - split; [done|]. eexists. split; [exact Hall|done].
Qed.
End Calls.

(** X24: whatever the options, the file table and the behaviour of the
    processes, the calls of [create_subprocess_exec] that [process_direct]
    makes are the activation, the main run and the deactivation, in this
    order, or the first one or two of them, or none: nothing is started
    before the activation and nothing after the deactivation, also when the
    run is cancelled and the decorator cleans up. *)
Theorem process_direct_calls `{!PythonLib, !Config} (args : gmap string pyval)
    (w : world) :
  ∃ args_list l,
    execs (trace (process_direct args w).2) = execs (trace w) ++ l
    ∧ l `prefix_of` direct_calls (spawned w) args_list.
Proof.
  unfold process_direct.
  destruct (track_subprocess_cleanup_same (process_direct_body args) w)
    as (_ & -> & _).
  set (w1 := set_active_processes <[current_task w := []]> w).
  assert (quiet w w1) as Hw1 by (apply same_quiet, same_set_active_processes).
  destruct (process_direct_body_hands_over args w1)
    as [Hq|(args_list & w2 & Hq & ->)].
  - exists [], []. rewrite app_nil_r. split; [|apply prefix_nil].
    by destruct (quiet_trans _ _ _ Hw1 Hq).
  - destruct (quiet_trans _ _ _ Hw1 Hq) as [Hex Hsp].
    destruct (run_spectronaut_calls args_list w2) as (l & Hl & Hpre).
    exists args_list, l. by rewrite Hl, Hex, <- Hsp.
Qed.

(** X25: the calls of [create_subprocess_exec] that [process_convert]
    makes are the activation, one conversion for each row of the file table
    in the order of the table, and the deactivation, or a beginning of this
    sequence: no row is converted twice or out of order, and nothing is
    started before the activation. *)
Theorem process_convert_calls `{!PythonLib, !Config} (args : gmap string pyval)
    (w : world) :
  ∃ args_list l,
    execs (trace (process_convert args w).2) = execs (trace w) ++ l
    ∧ l `prefix_of`
        convert_calls (spawned w) (datafiles (process_convert args w).2) args_list.
Proof.
  unfold process_convert.
  destruct (track_subprocess_cleanup_same (process_convert_body args) w)
    as (-> & -> & _).
  set (w1 := set_active_processes <[current_task w := []]> w).
  assert (quiet w w1) as Hw1 by (apply same_quiet, same_set_active_processes).
  destruct (process_convert_body_hands_over args w1)
    as [Hq|(args_list & w2 & Hq & ->)].
  - exists [], []. rewrite app_nil_r. split; [|apply prefix_nil].
    by destruct (quiet_trans _ _ _ Hw1 Hq).
  - destruct (quiet_trans _ _ _ Hw1 Hq) as [Hex Hsp].
    destruct (run_conversion_calls args_list w2) as (Hd & l & Hl & Hpre).
    exists args_list, l. by rewrite Hl, Hd, Hex, <- Hsp.
Qed.

(** A complete run of the Convert workflow: the first conversion fails,
    the second is run all the same, and the result is false. *)
Example process_convert_sample :
  (@process_convert posix default_config convert_page_args thermo_world).1
  = Ok (Some false)
  ∧ execs (trace (@process_convert posix default_config convert_page_args
                    thermo_world).2)
    = @convert_calls posix default_config 0 thermo_batch ["-o"; "/out"; "--verbose"].
Proof. split; vm_compute; reflexivity. Qed.

(** The Convert workflow does not call [validate_filetable]: a batch that
    mixes Thermo and Bruker files, which the DirectDIA workflow rejects, is
    converted. *)
Example process_convert_mixed_sample :
  validate_filetable mixed_filetable = false
  ∧ (@process_convert posix default_config convert_page_args mixed_world).1
    = Ok (Some true)
  ∧ execs (trace (@process_convert posix default_config convert_page_args
                    mixed_world).2)
    = @convert_calls posix default_config 0 mixed_filetable ["-o"; "/out"; "--verbose"].
Proof. split; [|split]; vm_compute; reflexivity. Qed.

(** ** Argument assembly, for every options dictionary *)


(** Strings, checkbox values, a path and [None] in one dictionary. *)
Example argument_assembly_sample :
  get_args (list_to_map
              [("temp_directory", VStr "/tmp/sn"); ("protocol", VStr "direct");
               ("experiment_name", VStr ""); ("properties_file", VPath "/out/params/p.prop");
               ("go_file", VNone); ("output_directory", VStr "/out");
               ("verbose", VBool true); ("parquet", VBool false);
               ("segmented", VBool false); ("error_term", VBool true)])
  = ["-setTemp"; "/tmp/sn"; "direct"; "-s"; "/out/params/p.prop"; "-o"; "/out";
     "--verbose"; "--terminateAfterError"].
Proof. vm_compute. reflexivity. Qed.
